(** * FloraWatch: the vegetation-index analysis core

    A shallow embedding of

      - [backend/src/utils/data_processor.py]  (class [DataProcessor]:
        the cleaning pipeline, the phenology metrics, the export), and
      - [FloraWatch/backend/src/algorithms/flowering_detector.py]
        (class [FloweringDetector]: event detection and the forecast),

    followed by the properties of the specification that concern them.

    Conventions of the embedding.

      - A Python exception is a value: code that can raise lives in the
        monad [exc]; [try: ... except Exception: ...] is [try_except].
      - A numpy/Python float is a [float64]: an exact rational, or one of
        the IEEE specials [+inf], [-inf], [nan].  The four operations
        are exact: rounding, overflow and the sign of zero are not
        modelled; division by zero and the comparisons with [nan] behave
        as in numpy.  A property that would depend on the rounding of a
        sum or of a mean is stated for the values on which numpy and
        pandas do not round (see [exact_sums]).
      - A [datetime] parsed from ["%Y-%m-%d"] is its proleptic Gregorian
        ordinal ([datetime.toordinal]), an integer in [1, 3652059].
      - What the code takes from numpy, pandas, scikit-learn and datetime
        and that has no closed form here (square root, random draws, the
        clustering, the text of a date) is an interface, see [Libs]. *)

From Stdlib Require Import ZArith QArith Qabs Lqa Ascii String.
From stdpp Require Import base option list gmap strings sorting.

#[local] Open Scope Z_scope.

(* ===================================================================== *)
(** * Python exceptions *)
(* ===================================================================== *)

Inductive exn : Set :=
  | KeyError | IndexError | ValueError | TypeError | OverflowError.

Inductive exc (A : Type) : Type :=
  | Ok (a : A)
  | Raise (e : exn).
Arguments Ok {A} a.
Arguments Raise {A} e.

#[global] Instance exc_ret : MRet exc := λ A a, Ok a.
#[global] Instance exc_bind : MBind exc := λ A B f m,
  match m with Ok a => f a | Raise e => Raise e end.
#[global] Instance exc_fmap : FMap exc := λ A B f m,
  match m with Ok a => Ok (f a) | Raise e => Raise e end.

(** [try: body  except Exception: handler] *)
Definition try_except {A} (body : exc A) (handler : exn → exc A) : exc A :=
  match body with Ok a => Ok a | Raise e => handler e end.

(** [d[key]] on a dict in which the key may be absent. *)
Definition getitem {A} (field : option A) : exc A :=
  match field with Some a => Ok a | None => Raise KeyError end.

(** [l[i]] on a list or a numpy array, for an index [i >= 0]. *)
Definition index {A} (l : list A) (i : nat) : exc A :=
  match l !! i with Some a => Ok a | None => Raise IndexError end.

(** [enumerate(l)] *)
Definition enumerate {A} (l : list A) : list (nat * A) := imap pair l.

(** [range(lo, hi)] over the naturals *)
Definition range (lo hi : nat) : list nat := seq lo (hi - lo).

(* ===================================================================== *)
(** * Floats *)
(* ===================================================================== *)

Inductive float64 : Set :=
  | Fin (q : Q)
  | PInf
  | NInf
  | NaN.

Module F.

Definition Qltb (a b : Q) : bool := negb (Qle_bool b a).

Definition of_Z (z : Z) : float64 := Fin (inject_Z z).
Definition of_nat (n : nat) : float64 := of_Z (Z.of_nat n).

Definition is_nan (x : float64) : bool :=
  match x with NaN => true | _ => false end.

Definition is_finite (x : float64) : bool :=
  match x with Fin _ => true | _ => false end.

Definition neg (x : float64) : float64 :=
  match x with
  | Fin q => Fin (Qred (- q))
  | PInf => NInf
  | NInf => PInf
  | NaN => NaN
  end.

Definition add (x y : float64) : float64 :=
  match x, y with
  | NaN, _ | _, NaN => NaN
  | Fin a, Fin b => Fin (Qred (a + b))
  | PInf, NInf | NInf, PInf => NaN
  | PInf, _ | _, PInf => PInf
  | NInf, _ | _, NInf => NInf
  end.

Definition sub (x y : float64) : float64 := add x (neg y).

(** the infinity of the sign of [s], [nan] for [s = 0] *)
Definition signed_inf (s : Z) : float64 :=
  match s with Z0 => NaN | Zpos _ => PInf | Zneg _ => NInf end.

Definition sgn (x : float64) : Z :=
  match x with
  | Fin q => Z.sgn (Qnum q)
  | PInf => 1
  | NInf => -1
  | NaN => 0
  end.

Definition mul (x y : float64) : float64 :=
  match x, y with
  | NaN, _ | _, NaN => NaN
  | Fin a, Fin b => Fin (Qred (a * b))
  | _, _ => signed_inf (sgn x * sgn y)
  end.

(** numpy division: [x / 0] is [inf], [-inf] or [nan] (a warning, no
    exception). *)
Definition div (x y : float64) : float64 :=
  match x, y with
  | NaN, _ | _, NaN => NaN
  | Fin a, Fin b =>
      if Qeq_bool b 0 then signed_inf (Z.sgn (Qnum a))
      else Fin (Qred (a / b))
  | Fin _, _ => Fin 0
  | _, Fin b => signed_inf (sgn x * (if Qeq_bool b 0 then 1 else sgn y))
  | _, _ => NaN
  end.

Definition abs (x : float64) : float64 :=
  match x with
  | Fin q => Fin (Qred (Qabs q))
  | PInf | NInf => PInf
  | NaN => NaN
  end.

(** The comparisons: every comparison with [nan] is false. *)
Definition ltb (x y : float64) : bool :=
  match x, y with
  | NaN, _ | _, NaN => false
  | Fin a, Fin b => Qltb a b
  | NInf, NInf | PInf, _ | _, NInf => false
  | _, _ => true
  end.

Definition leb (x y : float64) : bool :=
  match x, y with
  | NaN, _ | _, NaN => false
  | Fin a, Fin b => Qle_bool a b
  | NInf, _ | _, PInf => true
  | _, _ => false
  end.

Definition gtb (x y : float64) : bool := ltb y x.
Definition geb (x y : float64) : bool := leb y x.

(** Python's builtin [min(a, b)] and [max(a, b)]: the first argument is
    kept unless the second is strictly smaller (larger). *)
Definition py_min (a b : float64) : float64 := if ltb b a then b else a.
Definition py_max (a b : float64) : float64 := if gtb b a then b else a.

(** [np.clip(x, lo, hi)], that is [minimum(maximum(x, lo), hi)]: numpy's
    [minimum] and [maximum] propagate [nan]. *)
Definition np_clip (x lo hi : float64) : float64 :=
  if is_nan x then NaN
  else let y := if ltb x lo then lo else x in
       if gtb y hi then hi else y.

Definition sum (l : list float64) : float64 := foldl add (Fin 0) l.

End F.

Declare Scope float_scope.
Delimit Scope float_scope with F.
Bind Scope float_scope with float64.
Infix "+" := F.add : float_scope.
Infix "-" := F.sub : float_scope.
Infix "*" := F.mul : float_scope.
Infix "/" := F.div : float_scope.
Infix "<?" := F.ltb : float_scope.
Infix "<=?" := F.leb : float_scope.
Infix ">?" := F.gtb : float_scope.
Infix ">=?" := F.geb : float_scope.

(* ===================================================================== *)
(** * What the code takes from its libraries *)
(* ===================================================================== *)

(** The functions of datetime, numpy and scikit-learn that the code calls
    and that are not defined below.  A theorem stated over [Libs] holds
    for every implementation of this interface; the lemmas that run the
    code on an input name the implementation they run it with.

      - [strptime s] is [datetime.strptime(s, '%Y-%m-%d')] as an ordinal,
        [None] when the call raises [ValueError]; a [datetime] lies
        between [datetime.min] and [datetime.max];
      - [pd_to_datetime l] is [pd.to_datetime(l)] as ordinals, [None]
        when the call raises;
      - [np_sqrt] is the square root on the non-negative finite floats; it
        is never negative;
      - [np_percentile_empty] is what [np.percentile] does with an empty
        array ([nan] with a warning, or [IndexError], by numpy version);
      - [np_random_normal k s] is the result of the [k]-th call
        [np.random.normal(0, s)] since the forecast started;
      - [sk_cluster X] is [KMeans(n_clusters=3, random_state=42,
        n_init=10).fit_predict(StandardScaler().fit_transform(X))]: the
        cluster label of every row, or the exception it raised. *)
Class Libs := {
  strptime : string → option Z;
  strptime_range : ∀ s d, strptime s = Some d → 1 ≤ d ≤ 3652059;
  pd_to_datetime : list string → option (list Z);
  np_sqrt : Q → Q;
  np_sqrt_nonneg : ∀ q, (0 <= np_sqrt q)%Q;
  np_percentile_empty : exc float64;
  np_random_normal : nat → float64 → float64;
  sk_cluster : list (list float64) → exc (list nat);
}.

(* ===================================================================== *)
(** * datetime *)
(* ===================================================================== *)

Module Date.

(** [date.min.toordinal()] and [date.max.toordinal()] (9999-12-31) *)
Definition MINORDINAL : Z := 1.
Definition MAXORDINAL : Z := 3652059.

(** [_days_before_year(year)] *)
Definition days_before_year (year : Z) : Z :=
  let y := year - 1 in y * 365 + y / 4 - y / 100 + y / 400.

Definition is_leap (year : Z) : bool :=
  (year mod 4 =? 0) && (negb (year mod 100 =? 0) || (year mod 400 =? 0)).

(** [_days_before_month(year, month)] *)
Definition days_before_month (year month : Z) : Z :=
  let cum := [0; 31; 59; 90; 120; 151; 181; 212; 243; 273; 304; 334] in
  default 0 (cum !! Z.to_nat (month - 1))
  + (if (2 <? month) && is_leap year then 1 else 0).

(** [_ymd2ord(year, month, day)], i.e. [date(y, m, d).toordinal()] *)
Definition ymd2ord (year month day : Z) : Z :=
  days_before_year year + days_before_month year month + day.

(** [d.timetuple().tm_yday], computed as [_ord2ymd] does *)
Definition tm_yday (ordinal : Z) : Z :=
  let n := ordinal - 1 in
  let n100 := (n mod 146097) / 36524 in
  let n := (n mod 146097) mod 36524 in
  let n1 := (n mod 1461) / 365 in
  let n := (n mod 1461) mod 365 in
  if (n1 =? 4) || (n100 =? 4) then 366 else n + 1.

(** [d + timedelta(days=k)] *)
Definition add_days (d k : Z) : exc Z :=
  if (Z.abs k <=? 999999999) && (MINORDINAL <=? d + k) && (d + k <=? MAXORDINAL)
  then Ok (d + k) else Raise OverflowError.

(** [(a - b).days] *)
Definition days_between (a b : Z) : Z := a - b.

End Date.

(* ===================================================================== *)
(** * numpy and pandas *)
(* ===================================================================== *)

Section Numpy.
Context `{Libs}.

(** [np.sqrt] on a float *)
Definition np_sqrt_f (x : float64) : float64 :=
  match x with
  | Fin q => if F.Qltb q 0 then NaN else Fin (np_sqrt q)
  | PInf => PInf
  | NInf | NaN => NaN
  end.

(** [np.mean]: [nan] (and a warning) on an empty array *)
Definition np_mean (a : list float64) : float64 :=
  (F.sum a / F.of_nat (length a))%F.

(** [np.nanmean]: the mean of the entries that are not [nan] *)
Definition np_nanmean (a : list float64) : float64 :=
  np_mean (filter (λ x, F.is_nan x = false) a).

(** [np.std] (population standard deviation, [ddof=0]) *)
Definition np_std (a : list float64) : float64 :=
  let m := np_mean a in
  np_sqrt_f (np_mean (map (λ x, let d := F.abs (x - m) in d * d)%F a)).

(** [Series.std] of pandas (sample standard deviation, [ddof=1]), as
    [groupby(...).agg('std')] computes it: [nan] for a single value. *)
Definition pd_std (a : list float64) : float64 :=
  let a := filter (λ x, F.is_nan x = false) a in
  let m := np_mean a in
  if (length a <=? 1)%nat then NaN
  else np_sqrt_f (F.sum (map (λ x, (x - m) * (x - m))%F a)
                  / F.of_Z (Z.of_nat (length a) - 1))%F.

(** [np.max] and [np.min]: [ValueError] on an empty array, [nan] as
    soon as one entry is [nan]. *)
Definition np_maximum (x y : float64) : float64 :=
  if F.is_nan x || F.is_nan y then NaN else if (x <? y)%F then y else x.
Definition np_minimum (x y : float64) : float64 :=
  if F.is_nan x || F.is_nan y then NaN else if (y <? x)%F then y else x.

Definition np_max (a : list float64) : exc float64 :=
  match a with [] => Raise ValueError | x :: a => Ok (foldl np_maximum x a) end.
Definition np_min (a : list float64) : exc float64 :=
  match a with [] => Raise ValueError | x :: a => Ok (foldl np_minimum x a) end.

(** [np.argmax]: the first index of the maximum, a [nan] counting as the
    maximum; [ValueError] on an empty array.  [argmax_from] scans [a],
    whose first entry has index [i], knowing the best so far. *)
Fixpoint argmax_from (a : list float64) (i : nat) (best : nat) (bv : float64) : nat :=
  match a with
  | [] => best
  | x :: a =>
      if F.is_nan bv then best
      else if F.is_nan x || (x >? bv)%F then argmax_from a (S i) i x
      else argmax_from a (S i) best bv
  end.

Definition np_argmax (a : list float64) : exc nat :=
  match a with [] => Raise ValueError | x :: a => Ok (argmax_from a 1 0 x) end.

(** [np.diff] *)
Definition np_diff (a : list float64) : list float64 :=
  zip_with (λ next prev, next - prev)%F (tail a) a.

(** [np.trapz] with unit spacing *)
Definition np_trapz (a : list float64) : float64 :=
  F.sum (zip_with (λ next prev, (next + prev) / Fin 2)%F (tail a) a).

(** [np.any] on a boolean array *)
Definition np_any (m : list bool) : bool := existsb id m.

(** [a[mask]] for a boolean array [mask]: [IndexError] unless the two
    have the same length. *)
Definition bool_index {A} (a : list A) (mask : list bool) : exc (list A) :=
  if (length a =? length mask)%nat
  then Ok (omap (λ p : A * bool, if p.2 then Some p.1 else None) (zip a mask))
  else Raise IndexError.

(** [a[idx]] for a list of indices *)
Definition fancy_index {A} (a : list A) (idx : list nat) : exc (list A) :=
  mapM (index a) idx.

(** [np.where(mask)[0]] *)
Definition np_where (mask : list bool) : list nat :=
  omap (λ p : nat * bool, if p.2 then Some p.1 else None) (enumerate mask).

(** Sorting as [np.sort] does on an array without [nan]. *)
Fixpoint insert_sorted (x : float64) (a : list float64) : list float64 :=
  match a with
  | [] => [x]
  | y :: a' => if (x <=? y)%F then x :: a else y :: insert_sorted x a'
  end.
Definition np_sort (a : list float64) : list float64 :=
  foldr insert_sorted [] a.

(** [np.percentile(a, p)] with the default linear interpolation, for an
    integer percentage [p] in [0, 100]: the value at the virtual index
    [(n - 1) * p / 100] of the sorted array. *)
Definition np_percentile (a : list float64) (p : Z) : exc float64 :=
  match a with
  | [] => np_percentile_empty
  | _ =>
      if existsb F.is_nan a then Ok NaN else
      let s := np_sort a in
      let pos := (Z.of_nat (length a) - 1) * p in
      let lo := Z.to_nat (pos / 100) in
      let gamma := Fin (Qred (inject_Z (pos mod 100) / 100)) in
      let hi := Nat.min (S lo) (length a - 1) in
      x ← index s lo;
      y ← index s hi;
      Ok (x + (y - x) * gamma)%F
  end.

(** [np.std] applied to a pandas [Series]: numpy hands the call over to
    [Series.std(ddof=0)], which leaves the [nan] entries out. *)
Definition np_std_series (a : list float64) : float64 :=
  np_std (filter (λ x, F.is_nan x = false) a).

(** [pd.Series(a).rolling(window=w, center=True, min_periods=1).mean()]:
    pandas first turns the infinite entries into [nan]; entry [i] is then
    the mean of the entries of the window
    [a[i + 1 + (w-1)//2 - w : i + 1 + (w-1)//2]], clipped to the array,
    that are not [nan]; [nan] when there is none. *)
Definition rolling_window (w : nat) (a : list float64) (i : nat) : list float64 :=
  let stop := Nat.min (i + 1 + (w - 1) / 2) (length a) in
  let start := Nat.min (i + 1 + (w - 1) / 2 - w) (length a) in
  take (stop - start) (drop start a).

Definition inf_to_nan (x : float64) : float64 :=
  match x with PInf | NInf => NaN | _ => x end.

Definition rolling_mean (w : nat) (a : list float64) : list float64 :=
  let a := map inf_to_nan a in
  imap (λ i _, np_nanmean (rolling_window w a i)) a.

End Numpy.

(* ===================================================================== *)
(** * The records exchanged with the callers *)
(* ===================================================================== *)

(** The [time_series] dict.  A key that may be absent is an [option].
    The last six keys are written by the cleaning pipeline only. *)
Record TimeSeries := {
  dates : option (list string);
  values : option (list float64);
  quality_flags : option (list string);
  units : option string;
  values_smoothed : option (list float64);
  smoothing_applied : option nat;          (* the window size *)
  evi_approximated : option (list float64);
  savi_approximated : option (list float64);
  greenness_index : option (list float64);
}.

Record Location := {
  latitude : option float64;
  longitude : option float64;
}.

(** A bare series: only [dates], [values] and [quality_flags]. *)
Definition series (d : list string) (v : list float64)
    (fl : option (list string)) : TimeSeries :=
  {| dates := Some d; values := Some v; quality_flags := fl; units := None;
     values_smoothed := None; smoothing_applied := None;
     evi_approximated := None; savi_approximated := None;
     greenness_index := None |}.

(* ===================================================================== *)
(** * flowering_detector.py: class FloweringDetector *)
(* ===================================================================== *)

Module FloweringDetector.

(** The record [detect_events] and [predict_flowering] receive. *)
Record SatelliteData := {
  time_series : option TimeSeries;
  location : option Location;
  product_info : option string;
}.

(** [self.config] *)
Record Config := {
  ndvi_flowering_threshold : float64;
  evi_flowering_threshold : float64;
  min_duration_days : Z;
  max_duration_days : Z;
  smoothing_window : nat;
  seasonal_baseline_days : Z;
  anomaly_threshold_sigma : float64;
}.

Definition config : Config := {|
  ndvi_flowering_threshold := Fin 0.15;
  evi_flowering_threshold := Fin 0.12;
  min_duration_days := 5;
  max_duration_days := 45;
  smoothing_window := 3;
  seasonal_baseline_days := 365;
  anomaly_threshold_sigma := Fin 2.0;
|}.

(** The dict an algorithm builds for one event.  A date is kept as the
    [datetime] it is printed from ([strftime('%Y-%m-%d')]). *)
Record RawEvent := {
  start_date : Z;
  end_date : Z;
  peak_date : Z;
  duration_days : Z;
  peak_value : float64;
  intensity : float64;
  confidence : float64;
}.

Inductive EventType :=
  | brief_flowering | typical_flowering | extended_flowering | vegetation_pulse.

Inductive ConfidenceLevel := high | medium | low.

(** The pieces of the f-string of [_generate_event_description]. *)
Record Description := {
  base_desc : string;
  desc_latitude : float64;
  desc_longitude : float64;
  desc_start : Z;
  desc_end : Z;
  desc_confidence : ConfidenceLevel;
}.

(** The enriched event [detect_events] returns. *)
Record Event := {
  raw :> RawEvent;
  event_location : Location;
  data_source : option string;
  event_type : EventType;
  confidence_level : ConfidenceLevel;
  description : Description;
}.

Inductive Algorithm := Threshold | ChangeDetection | SeasonalAnomaly | MachineLearning.

(** [self.detection_algorithms]: the dict from names to methods *)
Definition detection_algorithms (name : string) : option Algorithm :=
  if String.eqb name "threshold" then Some Threshold
  else if String.eqb name "change_detection" then Some ChangeDetection
  else if String.eqb name "seasonal_anomaly" then Some SeasonalAnomaly
  else if String.eqb name "machine_learning" then Some MachineLearning
  else None.

Record Prediction := {
  date : Z;
  predicted_ndvi : float64;
  prediction_confidence : float64;
  flowering_probability : float64;
}.

Section Detector.
Context `{Libs}.

Definition _validate_data (data : SatelliteData) : bool :=
  match time_series data, location data with
  | Some ts, Some _ =>
      match dates ts, values ts with
      | Some d, Some v => (length d =? length v)%nat
      | _, _ => false
      end
  | _, _ => false
  end.

Definition _smooth_time_series (values : list float64) : list float64 :=
  let window_size := smoothing_window config in
  if (length values <? window_size)%nat then values
  else rolling_mean window_size values.

Definition _calculate_confidence (event_indices : list nat)
    (values : list float64) : exc float64 :=
  match event_indices with
  | [] => Ok (Fin 0)
  | _ =>
      event_values ← fancy_index values event_indices;
      let all_values := values in
      top ← np_max event_values;
      let f_intensity :=
        F.py_min (Fin 1) ((top - np_mean all_values) / np_std all_values)%F in
      let f_duration :=
        F.py_min (Fin 1) (F.of_nat (length event_indices) / Fin 5)%F in
      let f_consistency :=
        if (np_mean event_values >? Fin 0)%F
        then (Fin 1 - np_std event_values / np_mean event_values)%F
        else Fin 0 in
      let f_contrast :=
        F.py_min (Fin 1) (np_mean event_values / np_mean all_values - Fin 1)%F in
      let confidence :=
        (Fin 0 + f_intensity * Fin 0.4 + f_duration * Fin 0.2
         + f_consistency * Fin 0.2 + f_contrast * Fin 0.2)%F in
      Ok (F.py_max (Fin 0) (F.py_min (Fin 1) confidence))
  end.

(** The first loop of [_group_consecutive_exceedances]: the runs of
    consecutive indices at which the mask holds. *)
Fixpoint consecutive_groups (exceedances : list (nat * bool))
    (current_group : list nat) : list (list nat) :=
  match exceedances with
  | [] => match current_group with [] => [] | _ => [current_group] end
  | (i, exceeds) :: rest =>
      if exceeds then consecutive_groups rest (current_group ++ [i])
      else match current_group with
           | [] => consecutive_groups rest []
           | _ => current_group :: consecutive_groups rest []
           end
  end.

(** The body of its second loop, for one group. *)
Definition event_of_group (dates : list Z) (values : list float64)
    (group : list nat) : exc (option RawEvent) :=
  if (2 <=? length group)%nat then
    start_idx ← index group 0;
    end_idx ← index group (length group - 1);
    group_values ← fancy_index values group;
    k ← np_argmax group_values;
    peak_idx ← index group k;
    d_end ← index dates end_idx;
    d_start ← index dates start_idx;
    let duration := Date.days_between d_end d_start in
    let min_dur := min_duration_days config in
    let max_dur := max_duration_days config in
    if (min_dur <=? duration) && (duration <=? max_dur) then
      d_peak ← index dates peak_idx;
      v_peak ← index values peak_idx;
      conf ← _calculate_confidence group values;
      Ok (Some {| start_date := d_start; end_date := d_end;
                  peak_date := d_peak; duration_days := duration;
                  peak_value := v_peak;
                  intensity := (v_peak - np_mean values)%F;
                  confidence := conf |})
    else Ok None
  else Ok None.

Definition _group_consecutive_exceedances (dates : list Z)
    (values : list float64) (exceedances : list bool) : exc (list RawEvent) :=
  let groups := consecutive_groups (enumerate exceedances) [] in
  events ← mapM (event_of_group dates values) groups;
  Ok (omap id events).

Definition _detect_by_threshold (dates : list Z) (values : list float64)
    : exc (list RawEvent) :=
  let threshold := ndvi_flowering_threshold config in
  let baseline_window := Nat.min (length values / 3) 10 in
  let baseline :=
    if (baseline_window <? 2)%nat then replicate (length values) (np_mean values)
    else rolling_mean baseline_window values in
  let exceedances := zip_with (λ v b, (v - b >? threshold)%F) values baseline in
  _group_consecutive_exceedances dates values exceedances.

(** The first loop of [_track_flowering_event]: the search of the
    peak over the indices [idxs], with its [break]. *)
Fixpoint track_peak (values : list float64) (idxs : list nat)
    (peak_idx : nat) (peak_value : float64) : exc (nat * float64) :=
  match idxs with
  | [] => Ok (peak_idx, peak_value)
  | i :: idxs =>
      v ← index values i;
      if (v >? peak_value)%F then track_peak values idxs i v
      else if (v <? peak_value * Fin 0.8)%F then Ok (peak_idx, peak_value)
      else track_peak values idxs peak_idx peak_value
  end.

(** Its second loop: the search of the end, with its [break]. *)
Fixpoint track_end (values : list float64) (idxs : list nat)
    (peak_value : float64) (end_idx : nat) : exc nat :=
  match idxs with
  | [] => Ok end_idx
  | i :: idxs =>
      v ← index values i;
      if (v <? peak_value * Fin 0.7)%F then Ok i
      else track_end values idxs peak_value i
  end.

Definition _track_flowering_event (dates : list Z) (values : list float64)
    (start_idx : nat) : exc (option RawEvent) :=
  if (length values <=? start_idx + 1)%nat then Ok None else
  v_start ← index values start_idx;
  pk ← track_peak values
         (range (start_idx + 1) (Nat.min (length values) (start_idx + 10)))
         start_idx v_start;
  let '(peak_idx, peak_value) := pk in
  end_idx ← track_end values
         (range (peak_idx + 1) (Nat.min (length values) (peak_idx + 15)))
         peak_value peak_idx;
  d_end ← index dates end_idx;
  d_start ← index dates start_idx;
  let duration := Date.days_between d_end d_start in
  let min_dur := min_duration_days config in
  let max_dur := max_duration_days config in
  if (min_dur <=? duration) && (duration <=? max_dur) then
    d_peak ← index dates peak_idx;
    conf ← _calculate_confidence (range start_idx (end_idx + 1)) values;
    Ok (Some {| start_date := d_start; end_date := d_end;
                peak_date := d_peak; duration_days := duration;
                peak_value := peak_value;
                intensity := (peak_value - np_mean values)%F;
                confidence := conf |})
  else Ok None.

Definition _detect_by_change (dates : list Z) (values : list float64)
    : exc (list RawEvent) :=
  if (length values <? 5)%nat then Ok [] else
  let diff := np_diff values in
  let diff_smooth := _smooth_time_series diff in
  let threshold := (np_std diff_smooth * Fin 1.5)%F in
  let significant_increases := map (λ d, (d >? threshold)%F) diff_smooth in
  let event_starts :=
    omap (λ p : nat * bool,
            let '(i, is_increase) := p in
            if is_increase
               && ((i =? 0)%nat
                   || negb (default false (significant_increases !! (i - 1)%nat)))
            then Some i else None)
         (enumerate significant_increases) in
  events ← mapM (_track_flowering_event dates values) event_starts;
  Ok (omap id events).

(** [df.groupby(key)[value]] as the dict from a key to the values of
    its rows, in row order. *)
Definition group_by (keys : list Z) (vals : list float64)
    : gmap Z (list float64) :=
  foldl (λ m p, <[p.1 := default [] (m !! p.1) ++ [p.2]]> m) ∅ (zip keys vals).

Definition _detect_seasonal_anomaly (dates : list Z) (values : list float64)
    : exc (list RawEvent) :=
  if (length values <? 10)%nat then Ok [] else
  if negb (length dates =? length values)%nat then Raise ValueError else
  let day_of_year := map Date.tm_yday dates in
  let seasonal_stats : gmap Z (float64 * float64) :=
    (λ g, (np_nanmean g, pd_std g)) <$> group_by day_of_year values in
  let anomalies :=
    zip_with (λ day value,
                match seasonal_stats !! day with
                | Some (mean_val, std_val) =>
                    if (std_val >? Fin 0)%F then ((value - mean_val) / std_val)%F
                    else Fin 0
                | None => Fin 0
                end)
             day_of_year values in
  let threshold := anomaly_threshold_sigma config in
  let significant_anomalies := map (λ a, (a >? threshold)%F) anomalies in
  _group_consecutive_exceedances dates values significant_anomalies.

(** [max(items, key=lambda x: x[1])] of Python: the first item whose
    key no later item exceeds. *)
Definition py_max_by_key (first : nat * float64) (others : list (nat * float64))
    : nat * float64 :=
  foldl (λ best x, if (x.2 >? best.2)%F then x else best) first others.

(** The feature vector of point [i] in [_detect_by_ml]. *)
Definition feature_vector (dates : list Z) (values : list float64) (i : nat)
    : exc (list float64) :=
  current_val ← index values i;
  let window_start := (i - 2)%nat in
  let window_end := Nat.min (length values) (i + 3) in
  let window_vals := take (window_end - window_start) (drop window_start values) in
  hi ← np_max window_vals;
  lo ← np_min window_vals;
  d ← index dates i;
  Ok [current_val; np_mean window_vals; np_std window_vals; (hi - lo)%F;
      (F.of_Z (Date.tm_yday d) / Fin 365)%F].

Definition _detect_by_ml (dates : list Z) (values : list float64)
    : exc (list RawEvent) :=
  if (length values <? 10)%nat then Ok [] else
  features ← mapM (feature_vector dates values) (range 0 (length values));
  try_except
    (clusters ← sk_cluster features;
     cluster_means ← mapM (λ cluster_id,
         let cluster_mask := map (Nat.eqb cluster_id) clusters in
         if np_any cluster_mask then
           members ← bool_index values cluster_mask;
           Ok (Some (cluster_id, np_mean members))
         else Ok None) [0; 1; 2]%nat;
     match omap id cluster_means with
     | first :: others =>
         let flowering_cluster := (py_max_by_key first others).1 in
         let flowering_points := map (Nat.eqb flowering_cluster) clusters in
         _group_consecutive_exceedances dates values flowering_points
     | [] => Ok []
     end)
    (λ _, _detect_by_change dates values).

Definition _classify_event_type (event : RawEvent) : EventType :=
  let duration := duration_days event in
  if duration <? 10 then
    if (intensity event >? Fin 0.1)%F then brief_flowering else vegetation_pulse
  else if duration <? 25 then typical_flowering
  else extended_flowering.

Definition type_descriptions (t : EventType) : string :=
  match t with
  | brief_flowering => "Evento de floración breve e intenso"
  | typical_flowering => "Evento de floración típico"
  | extended_flowering => "Evento de floración prolongado"
  | vegetation_pulse => "Pulso de crecimiento vegetal"
  end.

Definition _generate_event_description (event : RawEvent) (loc : Location)
    (event_type : EventType) (level : ConfidenceLevel) : exc Description :=
  let base_desc := type_descriptions event_type in
  lat ← getitem (latitude loc);
  lon ← getitem (longitude loc);
  Ok {| base_desc := base_desc; desc_latitude := lat; desc_longitude := lon;
        desc_start := start_date event; desc_end := end_date event;
        desc_confidence := level |}.

Definition _enrich_event (event : RawEvent) (satellite_data : SatelliteData)
    : exc Event :=
  loc ← getitem (location satellite_data);
  let source := product_info satellite_data in
  let type := _classify_event_type event in
  let level :=
    if (confidence event >? Fin 0.8)%F then high
    else if (confidence event >? Fin 0.6)%F then medium
    else low in
  desc ← _generate_event_description event loc type level;
  Ok {| raw := event; event_location := loc; data_source := source;
        event_type := type; confidence_level := level; description := desc |}.

Definition run_algorithm (a : Algorithm) (dates : list Z) (values : list float64)
    : exc (list RawEvent) :=
  match a with
  | Threshold => _detect_by_threshold dates values
  | ChangeDetection => _detect_by_change dates values
  | SeasonalAnomaly => _detect_seasonal_anomaly dates values
  | MachineLearning => _detect_by_ml dates values
  end.

(** [datetime.strptime(d, '%Y-%m-%d')] *)
Definition parse_date (d : string) : exc Z :=
  match strptime d with Some o => Ok o | None => Raise ValueError end.

(** The [try] block of [detect_events]. *)
Definition detect_events_body (satellite_data : SatelliteData)
    (algorithm : string) : exc (list Event) :=
  if negb (_validate_data satellite_data) then Ok [] else
  time_series ← getitem (time_series satellite_data);
  raw_dates ← getitem (dates time_series);
  dates ← mapM parse_date raw_dates;
  values ← getitem (values time_series);
  let quality_flags :=
    default (replicate (length values) "good") (quality_flags time_series) in
  let good_indices :=
    omap (λ p : nat * string, if String.eqb p.2 "good" then Some p.1 else None)
         (enumerate quality_flags) in
  if (length good_indices <? 3)%nat then Ok [] else
  clean_dates ← mapM (index dates) good_indices;
  clean_values ← fancy_index values good_indices;
  let smoothed_values := _smooth_time_series clean_values in
  let algorithm :=
    default ChangeDetection (detection_algorithms algorithm) in
  events ← run_algorithm algorithm clean_dates smoothed_values;
  mapM (λ event, _enrich_event event satellite_data) events.

Definition detect_events (satellite_data : SatelliteData)
    (algorithm : string) : exc (list Event) :=
  try_except (detect_events_body satellite_data algorithm) (λ _, Ok []).

(* ----------------------------------------------------------------- *)
(** ** The forecast *)

Definition _extract_seasonal_pattern (dates : list Z) (values : list float64)
    : gmap Z float64 :=
  let seasonal_data := group_by (map Date.tm_yday dates) values in
  np_mean <$> seasonal_data.

Definition _calculate_flowering_probability (predicted_value : float64)
    (seasonal_pattern : gmap Z float64) (day_of_year : Z) : float64 :=
  let typical_value := default (Fin 0.5) (seasonal_pattern !! day_of_year) in
  if (predicted_value >? typical_value * Fin 1.15)%F
  then F.py_min (Fin 1) ((predicted_value - typical_value) / typical_value)%F
  else Fin 0.

(** [max(dates)]: [ValueError] on an empty list. *)
Definition py_max_date (dates : list Z) : exc Z :=
  match dates with [] => Raise ValueError | d :: ds => Ok (foldl Z.max d ds) end.

(** [np.random.normal(0, scale)], the [k]-th draw. *)
Definition random_normal (k : nat) (scale : float64) : exc float64 :=
  if (scale <? Fin 0)%F then Raise ValueError else Ok (np_random_normal k scale).

(** The body of the loop of [predict_flowering], at its [k]-th turn. *)
Definition predict_one (values : list float64)
    (seasonal_pattern : gmap Z float64) (p : nat * Z) : exc Prediction :=
  let '(k, future_date) := p in
  let day_of_year := Date.tm_yday future_date in
  let predicted_value := default (np_mean values) (seasonal_pattern !! day_of_year) in
  noise ← random_normal k (np_std values * Fin 0.1)%F;
  let predicted_value := (predicted_value + noise)%F in
  Ok {| date := future_date;
        predicted_ndvi := predicted_value;
        prediction_confidence := Fin 0.7;
        flowering_probability :=
          _calculate_flowering_probability predicted_value seasonal_pattern
                                           day_of_year |}.

Definition predict_flowering_body (historical_data : SatelliteData)
    (days_ahead : Z) (species : string) : exc (list Prediction) :=
  match time_series historical_data with
  | None => Ok []
  | Some ts =>
      raw_dates ← getitem (dates ts);
      dates ← mapM parse_date raw_dates;
      values ← getitem (values ts);
      let seasonal_pattern := _extract_seasonal_pattern dates values in
      last_date ← py_max_date dates;
      future_dates ← mapM (λ i, Date.add_days last_date (Z.of_nat i))
                          (range 1 (Z.to_nat (days_ahead + 1)));
      mapM (predict_one values seasonal_pattern) (enumerate future_dates)
  end.

Definition predict_flowering (historical_data : SatelliteData)
    (days_ahead : Z) (species : string) : exc (list Prediction) :=
  try_except (predict_flowering_body historical_data days_ahead species)
             (λ _, Ok []).

End Detector.
End FloweringDetector.

(* ===================================================================== *)
(** * data_processor.py: class DataProcessor *)
(* ===================================================================== *)

Module DataProcessor.

(** The cleaning pipeline assigns to the keys of the dicts it is given,
    so the dicts live in a store and are passed by address.  The record
    of the caller is a top-level dict, whose [time_series] key holds the
    address of the nested [time_series] dict. *)
Record QualityMetrics := {
  total_observations : nat;
  good_quality_count : nat;
  interpolated_count : nat;
  outlier_corrected_count : nat;
  data_completeness : float64;
  temporal_consistency : float64;
  signal_to_noise_ratio : float64;
}.

Record Data := {
  time_series : option nat;
  location : option Location;
  quality_metrics : option QualityMetrics;
}.

Record Store := {
  records : gmap nat Data;
  all_series : gmap nat TimeSeries;
}.

(** Code that reads and writes the store and may raise.  The store
    survives an exception: what was assigned stays assigned. *)
Definition M (A : Type) : Type := Store → exc A * Store.

#[global] Instance M_ret : MRet M := λ A a σ, (Ok a, σ).
#[global] Instance M_bind : MBind M := λ A B f m σ,
  match m σ with
  | (Ok a, σ') => f a σ'
  | (Raise e, σ') => (Raise e, σ')
  end.

#[global] Instance M_fmap : FMap M := λ A B f m σ,
  match m σ with
  | (Ok a, σ') => (Ok (f a), σ')
  | (Raise e, σ') => (Raise e, σ')
  end.

Definition lift {A} (r : exc A) : M A := λ σ, (r, σ).
Definition raise {A} (e : exn) : M A := λ σ, (Raise e, σ).

Definition try_except_M {A} (body : M A) (handler : exn → M A) : M A := λ σ,
  match body σ with
  | (Ok a, σ') => (Ok a, σ')
  | (Raise e, σ') => handler e σ'
  end.

(** Reading the dict at an address. *)
Definition read_record (data : nat) : M Data := λ σ,
  (match records σ !! data with Some d => Ok d | None => Raise TypeError end, σ).
Definition read_series (ts : nat) : M TimeSeries := λ σ,
  (match all_series σ !! ts with Some t => Ok t | None => Raise TypeError end, σ).

(** Assigning to the keys of the dict at an address. *)
Definition update_record (data : nat) (f : Data → Data) : M () := λ σ,
  (Ok (), {| records := alter f data (records σ);
             all_series := all_series σ |}).
Definition update_series (ts : nat) (f : TimeSeries → TimeSeries) : M () := λ σ,
  (Ok (), {| records := records σ;
             all_series := alter f ts (all_series σ) |}).

(** [raw_data.copy()]: a new top-level dict with the same values under
    the same keys; a nested dict is shared, not copied. *)
Definition new_record (d : Data) : M nat := λ σ,
  let fresh_addr := fresh (dom (records σ)) in
  (Ok fresh_addr, {| records := <[fresh_addr := d]> (records σ);
                     all_series := all_series σ |}).
Definition dict_copy (data : nat) : M nat :=
  d ← read_record data;
  new_record d.

Definition set_values (v : list float64) (t : TimeSeries) : TimeSeries :=
  {| dates := dates t; values := Some v; quality_flags := quality_flags t;
     units := units t; values_smoothed := values_smoothed t;
     smoothing_applied := smoothing_applied t;
     evi_approximated := evi_approximated t;
     savi_approximated := savi_approximated t;
     greenness_index := greenness_index t |}.
Definition set_quality_flags (fl : list string) (t : TimeSeries) : TimeSeries :=
  {| dates := dates t; values := values t; quality_flags := Some fl;
     units := units t; values_smoothed := values_smoothed t;
     smoothing_applied := smoothing_applied t;
     evi_approximated := evi_approximated t;
     savi_approximated := savi_approximated t;
     greenness_index := greenness_index t |}.
Definition set_smoothed (v : list float64) (w : nat) (t : TimeSeries) : TimeSeries :=
  {| dates := dates t; values := values t; quality_flags := quality_flags t;
     units := units t; values_smoothed := Some v;
     smoothing_applied := Some w;
     evi_approximated := evi_approximated t;
     savi_approximated := savi_approximated t;
     greenness_index := greenness_index t |}.
Definition set_evi (v : list float64) (t : TimeSeries) : TimeSeries :=
  {| dates := dates t; values := values t; quality_flags := quality_flags t;
     units := units t; values_smoothed := values_smoothed t;
     smoothing_applied := smoothing_applied t;
     evi_approximated := Some v;
     savi_approximated := savi_approximated t;
     greenness_index := greenness_index t |}.
Definition set_savi (v : list float64) (t : TimeSeries) : TimeSeries :=
  {| dates := dates t; values := values t; quality_flags := quality_flags t;
     units := units t; values_smoothed := values_smoothed t;
     smoothing_applied := smoothing_applied t;
     evi_approximated := evi_approximated t;
     savi_approximated := Some v;
     greenness_index := greenness_index t |}.
Definition set_greenness (v : list float64) (t : TimeSeries) : TimeSeries :=
  {| dates := dates t; values := values t; quality_flags := quality_flags t;
     units := units t; values_smoothed := values_smoothed t;
     smoothing_applied := smoothing_applied t;
     evi_approximated := evi_approximated t;
     savi_approximated := savi_approximated t;
     greenness_index := Some v |}.
Definition set_quality_metrics (q : QualityMetrics) (d : Data) : Data :=
  {| time_series := time_series d; location := location d;
     quality_metrics := Some q |}.

(** [a[i] = x] on a list or an array, for [i >= 0] *)
Definition setitem {A} (a : list A) (i : nat) (x : A) : exc (list A) :=
  if (i <? length a)%nat then Ok (<[i := x]> a) else Raise IndexError.

(** [needle in text] on strings *)
Definition str_contains (needle text : string) : bool :=
  match String.index 0 needle text with Some _ => true | None => false end.

Inductive Filter :=
  | cloud_mask | outlier_removal | temporal_smoothing | spatial_aggregation.

(** [self.filters]: the dict from names to methods *)
Definition filters_by_name (name : string) : option Filter :=
  if String.eqb name "cloud_mask" then Some cloud_mask
  else if String.eqb name "outlier_removal" then Some outlier_removal
  else if String.eqb name "temporal_smoothing" then Some temporal_smoothing
  else if String.eqb name "spatial_aggregation" then Some spatial_aggregation
  else None.

Record PhenologyMetrics := {
  start_of_season : option Z;
  peak_of_season : Z;
  pheno_peak_value : float64;
  end_of_season : option Z;
  season_length_days : option Z;
  integrated_ndvi : float64;
  seasonal_amplitude : float64;
}.

(** A [pd.DataFrame] as its columns, in order. *)
Inductive Column :=
  | StrColumn (c : list string)
  | FloatColumn (c : list float64)
  | DateColumn (c : list Z)
  | MissingColumn (n : nat).      (* [n] missing values *)

Definition column_length (c : Column) : nat :=
  match c with
  | StrColumn c => length c
  | FloatColumn c => length c
  | DateColumn c => length c
  | MissingColumn n => n
  end.

Definition DataFrame := list (string * Column).

(** What [export_processed_data] returns: the record itself, the CSV
    text of a frame ([df.to_csv(index=False)], kept as the frame it
    prints, [None] for the empty text), or the frame. *)
Inductive Exported :=
  | ExportedJson (data : nat)
  | ExportedCsv (df : option DataFrame)
  | ExportedDataFrame (df : DataFrame).

Section Processor.
Context `{Libs}.

(** The loop over [valid_indices] in [_interpolate_missing_values]:
    the nearest valid index on each side of [invalid_idx]. *)
Fixpoint find_neighbors (valid_indices : list nat) (invalid_idx : nat)
    (left_neighbor : option nat) : option nat * option nat :=
  match valid_indices with
  | [] => (left_neighbor, None)
  | valid_idx :: rest =>
      if (valid_idx <? invalid_idx)%nat
      then find_neighbors rest invalid_idx (Some valid_idx)
      else if (invalid_idx <? valid_idx)%nat then (left_neighbor, Some valid_idx)
      else find_neighbors rest invalid_idx left_neighbor
  end.

(** The body of the loop over [invalid_indices]. *)
Definition interpolate_at (values : list float64) (mask : list bool)
    (valid_indices : list nat) (result : list float64) (invalid_idx : nat)
    : exc (list float64) :=
  match find_neighbors valid_indices invalid_idx None with
  | (Some left_neighbor, Some right_neighbor) =>
      let weight := (F.of_Z (Z.of_nat invalid_idx - Z.of_nat left_neighbor)
                     / F.of_Z (Z.of_nat right_neighbor - Z.of_nat left_neighbor))%F in
      l ← index values left_neighbor;
      r ← index values right_neighbor;
      setitem result invalid_idx (l * (Fin 1 - weight) + r * weight)%F
  | (Some left_neighbor, None) =>
      l ← index values left_neighbor;
      setitem result invalid_idx l
  | (None, Some right_neighbor) =>
      r ← index values right_neighbor;
      setitem result invalid_idx r
  | (None, None) =>
      good ← bool_index values mask;
      setitem result invalid_idx (np_mean good)
  end.

(** A [for] loop that threads a value and stops at an exception. *)
Fixpoint for_each {A B} (f : B → A → exc B) (l : list A) (acc : B) : exc B :=
  match l with
  | [] => Ok acc
  | a :: l => acc ← f acc a; for_each f l acc
  end.

Definition _interpolate_missing_values (values : list float64)
    (mask : list bool) : exc (list float64) :=
  let result := values in
  let valid_indices := np_where mask in
  let invalid_indices := np_where (map negb mask) in
  if (length valid_indices <? 2)%nat then
    good ← bool_index values mask;
    let fill := np_nanmean good in
    for_each (λ result i, setitem result i fill) invalid_indices result
  else
    for_each (interpolate_at values mask valid_indices) invalid_indices result.

(** [~a] for an array built by [np.array] from a list of booleans: the
    array of an empty list is an array of floats, which [~] refuses with
    [TypeError]. *)
Definition np_invert (a : list bool) : exc (list bool) :=
  match a with [] => Raise TypeError | _ => Ok (map negb a) end.

Definition _apply_cloud_mask (data : nat) : M nat :=
  d ← read_record data;
  match time_series d with
  | None => mret data
  | Some ts_addr =>
      ts ← read_series ts_addr;
      values ← lift (getitem (values ts));
      let quality_flags :=
        default (replicate (length values) "good") (quality_flags ts) in
      let good_quality := map (λ flag, String.eqb flag "good") quality_flags in
      not_good ← lift (np_invert good_quality);
      if np_any not_good then
        interpolated_values ←
          lift (_interpolate_missing_values values good_quality);
        update_series ts_addr (set_values interpolated_values);;
        let new_flags :=
          map (λ good : bool, if negb good then "interpolated" else "good")
              good_quality in
        update_series ts_addr (set_quality_flags new_flags);;
        mret data
      else mret data
  end.

(** The loop [quality_flags[i] = 'outlier_corrected'] of
    [_remove_outliers].  The list it assigns to is the one the
    [time_series] dict holds when [shared], so every assignment shows
    in the store at once; otherwise it is a fresh list. *)
Fixpoint mark_outliers (ts_addr : nat) (shared : bool)
    (quality_flags : list string) (outliers : list nat) : M (list string) :=
  match outliers with
  | [] => mret quality_flags
  | i :: rest =>
      quality_flags ← lift (setitem quality_flags i "outlier_corrected");
      (if shared then update_series ts_addr (set_quality_flags quality_flags)
       else mret ());;
      mark_outliers ts_addr shared quality_flags rest
  end.

(** The bounds of [_remove_outliers]: [(lower_bound, upper_bound)] *)
Definition outlier_bounds (values : list float64) : exc (float64 * float64) :=
  q25 ← np_percentile values 25;
  q75 ← np_percentile values 75;
  let iqr := (q75 - q25)%F in
  Ok ((q25 - Fin 1.5 * iqr)%F, (q75 + Fin 1.5 * iqr)%F).

Definition outlier_mask (values : list float64) (bounds : float64 * float64)
    : list bool :=
  map (λ v, (v <? bounds.1)%F || (v >? bounds.2)%F) values.

Definition _remove_outliers (data : nat) : M nat :=
  d ← read_record data;
  match time_series d with
  | None => mret data
  | Some ts_addr =>
      ts ← read_series ts_addr;
      values ← lift (getitem (values ts));
      bounds ← lift (outlier_bounds values);
      let is_outlier := outlier_mask values bounds in
      if np_any is_outlier then
        let clean_mask := map negb is_outlier in
        clean_values ← lift (_interpolate_missing_values values clean_mask);
        update_series ts_addr (set_values clean_values);;
        let shared := bool_decide (is_Some (quality_flags ts)) in
        let quality_flags :=
          default (replicate (length values) "good") (quality_flags ts) in
        quality_flags ← mark_outliers ts_addr shared quality_flags
                                      (np_where is_outlier);
        update_series ts_addr (set_quality_flags quality_flags);;
        mret data
      else mret data
  end.

Definition _apply_temporal_smoothing (data : nat) : M nat :=
  d ← read_record data;
  match time_series d with
  | None => mret data
  | Some ts_addr =>
      ts ← read_series ts_addr;
      values ← lift (getitem (values ts));
      let window_size := Nat.min 5 (length values / 2) in
      if (3 <=? window_size)%nat then
        let smoothed := rolling_mean window_size values in
        update_series ts_addr (set_smoothed smoothed window_size);;
        mret data
      else mret data
  end.

Definition _aggregate_spatially (data : nat) : M nat := mret data.

Definition _approximate_evi_from_ndvi (ndvi : list float64) : list float64 :=
  map (λ n, F.np_clip (Fin 2.5 * n / (Fin 1 + Fin 6 * n - Fin 7.5 * n + Fin 1))%F
                      (Fin (-1)) (Fin 1))
      ndvi.

Definition _calculate_vegetation_indices (data : nat) : M nat :=
  d ← read_record data;
  match time_series d with
  | None => mret data
  | Some ts_addr =>
      ts ← read_series ts_addr;
      values ← lift (getitem (values ts));
      if str_contains "NDVI" (default "" (units ts)) then
        let evi_approx := _approximate_evi_from_ndvi values in
        update_series ts_addr (set_evi evi_approx);;
        let L := Fin 0.5 in
        let savi_approx := map (λ v, v * (Fin 1 + L) / (v + L))%F values in
        update_series ts_addr (set_savi savi_approx);;
        lo ← lift (np_min values);
        hi ← lift (np_max values);
        let greenness_index := map (λ v, (v - lo) / (hi - lo))%F values in
        update_series ts_addr (set_greenness greenness_index);;
        mret data
      else mret data
  end.

Definition _calculate_temporal_consistency (values : list float64) : float64 :=
  if (length values <? 3)%nat then Fin 1 else
  let diffs := np_diff values in
  let spread := np_mean (map F.abs diffs) in
  let consistency :=
    if (spread >? Fin 0)%F then (Fin 1 - np_std diffs / spread)%F else Fin 1 in
  F.py_max (Fin 0) (F.py_min (Fin 1) consistency).

Definition _calculate_snr (values : list float64) : float64 :=
  if (length values <? 3)%nat then Fin 1 else
  let snr :=
    if (5 <=? length values)%nat then
      let signal := rolling_mean 5 values in
      let noise := np_std_series (zip_with F.sub values signal) in
      let signal_power := np_std_series signal in
      if (noise >? Fin 0)%F then (signal_power / noise)%F else PInf
    else
      if (np_std values >? Fin 0)%F then (np_mean values / np_std values)%F
      else Fin 1 in
  F.py_min (Fin 100) (F.py_max (Fin 0.1) snr).

Definition count_flags (p : string → bool) (flags : list string) : nat :=
  length (filter (λ flag, p flag = true) flags).

Definition _add_quality_metrics (data : nat) : M nat :=
  d ← read_record data;
  match time_series d with
  | None => mret data
  | Some ts_addr =>
      ts ← read_series ts_addr;
      values ← lift (getitem (values ts));
      let quality_flags := default [] (quality_flags ts) in
      let good := count_flags (λ flag, String.eqb flag "good") quality_flags in
      let metrics := {|
        total_observations := length values;
        good_quality_count := good;
        interpolated_count := count_flags (str_contains "interpolated") quality_flags;
        outlier_corrected_count := count_flags (str_contains "outlier") quality_flags;
        data_completeness :=
          match quality_flags with
          | [] => Fin 1
          | _ => (F.of_nat good / F.of_nat (length quality_flags))%F
          end;
        temporal_consistency := _calculate_temporal_consistency values;
        signal_to_noise_ratio := _calculate_snr values;
      |} in
      update_record data (set_quality_metrics metrics);;
      mret data
  end.

Definition apply_filter (f : Filter) (data : nat) : M nat :=
  match f with
  | cloud_mask => _apply_cloud_mask data
  | outlier_removal => _remove_outliers data
  | temporal_smoothing => _apply_temporal_smoothing data
  | spatial_aggregation => _aggregate_spatially data
  end.

(** The loop over [filters]: an unknown name is skipped. *)
Fixpoint apply_filters (filters : list string) (processed_data : nat) : M nat :=
  match filters with
  | [] => mret processed_data
  | filter_name :: rest =>
      processed_data ←
        match filters_by_name filter_name with
        | Some f => apply_filter f processed_data
        | None => mret processed_data
        end;
      apply_filters rest processed_data
  end.

Definition default_filters : list string :=
  ["cloud_mask"; "outlier_removal"; "temporal_smoothing"].

(** The [try] block of [process_time_series]. *)
Definition process_time_series_body (raw_data : nat)
    (filters : option (list string)) : M nat :=
  let filters := default default_filters filters in
  processed_data ← dict_copy raw_data;
  processed_data ← apply_filters filters processed_data;
  processed_data ← _calculate_vegetation_indices processed_data;
  processed_data ← _add_quality_metrics processed_data;
  mret processed_data.

Definition process_time_series (raw_data : nat)
    (filters : option (list string)) : M nat :=
  try_except_M (process_time_series_body raw_data filters)
               (λ _, mret raw_data).

(* ----------------------------------------------------------------- *)
(** ** Phenology metrics *)

(** [datetime.strptime(d, '%Y-%m-%d')] *)
Definition parse_date (d : string) : exc Z :=
  match strptime d with Some o => Ok o | None => Raise ValueError end.

Definition _find_season_start (values : list float64) : exc (option nat) :=
  if (length values <? 5)%nat then Ok None else
  min_val ← np_min values;
  max_val ← np_max values;
  let threshold := (min_val + Fin 0.2 * (max_val - min_val))%F in
  found ← for_each (λ (found : option nat) i,
             match found with
             | Some _ => Ok found
             | None =>
                 v ← index values i;
                 w ← index values (i + 1);
                 Ok (if (v <? threshold)%F && (w >=? threshold)%F
                     then Some (i + 1)%nat else None)
             end)
           (range 0 (length values - 2)) None;
  Ok found.

Definition _find_season_end (values : list float64) (peak_idx : nat)
    : exc (option nat) :=
  if (length values <=? peak_idx + 1)%nat then Ok None else
  peak_val ← index values peak_idx;
  let threshold := (peak_val * Fin 0.5)%F in
  found ← for_each (λ (found : option nat) i,
             match found with
             | Some _ => Ok found
             | None =>
                 v ← index values i;
                 Ok (if (v <=? threshold)%F then Some i else None)
             end)
           (range (peak_idx + 1) (length values)) None;
  Ok (Some (default (length values - 1)%nat found)).

(** [calculate_phenology_metrics]; [None] is the empty dict. *)
Definition calculate_phenology_metrics (data : nat)
    : M (option PhenologyMetrics) :=
  d ← read_record data;
  match time_series d with
  | None => mret None
  | Some ts_addr =>
      ts ← read_series ts_addr;
      raw_dates ← lift (getitem (dates ts));
      dates ← lift (mapM parse_date raw_dates);
      values ← lift (getitem (values ts));
      sos_idx ← lift (_find_season_start values);
      sos ← lift (match sos_idx with
                  | Some i => Some <$> index dates i
                  | None => Ok None
                  end);
      pos_idx ← lift (np_argmax values);
      pos ← lift (index dates pos_idx);
      peak ← lift (index values pos_idx);
      eos_idx ← lift (_find_season_end values pos_idx);
      eos ← lift (match eos_idx with
                  | Some i => Some <$> index dates i
                  | None => Ok None
                  end);
      let season_length :=
        match sos, eos with
        | Some s, Some e => Some (Date.days_between e s)
        | _, _ => None
        end in
      hi ← lift (np_max values);
      lo ← lift (np_min values);
      mret (Some {| start_of_season := sos;
                    peak_of_season := pos;
                    pheno_peak_value := peak;
                    end_of_season := eos;
                    season_length_days := season_length;
                    integrated_ndvi := np_trapz values;
                    seasonal_amplitude := (hi - lo)%F |})
  end.

(* ----------------------------------------------------------------- *)
(** ** Export *)

(** [pd.DataFrame({name: column, ...})]: [ValueError] unless all the
    columns have the same length. *)
Definition make_frame (columns : list (string * Column)) : exc DataFrame :=
  match columns with
  | [] => Ok []
  | (_, c) :: rest =>
      if forallb (λ p : string * Column,
                    (column_length p.2 =? column_length c)%nat) rest
      then Ok columns else Raise ValueError
  end.

(** [df[key] = column] for a key the frame does not have yet.  A frame
    without rows takes the index of a column that has some, and its own
    columns are filled with missing values; otherwise a column of another
    length is a [ValueError]. *)
Definition add_column (df : DataFrame) (key : string) (c : Column)
    : exc DataFrame :=
  match df with
  | [] => Ok [(key, c)]
  | (_, c0) :: _ =>
      if (column_length c =? column_length c0)%nat
      then Ok (df ++ [(key, c)])
      else if (column_length c0 =? 0)%nat
      then Ok (map (λ p : string * Column,
                      (p.1, MissingColumn (column_length c))) df
               ++ [(key, c)])
      else Raise ValueError
  end.

(** The loop over the additional keys, shared by both conversions. *)
Definition add_optional_columns (ts : TimeSeries) (df : DataFrame)
    : exc DataFrame :=
  for_each (λ df (p : string * option (list float64)),
              match p.2 with
              | Some c => add_column df p.1 (FloatColumn c)
              | None => Ok df
              end)
           [("values_smoothed", values_smoothed ts);
            ("evi_approximated", evi_approximated ts);
            ("savi_approximated", savi_approximated ts)]
           df.

Definition _convert_to_csv (data : nat) : M (option DataFrame) :=
  d ← read_record data;
  match time_series d with
  | None => mret None
  | Some ts_addr =>
      ts ← read_series ts_addr;
      raw_dates ← lift (getitem (dates ts));
      values ← lift (getitem (values ts));
      let flags := default (replicate (length values) "good") (quality_flags ts) in
      df ← lift (make_frame [("date", StrColumn raw_dates);
                             ("value", FloatColumn values);
                             ("quality_flag", StrColumn flags)]);
      df ← lift (add_optional_columns ts df);
      mret (Some df)
  end.

Definition _convert_to_dataframe (data : nat) : M DataFrame :=
  d ← read_record data;
  match time_series d with
  | None => mret []
  | Some ts_addr =>
      ts ← read_series ts_addr;
      raw_dates ← lift (getitem (dates ts));
      dates ← lift (match pd_to_datetime raw_dates with
                    | Some l => Ok l
                    | None => Raise ValueError
                    end);
      values ← lift (getitem (values ts));
      let flags := default (replicate (length values) "good") (quality_flags ts) in
      df ← lift (make_frame [("date", DateColumn dates);
                             ("value", FloatColumn values);
                             ("quality_flag", StrColumn flags)]);
      lift (add_optional_columns ts df)
  end.

Definition export_processed_data (data : nat) (format_type : string)
    : M Exported :=
  if String.eqb format_type "json" then mret (ExportedJson data)
  else if String.eqb format_type "csv" then
    ExportedCsv <$> _convert_to_csv data
  else if String.eqb format_type "dataframe" then
    ExportedDataFrame <$> _convert_to_dataframe data
  else raise ValueError.

End Processor.
End DataProcessor.

(* ===================================================================== *)
(** * An implementation of the library interface, to run the code *)
(* ===================================================================== *)

Module Impl.

Definition digit (c : ascii) : option Z :=
  let n := Z.of_nat (nat_of_ascii c) in
  if (48 <=? n) && (n <=? 57) then Some (n - 48) else None.

Definition days_in_month (year month : Z) : Z :=
  if month =? 2 then (if Date.is_leap year then 29 else 28)
  else if bool_decide (month ∈ [4; 6; 9; 11]) then 30 else 31.

(** [strptime] on the texts of the exact shape [YYYY-MM-DD]. *)
Definition strptime_iso (s : string) : option Z :=
  match String.length s, omap digit (list_ascii_of_string s),
        String.get 4 s, String.get 7 s with
  | 10%nat, [y1; y2; y3; y4; m1; m2; d1; d2], Some "-"%char, Some "-"%char =>
      let year := y1 * 1000 + y2 * 100 + y3 * 10 + y4 in
      let month := m1 * 10 + m2 in
      let day := d1 * 10 + d2 in
      let ordinal := Date.ymd2ord year month day in
      if (1 <=? year) && (1 <=? month) && (month <=? 12)
         && (1 <=? day) && (day <=? days_in_month year month)
         && (Date.MINORDINAL <=? ordinal) && (ordinal <=? Date.MAXORDINAL)
      then Some ordinal else None
  | _, _, _, _ => None
  end.

Lemma strptime_iso_range s d : strptime_iso s = Some d → 1 ≤ d ≤ 3652059.
Proof.
  unfold strptime_iso. intros Hs.
  repeat case_match; simplify_eq.
  unfold Date.MINORDINAL, Date.MAXORDINAL in *.
  repeat match goal with
         | H : _ && _ = true |- _ => apply andb_prop in H as [? ?]
         end.
  lia.
Qed.

(** The square root to six decimals, rounded down. *)
Definition sqrt_6 (q : Q) : Q :=
  Qred (Z.sqrt (Qnum q * 10 ^ 12 / Z.pos (Qden q)) # 10 ^ 6).

Lemma sqrt_6_nonneg q : (0 <= sqrt_6 q)%Q.
Proof.
  unfold sqrt_6. rewrite Qred_correct. unfold Qle. simpl.
  rewrite Z.mul_1_r. apply Z.sqrt_nonneg.
Qed.

(** Three clusters of consecutive rows: row [i] of [n] gets the label
    [3 * i / n]. *)
Definition thirds (X : list (list float64)) : exc (list nat) :=
  Ok (imap (λ i _, (3 * i / length X)%nat) X).

#[export] Instance libs : Libs := {|
  strptime := strptime_iso;
  strptime_range := strptime_iso_range;
  pd_to_datetime := mapM strptime_iso;
  np_sqrt := sqrt_6;
  np_sqrt_nonneg := sqrt_6_nonneg;
  np_percentile_empty := Raise IndexError;
  np_random_normal := λ _ _, Fin 0;
  sk_cluster := thirds;
|}.

(** The same, but every random draw lands one standard deviation above
    the mean: [np.random.normal(0, s)] returns [s]. *)
Definition libs_one_sigma : Libs := {|
  strptime := strptime_iso;
  strptime_range := strptime_iso_range;
  pd_to_datetime := mapM strptime_iso;
  np_sqrt := sqrt_6;
  np_sqrt_nonneg := sqrt_6_nonneg;
  np_percentile_empty := Raise IndexError;
  np_random_normal := λ _ scale, scale;
  sk_cluster := thirds;
|}.

(** The same as [libs], but the clustering answers [labels]. *)
Definition libs_clustering (labels : list nat) : Libs := {|
  strptime := strptime_iso;
  strptime_range := strptime_iso_range;
  pd_to_datetime := mapM strptime_iso;
  np_sqrt := sqrt_6;
  np_sqrt_nonneg := sqrt_6_nonneg;
  np_percentile_empty := Raise IndexError;
  np_random_normal := λ _ _, Fin 0;
  sk_cluster := λ _, Ok labels;
|}.

(** Every labelling of [n] points that cuts them into three runs of at
    least two consecutive points, under every naming of the three
    clusters. *)
Definition runs_of_three (n : nat) : list (list nat) :=
  a ← seq 2 n;
  b ← seq 2 n;
  if (a + b + 2 <=? n)%nat then
    '(x, y, z) ← [(0, 1, 2); (0, 2, 1); (1, 0, 2); (1, 2, 0); (2, 0, 1); (2, 1, 0)]%nat;
    [(replicate a x ++ replicate b y ++ replicate (n - a - b) z)%list]
  else [].

End Impl.

(* ===================================================================== *)
(** * Inputs used to run the code *)
(* ===================================================================== *)

Module Samples.
Import FloweringDetector.

Definition somewhere : Location :=
  {| latitude := Some (Fin 19.43); longitude := Some (Fin (-99.13)) |}.

Definition record (d : list string) (v : list float64)
    (fl : option (list string)) : SatelliteData :=
  {| time_series := Some (series d v fl);
     location := Some somewhere;
     product_info := None |}.

(** Eight observations five days apart, with a bump. *)
Definition bump_dates : list string :=
  ["2024-03-01"; "2024-03-06"; "2024-03-11"; "2024-03-16";
   "2024-03-21"; "2024-03-26"; "2024-03-31"; "2024-04-05"].
Definition bump_values : list float64 :=
  [Fin 0.2; Fin 0.2; Fin 0.2; Fin 0.2; Fin 0.8; Fin 0.9; Fin 0.8; Fin 0.2].
Definition bump : SatelliteData := record bump_dates bump_values None.

(** The same, two of them only of good quality. *)
Definition cloudy_bump : SatelliteData :=
  record bump_dates bump_values
    (Some ["cloudy"; "good"; "cloudy"; "cloudy"; "good"; "cloudy"; "cloudy"; "cloudy"]).

(** Ten observations five days apart, all of the same value. *)
Definition flat_dates : list string :=
  ["2024-01-01"; "2024-01-06"; "2024-01-11"; "2024-01-16"; "2024-01-21";
   "2024-01-26"; "2024-01-31"; "2024-02-05"; "2024-02-10"; "2024-02-15"].
Definition flat : SatelliteData :=
  record flat_dates (replicate 10 (Fin 0.5)) (Some (replicate 10 "good")).
End Samples.

Module StoreSamples.
Import DataProcessor.

Definition five_dates : list string :=
  ["2024-03-01"; "2024-03-17"; "2024-04-02"; "2024-04-18"; "2024-05-04"].

(** The store of a caller that holds one record, at address 0, whose
    series is at address 7. *)
Definition store_of (ts : TimeSeries) : Store :=
  {| records := {[ 0%nat := {| time_series := Some 7%nat;
                               location := Some Samples.somewhere;
                               quality_metrics := None |} ]};
     all_series := {[ 7%nat := ts ]} |}.

Definition all_flags_good : option (list string) := Some (replicate 5 "good").

(** Five good observations without an outlier. *)
Definition steady : TimeSeries :=
  series five_dates [Fin 0.30; Fin 0.35; Fin 0.40; Fin 0.55; Fin 0.45]
         all_flags_good.

(** Five good observations, the third a hundred times its neighbours. *)
Definition spike : TimeSeries :=
  series five_dates [Fin 0.3; Fin 0.3; Fin 30; Fin 0.3; Fin 0.3] all_flags_good.

(** Five observations, the second one under a cloud. *)
Definition cloudy : TimeSeries :=
  series five_dates [Fin 1; Fin 9; Fin 3; Fin 4; Fin 5]
         (Some ["good"; "cloudy"; "good"; "good"; "good"]).

(** A record without observations. *)
Definition empty : TimeSeries := series [] [] None.
End StoreSamples.

Module ForecastSamples.
(** Two observations over water, where the index is negative. *)
Definition water : FloweringDetector.SatelliteData :=
  Samples.record ["2023-01-02"; "2024-01-01"] [Fin (-0.3); Fin (-0.1)] None.

(** One observation on the last day a [datetime] can hold. *)
Definition last_day : FloweringDetector.SatelliteData :=
  Samples.record ["9999-12-31"] [Fin 0.5] None.

Definition new_year : FloweringDetector.SatelliteData :=
  Samples.record ["2024-01-01"] [Fin 0.5] None.
End ForecastSamples.

(* ===================================================================== *)
(** * Reasoning about code that may raise *)
(* ===================================================================== *)

Lemma bind_Ok {A B} (f : A → exc B) (m : exc A) b :
  m ≫= f = Ok b ↔ ∃ a, m = Ok a ∧ f a = Ok b.
Proof.
  destruct m as [a|e]; simpl; split.
  - eauto.
  - by intros (a' & [= ->] & ?).
  - done.
  - by intros (? & ? & ?).
Qed.

Lemma fmap_Ok {A B} (f : A → B) (m : exc A) b :
  f <$> m = Ok b ↔ ∃ a, m = Ok a ∧ b = f a.
Proof.
  destruct m as [a|e]; simpl; split.
  - intros [= <-]. eauto.
  - by intros (a' & [= ->] & ->).
  - done.
  - by intros (? & ? & ?).
Qed.

Lemma mapM_Ok {A B} (f : A → exc B) l k :
  mapM f l = Ok k ↔ Forall2 (λ a b, f a = Ok b) l k.
Proof.
  revert k. induction l as [|a l IH]; intros k.
  - split; [intros [= <-]; constructor | by inversion 1].
  - change (mapM f (a :: l)) with (f a ≫= λ b, mapM f l ≫= λ k, mret (b :: k)).
    rewrite bind_Ok. split.
    + intros (b & Hb & Hk). apply bind_Ok in Hk as (k' & Hk' & [= <-]).
      constructor; [done | by apply IH].
    + inversion 1 as [|? b ? k' Hb Hk']; subst. exists b. split; [done|].
      apply bind_Ok. exists k'. split; [by apply IH | done].
Qed.

Lemma mapM_Ok_length {A B} (f : A → exc B) l k :
  mapM f l = Ok k → length k = length l.
Proof. rewrite mapM_Ok. intros Hk. symmetry. by eapply Forall2_length. Qed.

Lemma index_Ok {A} (l : list A) i a : index l i = Ok a ↔ l !! i = Some a.
Proof. unfold index. destruct (l !! i); split; congruence. Qed.

Lemma try_except_total {A} (body : exc A) (dflt : A) :
  ∃ a, try_except body (λ _, Ok dflt) = Ok a.
Proof. destruct body; simpl; eauto. Qed.

(** Peel the binds off a hypothesis [m ≫= f = Ok b]. *)
Ltac exc_inv H :=
  repeat match type of H with
    | mbind _ _ = Ok _ =>
        let a := fresh "a" in
        let Ha := fresh "Ha" in
        apply bind_Ok in H as (a & Ha & H)
    | (if ?c then _ else _) = Ok _ =>
        let Hc := fresh "Hc" in destruct c eqn:Hc
    | Ok _ = Ok _ => injection H as H
    | Raise _ = Ok _ => discriminate H
    end.

(* ===================================================================== *)
(** * Facts about floats *)
(* ===================================================================== *)

(** A float that is a real number of the unit interval. *)
Definition in_unit_interval (x : float64) : Prop :=
  ∃ q, x = Fin q ∧ (0 <= q <= 1)%Q.

Lemma Qltb_lt a b : F.Qltb a b = true ↔ (a < b)%Q.
Proof.
  unfold F.Qltb. rewrite negb_true_iff, <- not_true_iff_false, Qle_bool_iff.
  split; [apply Qnot_le_lt | apply Qlt_not_le].
Qed.

Lemma Qltb_ge a b : F.Qltb a b = false ↔ (b <= a)%Q.
Proof. unfold F.Qltb. by rewrite negb_false_iff, Qle_bool_iff. Qed.

(** [max(0.0, min(1.0, x))] is in the unit interval whatever [x] is,
    [nan] and the infinities included. *)
Lemma py_clip_unit x : in_unit_interval (F.py_max (Fin 0) (F.py_min (Fin 1) x)).
Proof.
  unfold F.py_max, F.py_min, F.gtb, in_unit_interval.
  destruct x as [q| | |]; simpl.
  - destruct (F.Qltb q 1) eqn:H1; simpl.
    + destruct (F.Qltb 0 q) eqn:H0.
      * apply Qltb_lt in H1, H0. exists q. split; [done|]. split; lra.
      * exists 0%Q. split; [done|]. split; lra.
    + exists 1%Q. split; [done|]. split; lra.
  - exists 1%Q. split; [done|]. split; lra.
  - exists 0%Q. split; [done|]. split; lra.
  - exists 1%Q. split; [done|]. split; lra.
Qed.

Section ConfidenceFacts.
Context `{Libs}.
Import FloweringDetector.

Lemma _calculate_confidence_unit event_indices values c :
  _calculate_confidence event_indices values = Ok c → in_unit_interval c.
Proof.
  unfold _calculate_confidence. destruct event_indices as [|i idx].
  - intros [= <-]. exists 0%Q. split; [done|]. split; lra.
  - intros Hc. exc_inv Hc. subst c. apply py_clip_unit.
Qed.
End ConfidenceFacts.

(* ===================================================================== *)
(** * Sorted lists of indices and of dates *)
(* ===================================================================== *)

Lemma StronglySorted_lookup_lt (l : list nat) i j a b :
  StronglySorted lt l → l !! i = Some a → l !! j = Some b →
  (i ≤ j)%nat → (a ≤ b)%nat.
Proof.
  intros Hl. revert i j. induction Hl as [|x l Hl IH Hx]; intros i j Hi Hj Hij.
  - done.
  - destruct i as [|i], j as [|j]; simplify_eq/=; try lia.
    + rewrite Forall_lookup in Hx. specialize (Hx _ _ Hj). lia.
    + eapply IH; eauto with lia.
Qed.

Lemma StronglySorted_lookup_Zlt (l : list Z) i j a b :
  StronglySorted Z.lt l → l !! i = Some a → l !! j = Some b →
  (i < j)%nat → a < b.
Proof.
  intros Hl. revert i j. induction Hl as [|x l Hl IH Hx]; intros i j Hi Hj Hij.
  - done.
  - destruct i as [|i], j as [|j]; simplify_eq/=; try lia.
    + rewrite Forall_lookup in Hx. by apply (Hx _ _ Hj).
    + eapply IH; eauto with lia.
Qed.

Lemma StronglySorted_lookup_Zle (l : list Z) i j a b :
  StronglySorted Z.lt l → l !! i = Some a → l !! j = Some b →
  (i ≤ j)%nat → a ≤ b.
Proof.
  intros Hl Hi Hj Hij. destruct (decide (i = j)) as [->|]; [by simplify_eq|].
  apply Z.lt_le_incl. eapply (StronglySorted_lookup_Zlt l i j); eauto with lia.
Qed.

Lemma StronglySorted_seq j n : StronglySorted lt (seq j n).
Proof.
  revert j. induction n as [|n IH]; intros j; simpl; constructor; [apply IH|].
  apply Forall_forall. intros k Hk%elem_of_seq. lia.
Qed.

(** Picking the entries at increasing indices of increasing dates gives
    increasing dates. *)
Lemma StronglySorted_pick (l k : list Z) (idx : list nat) :
  StronglySorted Z.lt l → StronglySorted lt idx →
  mapM (index l) idx = Ok k → StronglySorted Z.lt k.
Proof.
  intros Hl Hidx. revert k. induction Hidx as [|i idx Hidx IH Hi]; intros k Hk.
  - apply mapM_Ok in Hk. inversion Hk. constructor.
  - apply mapM_Ok in Hk. inversion Hk as [|? a ? k' Ha Hk']; subst.
    constructor; [apply IH; by apply mapM_Ok|].
    apply Forall_lookup. intros n b Hb.
    destruct (Forall2_lookup_r _ _ _ _ _ Hk' Hb) as (j & Hj & Hjb).
    apply index_Ok in Ha, Hjb.
    rewrite Forall_lookup in Hi. specialize (Hi _ _ Hj).
    by eapply (StronglySorted_lookup_Zlt l i j).
Qed.

Lemma enumerate_fst {A} (l : list A) : (enumerate l).*1 = seq 0 (length l).
Proof.
  unfold enumerate. rewrite fmap_imap.
  rewrite (imap_ext _ (λ i _, i)) by done.
  by rewrite imap_seq_0, list_fmap_id.
Qed.

(** The indices kept by a selection over [enumerate l] increase. *)
Lemma omap_enumerate_sorted {A} (p : A → bool) (l : list A) :
  StronglySorted lt
    (omap (λ q : nat * A, if p q.2 then Some q.1 else None) (enumerate l)).
Proof.
  assert (Hgen : ∀ (pairs : list (nat * A)),
    StronglySorted lt pairs.*1 →
    StronglySorted lt (omap (λ q : nat * A, if p q.2 then Some q.1 else None) pairs)
    ∧ ∀ i, i ∈ omap (λ q : nat * A, if p q.2 then Some q.1 else None) pairs →
           i ∈ pairs.*1).
  { induction pairs as [|[i a] pairs IH]; intros Hs; simpl.
    - split; [constructor | done].
    - apply StronglySorted_cons in Hs as [Hi Hs]. destruct (IH Hs) as [IH1 IH2].
      simpl. destruct (p a); simpl.
      + split.
        * constructor; [done|]. apply Forall_forall. intros j Hj%IH2.
          rewrite Forall_forall in Hi. by apply Hi.
        * intros j [->|Hj]%elem_of_cons; [left | right; by apply IH2].
      + split; [done|]. intros j Hj. right. by apply IH2. }
  apply Hgen. rewrite enumerate_fst. apply StronglySorted_seq.
Qed.

(* ===================================================================== *)
(** * What every event built by an algorithm satisfies *)
(* ===================================================================== *)

Section EventFacts.
Context `{Libs}.
Import FloweringDetector.

(** An event built over the date array [dates]: its three dates sit at
    indices [s <= p <= t] of the array, its duration is the difference
    of its end and its start, and passed the duration filter, and its
    confidence was clipped. *)
Record built_on (dates : list Z) (e : RawEvent) : Prop := {
  built_indices : ∃ s p t : nat, (s ≤ p ≤ t)%nat
      ∧ dates !! s = Some (start_date e)
      ∧ dates !! p = Some (peak_date e)
      ∧ dates !! t = Some (end_date e);
  built_duration : duration_days e = end_date e - start_date e;
  built_bounds : min_duration_days config ≤ duration_days e
                 ≤ max_duration_days config;
  built_confidence : in_unit_interval (confidence e);
}.

Lemma consecutive_groups_sorted pairs current_group :
  StronglySorted lt (current_group ++ pairs.*1) →
  Forall (StronglySorted lt) (consecutive_groups pairs current_group).
Proof.
  revert current_group.
  induction pairs as [|[i exceeds] pairs IH]; intros cur Hs; simpl.
  - rewrite app_nil_r in Hs. destruct cur; [constructor|].
    constructor; [done | constructor].
  - simpl in Hs. destruct exceeds.
    + apply IH. by rewrite <- app_assoc.
    + assert (StronglySorted lt pairs.*1).
      { apply StronglySorted_app_1_r in Hs. by apply StronglySorted_cons in Hs as [_ ?]. }
      destruct cur as [|c cur]; [by apply IH|].
      constructor; [by apply StronglySorted_app_1_l in Hs | by apply IH].
Qed.

Lemma event_of_group_built dates values group e :
  StronglySorted lt group →
  event_of_group dates values group = Ok (Some e) →
  built_on dates e.
Proof.
  intros Hs He. unfold event_of_group in He.
  destruct (2 <=? length group)%nat eqn:Hlen; [|done].
  exc_inv He; [|done]. exc_inv He. subst e.
  repeat match goal with Hi : index _ _ = Ok _ |- _ => apply index_Ok in Hi end.
  match goal with
  | Hs : group !! 0%nat = Some ?s, Ht : group !! (length group - 1)%nat = Some ?t,
    Hk : np_argmax _ = Ok ?k, Hp : group !! ?k = Some ?p |- _ =>
      rename s into s_idx, t into t_idx, p into p_idx, Hs into Hs_idx,
             Ht into Ht_idx, Hp into Hp_idx
  end.
  apply andb_prop in Hc as [Hmin Hmax]. apply Z.leb_le in Hmin, Hmax.
  assert (s_idx ≤ p_idx)%nat.
  { eapply (StronglySorted_lookup_lt group 0); eauto with lia. }
  assert (p_idx ≤ t_idx)%nat.
  { apply lookup_lt_Some in Hp_idx as ?.
    eapply (StronglySorted_lookup_lt group _ (length group - 1)); eauto with lia. }
  split; simpl.
  - exists s_idx, p_idx, t_idx. eauto.
  - done.
  - done.
  - by eapply _calculate_confidence_unit.
Qed.

Lemma omap_id_Forall {A} (P : A → Prop) (l : list (option A)) :
  Forall (λ o, ∀ a, o = Some a → P a) l → Forall P (omap id l).
Proof.
  induction 1 as [|[a|] l Ha _ IH]; simpl; [constructor| |done].
  constructor; [by apply Ha | done].
Qed.

Lemma _group_consecutive_exceedances_built dates values exceedances events :
  _group_consecutive_exceedances dates values exceedances = Ok events →
  Forall (built_on dates) events.
Proof.
  unfold _group_consecutive_exceedances. intros He. exc_inv He. subst events.
  apply omap_id_Forall. apply mapM_Ok in Ha.
  pose proof (consecutive_groups_sorted (enumerate exceedances) []) as Hs.
  simpl in Hs. rewrite enumerate_fst in Hs. specialize (Hs (StronglySorted_seq _ _)).
  induction Ha as [|g o gs os Hg _ IH]; [constructor|].
  apply Forall_cons in Hs as [Hg1 Hs]. constructor; [|by apply IH].
  intros e ->. by eapply event_of_group_built.
Qed.

Lemma track_peak_from values idxs peak_idx peak_value p v lo :
  track_peak values idxs peak_idx peak_value = Ok (p, v) →
  (lo ≤ peak_idx)%nat → Forall (λ i, lo ≤ i)%nat idxs → (lo ≤ p)%nat.
Proof.
  revert peak_idx peak_value.
  induction idxs as [|i idxs IH]; intros pi pv Ht Hpi Hidx; simpl in Ht.
  - by simplify_eq.
  - apply Forall_cons in Hidx as [Hi Hidx]. exc_inv Ht; eauto.
    by simplify_eq.
Qed.

Lemma track_end_from values idxs peak_value end_idx t lo :
  track_end values idxs peak_value end_idx = Ok t →
  (lo ≤ end_idx)%nat → Forall (λ i, lo ≤ i)%nat idxs → (lo ≤ t)%nat.
Proof.
  revert end_idx.
  induction idxs as [|i idxs IH]; intros ei Ht Hei Hidx; simpl in Ht.
  - by simplify_eq.
  - apply Forall_cons in Hidx as [Hi Hidx]. exc_inv Ht; eauto.
    by simplify_eq.
Qed.

Lemma range_from lo hi : Forall (λ i, lo ≤ i)%nat (range lo hi).
Proof. apply Forall_forall. intros i Hi%elem_of_seq. lia. Qed.

Lemma _track_flowering_event_built dates values start_idx e :
  _track_flowering_event dates values start_idx = Ok (Some e) →
  built_on dates e.
Proof.
  unfold _track_flowering_event. intros He.
  destruct (length values <=? start_idx + 1)%nat; [done|].
  exc_inv He. destruct a0 as [p pv]. exc_inv He; [|done].
  exc_inv He. subst e.
  match goal with Ht : track_end _ _ _ _ = Ok ?t |- _ => rename t into t_idx end.
  repeat match goal with Hi : index _ _ = Ok _ |- _ => apply index_Ok in Hi end.
  apply andb_prop in Hc as [Hmin Hmax]. apply Z.leb_le in Hmin, Hmax.
  assert (start_idx ≤ p)%nat.
  { eapply track_peak_from; [done..|].
    eapply Forall_impl; [apply range_from|]. simpl. lia. }
  assert (p ≤ t_idx)%nat.
  { eapply track_end_from; [done..|].
    eapply Forall_impl; [apply range_from|]. simpl. lia. }
  split; simpl.
  - exists start_idx, p, t_idx. eauto.
  - done.
  - done.
  - by eapply _calculate_confidence_unit.
Qed.

Lemma _detect_by_change_built dates values events :
  _detect_by_change dates values = Ok events → Forall (built_on dates) events.
Proof.
  unfold _detect_by_change. intros He.
  destruct (length values <? 5)%nat; [by simplify_eq|].
  exc_inv He. subst events. apply omap_id_Forall. apply mapM_Ok in Ha.
  induction Ha as [|i o idxs os Hi _ IH]; constructor; [|done].
  intros e ->. by eapply _track_flowering_event_built.
Qed.

Lemma _detect_by_ml_built dates values events :
  _detect_by_ml dates values = Ok events → Forall (built_on dates) events.
Proof.
  unfold _detect_by_ml. intros He.
  destruct (length values <? 10)%nat; [by simplify_eq|].
  exc_inv He. unfold try_except in He.
  match type of He with match ?b with _ => _ end = _ => destruct b eqn:Hb end.
  - simplify_eq. exc_inv Hb. destruct (omap id a1) as [|first others].
    + simplify_eq. constructor.
    + by eapply _group_consecutive_exceedances_built.
  - by eapply _detect_by_change_built.
Qed.

Lemma run_algorithm_built a dates values events :
  run_algorithm a dates values = Ok events → Forall (built_on dates) events.
Proof.
  destruct a; simpl.
  - apply _group_consecutive_exceedances_built.
  - apply _detect_by_change_built.
  - unfold _detect_seasonal_anomaly.
    destruct (length values <? 10)%nat; [intros; simplify_eq; constructor|].
    destruct (negb _); [done|]. apply _group_consecutive_exceedances_built.
  - apply _detect_by_ml_built.
Qed.

(** An event returned by [detect_events] comes from [run_algorithm] on
    the good-quality dates, which are increasing if the dates are. *)
Lemma detect_events_body_built data algorithm events :
  detect_events_body data algorithm = Ok events →
  events = [] ∨
  ∃ ts raw parsed clean_dates,
    time_series data = Some ts ∧ dates ts = Some raw
    ∧ mapM parse_date raw = Ok parsed
    ∧ (StronglySorted Z.lt parsed → StronglySorted Z.lt clean_dates)
    ∧ Forall (λ e : Event, built_on clean_dates e) events.
Proof.
  unfold detect_events_body. intros He.
  destruct (negb _); [left; by simplify_eq|]. exc_inv He.
  { left. by simplify_eq. }
  right.
  match goal with
  | H1 : getitem (time_series data) = Ok ?ts, H2 : getitem (dates ?ts) = Ok ?raw,
    H3 : mapM parse_date ?raw = Ok ?parsed,
    H4 : mapM (index ?parsed) _ = Ok ?clean,
    H5 : run_algorithm _ ?clean _ = Ok ?evs |- _ =>
      exists ts, raw, parsed, clean;
      rename H1 into Hts, H2 into Hraw, H4 into Hclean, H5 into Hrun
  end.
  repeat split.
  - by destruct (time_series data); simplify_eq/=.
  - match goal with |- dates ?a = _ => by destruct (dates a); simplify_eq/= end.
  - done.
  - intros Hs. eapply StronglySorted_pick; [done| |done].
    apply (omap_enumerate_sorted (λ flag, String.eqb flag "good")).
  - apply run_algorithm_built in Hrun. apply mapM_Ok in He.
    clear -Hrun He. induction He as [|r e rs es Hr _ IH]; [constructor|].
    apply Forall_cons in Hrun as [Hr1 Hrun]. constructor; [|by apply IH].
    unfold _enrich_event in Hr. exc_inv Hr. by subst e.
Qed.
End EventFacts.

(* ===================================================================== *)
(** * The detector *)
(* ===================================================================== *)

Section DetectorSpec.
Context `{Libs}.
Import FloweringDetector.

(** The dates of the record, once parsed, increase strictly. *)
Definition dates_strictly_increasing (data : SatelliteData) : Prop :=
  ∀ ts raw parsed,
    time_series data = Some ts → dates ts = Some raw →
    mapM parse_date raw = Ok parsed → StronglySorted Z.lt parsed.

(** The number of observations of good quality: the flags equal to
    ['good'], every observation when the record has no flags. *)
Definition good_observations (ts : TimeSeries) : nat :=
  let observations := default [] (values ts) in
  let flags := default (replicate (length observations) "good") (quality_flags ts) in
  length (filter (λ flag, flag = "good") flags).

(** The record with its [quality_flags] key set to [fl]. *)
Definition with_quality_flags (fl : list string) (data : SatelliteData)
    : SatelliteData :=
  {| time_series := DataProcessor.set_quality_flags fl <$> time_series data;
     location := location data;
     product_info := product_info data |}.

Lemma detect_events_total data algorithm :
  ∃ events, detect_events data algorithm = Ok events.
Proof. apply try_except_total. Qed.

Lemma detect_events_Ok data algorithm events :
  detect_events data algorithm = Ok events →
  events = [] ∨ detect_events_body data algorithm = Ok events.
Proof.
  unfold detect_events, try_except.
  destruct (detect_events_body data algorithm); intros [= <-]; eauto.
Qed.

Lemma good_indices_length (flags : list string) :
  length (omap (λ p : nat * string, if String.eqb p.2 "good" then Some p.1 else None)
               (enumerate flags))
  = length (filter (λ flag, flag = "good") flags).
Proof.
  unfold enumerate.
  assert (Hgen : ∀ f : nat → string → nat * string, (∀ i x, (f i x).2 = x) →
    length (omap (λ p : nat * string,
                    if String.eqb p.2 "good" then Some p.1 else None)
                 (imap f flags))
    = length (filter (λ flag, flag = "good") flags)); [|by apply Hgen].
  induction flags as [|flag flags IH]; intros f Hf; [done|].
  rewrite imap_cons, filter_cons. simpl. rewrite Hf.
  destruct (String.eqb_spec flag "good"); case_decide; try done; simpl;
    rewrite IH; try done; intros i x; apply Hf.
Qed.

(** C1.  Every event [detect_events] returns, under every algorithm
    name, has [start_date <= peak_date <= end_date] and a duration
    between [min_duration_days] (5) and [max_duration_days] (45), when
    the dates of the input increase strictly. *)
Theorem detect_events_event_invariant data algorithm events (e : Event) :
  dates_strictly_increasing data →
  detect_events data algorithm = Ok events →
  e ∈ events →
  (start_date e ≤ peak_date e ≤ end_date e)
  ∧ (5 ≤ duration_days e ≤ 45)
  ∧ min_duration_days config = 5 ∧ max_duration_days config = 45.
Proof.
  intros Hinc Hd He.
  apply detect_events_Ok in Hd as [->|Hd]; [by apply elem_of_nil in He|].
  apply detect_events_body_built in Hd as [->|Hd]; [by apply elem_of_nil in He|].
  destruct Hd as (ts & raw & parsed & clean & Hts & Hraw & Hparsed & Hclean & Hall).
  specialize (Hclean (Hinc _ _ _ Hts Hraw Hparsed)).
  rewrite Forall_forall in Hall. destruct (Hall _ He) as [Hidx Hdur Hbounds _].
  destruct Hidx as (s & p & t & [Hsp Hpt] & Hs & Hp & Ht).
  pose proof (StronglySorted_lookup_Zle _ _ _ _ _ Hclean Hs Hp Hsp).
  pose proof (StronglySorted_lookup_Zle _ _ _ _ _ Hclean Hp Ht Hpt).
  done.
Qed.

(** C2.  When fewer than three observations are of good quality,
    [detect_events] returns the empty list, without raising, whatever
    the algorithm name. *)
Theorem detect_events_insufficient_quality data algorithm :
  (∀ ts, time_series data = Some ts → (good_observations ts < 3)%nat) →
  detect_events data algorithm = Ok [].
Proof.
  intros Hfew. unfold detect_events, try_except.
  destruct (detect_events_body data algorithm) as [events|] eqn:Hbody; [|done].
  f_equal. unfold detect_events_body in Hbody.
  destruct (negb _); [by simplify_eq|]. exc_inv Hbody; [by simplify_eq|].
  exfalso.
  match goal with
  | H1 : getitem (time_series data) = Ok ?ts, H2 : getitem (values ?ts) = Ok ?v |- _ =>
      destruct (time_series data) as [ts'|] eqn:Hts; [|done];
      injection H1 as ->; specialize (Hfew _ eq_refl);
      unfold good_observations in Hfew;
      destruct (values ts) as [v'|]; [|done]; injection H2 as ->
  end.
  simpl in Hfew. rewrite good_indices_length in Hc.
  apply Nat.ltb_ge in Hc. lia.
Qed.

(** C3.  [detect_events] returns, and the confidence of every event it
    returns is a real number between 0 and 1: never [nan], never
    infinite, whatever the input (a series without variance and a run
    of non-positive mean included). *)
Theorem detect_events_confidence_unit data algorithm :
  ∃ events, detect_events data algorithm = Ok events
    ∧ Forall (λ e : Event, in_unit_interval (confidence e)) events.
Proof.
  destruct (detect_events_total data algorithm) as [events Hd].
  exists events. split; [done|].
  apply detect_events_Ok in Hd as [->|Hd]; [constructor|].
  apply detect_events_body_built in Hd as [->|Hd]; [constructor|].
  destruct Hd as (_ & _ & _ & clean & _ & _ & _ & _ & Hall).
  eapply Forall_impl; [exact Hall|]. by intros e [].
Qed.

(** When every flag is ['good'], the good indices are all the indices,
    and selecting them selects everything. *)
Lemma good_indices_all_good n :
  omap (λ p : nat * string, if String.eqb p.2 "good" then Some p.1 else None)
       (enumerate (replicate n "good"))
  = seq 0 n.
Proof.
  unfold enumerate.
  change (@pair nat string) with (λ (i : nat) (x : string), ((0 + i)%nat, x)).
  generalize 0%nat as k.
  induction n as [|n IH]; intros k; [done|].
  cbn [replicate]. rewrite imap_cons. cbn [omap list_omap seq]. simpl.
  rewrite Nat.add_0_r. f_equal. rewrite <- IH.
  f_equal. apply imap_ext. intros i x _. simpl. f_equal. lia.
Qed.

Lemma mapM_index_seq {A} (l : list A) : mapM (index l) (seq 0 (length l)) = Ok l.
Proof.
  apply mapM_Ok. apply Forall2_same_length_lookup_2.
  - by rewrite length_seq.
  - intros i j x Hj Hx. apply lookup_seq in Hj as [-> _]. by apply index_Ok.
Qed.

(** C10.  A record that passes the validation and has no
    [quality_flags] key is not rejected: it is treated as the same
    record with every observation flagged ['good'].  So every one of its
    observations is used: with fewer than three of them the result is
    empty, and otherwise all the dates and all the values, smoothed, go
    to the algorithm, whose events are returned. *)
Theorem detect_events_default_flags data ts v algorithm :
  _validate_data data = true →
  time_series data = Some ts → values ts = Some v →
  quality_flags ts = None →
  _validate_data (with_quality_flags (replicate (length v) "good") data) = true
  ∧ detect_events data algorithm
    = detect_events (with_quality_flags (replicate (length v) "good") data)
                    algorithm
  ∧ ∀ raw parsed,
      dates ts = Some raw → mapM parse_date raw = Ok parsed →
      detect_events_body data algorithm
      = if (length v <? 3)%nat then Ok []
        else events ← run_algorithm
                         (default ChangeDetection (detection_algorithms algorithm))
                         parsed (_smooth_time_series v);
             mapM (λ event, _enrich_event event data) events.
Proof.
  intros Hvalid Hts Hv Hfl.
  split; [|split].
  - destruct data as [series loc info], ts as [d vs fl u sm sa evi savi gr].
    simpl in *. by subst series vs fl.
  - destruct data as [series loc info], ts as [d vs fl u sm sa evi savi gr].
    simpl in *. subst series vs fl.
    unfold detect_events, detect_events_body, with_quality_flags. simpl.
    unfold _validate_data in *. simpl in *. rewrite Hvalid. simpl.
    destruct d as [d|]; [|done]. simpl. reflexivity.
  - intros raw parsed Hraw Hparsed.
    assert (Hlen : length parsed = length v).
    { apply mapM_Ok_length in Hparsed. rewrite Hparsed.
      unfold _validate_data in Hvalid. rewrite Hts, Hraw, Hv in Hvalid.
      destruct (location data); [|done]. by apply Nat.eqb_eq in Hvalid. }
    unfold detect_events_body. rewrite Hvalid, Hts. simpl.
    rewrite Hraw. simpl. rewrite Hparsed. simpl. rewrite Hv, Hfl. simpl.
    rewrite good_indices_all_good, length_seq.
    destruct (length v <? 3)%nat; [done|].
    unfold fancy_index. rewrite <- Hlen at 1.
    rewrite !mapM_index_seq. done.
Qed.

End DetectorSpec.

(* ===================================================================== *)
(** * More facts about floats *)
(* ===================================================================== *)

Lemma leb_gtb_false x y : (x <=? y)%F = true → (x >? y)%F = false.
Proof.
  unfold F.gtb. destruct x as [a| | |], y as [b| | |]; simpl; try done.
  intros Hab%Qle_bool_iff. by apply Qltb_ge.
Qed.

(** [np.std] is never negative: it is a non-negative real, [+inf] or
    [nan]. *)
Definition not_negative (x : float64) : Prop := (x <? Fin 0)%F = false.

Section StdFacts.
Context `{Libs}.

Lemma np_sqrt_f_not_negative x : not_negative (np_sqrt_f x).
Proof.
  unfold not_negative. destruct x as [q| | |]; simpl; try done.
  destruct (F.Qltb q 0); simpl; [done|]. apply Qltb_ge, np_sqrt_nonneg.
Qed.

Lemma np_std_not_negative a : not_negative (np_std a).
Proof. apply np_sqrt_f_not_negative. Qed.

Lemma not_negative_scale x (k : Q) :
  (0 < k)%Q → not_negative x → not_negative (x * Fin k)%F.
Proof.
  unfold not_negative. intros Hk. destruct x as [q| | |]; simpl; try done.
  - rewrite !Qltb_ge, Qred_correct. intros Hq. nra.
  - intros _. destruct k as [[|n|n] d]; try done.
Qed.
End StdFacts.

Lemma enumerate_snd {A} (l : list A) : (enumerate l).*2 = l.
Proof.
  unfold enumerate.
  assert (Hgen : ∀ f : nat → A → nat * A, (∀ i x, (f i x).2 = x) →
            (imap f l).*2 = l); [|by apply Hgen].
  induction l as [|a l IH]; intros f Hf; [done|].
  rewrite imap_cons, fmap_cons, Hf. f_equal. apply IH. intros i x. apply Hf.
Qed.

(* ===================================================================== *)
(** * The forecast *)
(* ===================================================================== *)

Section ForecastSpec.
Context `{Libs}.
Import FloweringDetector.

(** The last observed date. *)
Definition last_observed (data : SatelliteData) : exc Z :=
  ts ← getitem (time_series data);
  raw ← getitem (dates ts);
  parsed ← mapM parse_date raw;
  py_max_date parsed.

Lemma predict_flowering_total data days_ahead species :
  ∃ predictions, predict_flowering data days_ahead species = Ok predictions.
Proof. apply try_except_total. Qed.

Lemma predict_flowering_Ok data days_ahead species predictions :
  predict_flowering data days_ahead species = Ok predictions →
  predictions = [] ∨ predict_flowering_body data days_ahead species = Ok predictions.
Proof.
  unfold predict_flowering, try_except.
  destruct (predict_flowering_body _ _ _); intros [= <-]; eauto.
Qed.

Lemma py_max_date_elem l m : py_max_date l = Ok m → m ∈ l.
Proof.
  destruct l as [|d l]; [done|]. simpl. intros [= <-].
  revert d. induction l as [|x l IH]; intros d; simpl; [by left|].
  specialize (IH (Z.max d x)). apply elem_of_cons in IH as [Heq|Hin].
  - rewrite Heq. destruct (Z.max_spec d x) as [[_ ->]|[_ ->]];
      [right; left | left].
  - by do 2 right.
Qed.

Lemma last_observed_range data last :
  last_observed data = Ok last → Date.MINORDINAL ≤ last ≤ Date.MAXORDINAL.
Proof.
  unfold last_observed. intros Hl. exc_inv Hl.
  apply py_max_date_elem in Hl.
  match goal with Hm : mapM parse_date _ = Ok _ |- _ => apply mapM_Ok in Hm;
    apply list_elem_of_lookup in Hl as [i Hi];
    destruct (Forall2_lookup_r _ _ _ _ _ Hm Hi) as (s & _ & Hs) end.
  unfold parse_date in Hs. destruct (strptime s) eqn:Hstr; [|done].
  injection Hs as ->. by apply strptime_range in Hstr.
Qed.

Lemma random_normal_std_Ok k vals :
  random_normal k (np_std vals * Fin 0.1)%F
  = Ok (np_random_normal k (np_std vals * Fin 0.1)%F).
Proof.
  unfold random_normal.
  by rewrite (not_negative_scale _ 0.1 eq_refl (np_std_not_negative vals)).
Qed.

Lemma future_dates_Ok last n :
  Date.MINORDINAL ≤ last → last + Z.of_nat n ≤ Date.MAXORDINAL →
  mapM (λ i, Date.add_days last (Z.of_nat i)) (seq 1 n)
  = Ok ((λ i, last + Z.of_nat i) <$> seq 1 n).
Proof.
  intros Hlo Hhi. apply mapM_Ok. apply Forall2_fmap_r, Forall_Forall2_diag.
  apply Forall_forall. intros i [? ?]%elem_of_seq.
  unfold Date.add_days, Date.MINORDINAL, Date.MAXORDINAL in *.
  rewrite !andb_true_intro; [done|]. split; [|lia].
  apply andb_true_intro. split; lia.
Qed.

(** C8, amended.  For a record whose dates parse and are not empty,
    and [n >= 1] days that do not lead past 9999-12-31 (the last
    [datetime]), [predict_flowering] returns exactly [n] predictions,
    for the [n] consecutive days that follow the last observed date. *)
Theorem predict_flowering_dates data ts vals last n species :
  time_series data = Some ts → values ts = Some vals →
  last_observed data = Ok last →
  1 ≤ n → last + n ≤ Date.MAXORDINAL →
  ∃ predictions,
    predict_flowering data n species = Ok predictions
    ∧ length predictions = Z.to_nat n
    ∧ date <$> predictions = (λ i, last + Z.of_nat i) <$> seq 1 (Z.to_nat n).
Proof.
  intros Hts Hvals Hlast Hn Hmax.
  pose proof (last_observed_range _ _ Hlast) as [Hlo _].
  unfold last_observed in Hlast. rewrite Hts in Hlast. simpl in Hlast.
  exc_inv Hlast.
  match goal with
  | H1 : getitem (dates ts) = Ok ?raw, H2 : mapM parse_date ?raw = Ok ?parsed |- _ =>
      rename H1 into Hraw, H2 into Hparsed, parsed into parsed_dates
  end.
  set (future := (λ i, last + Z.of_nat i) <$> seq 1 (Z.to_nat n)).
  set (pattern := _extract_seasonal_pattern parsed_dates vals).
  assert (Hone : ∀ p : nat * Z, ∃ q, predict_one vals pattern p = Ok q ∧ date q = p.2).
  { intros [k d]. unfold predict_one. rewrite random_normal_std_Ok. simpl. eauto. }
  assert (Hall : ∀ l : list (nat * Z), ∃ qs,
             mapM (predict_one vals pattern) l = Ok qs ∧ date <$> qs = l.*2).
  { induction l as [|p l [qs [IH1 IH2]]]; [by exists []|].
    destruct (Hone p) as (q & Hq & Hd). exists (q :: qs). split.
    - apply mapM_Ok. constructor; [done | by apply mapM_Ok].
    - by rewrite !fmap_cons, Hd, IH2. }
  destruct (Hall (enumerate future)) as (qs & Hqs & Hds).
  exists qs.
  assert (Hsnd : (enumerate future).*2 = future).
  { apply enumerate_snd. }
  rewrite Hsnd in Hds. split; [|split].
  - unfold predict_flowering, predict_flowering_body.
    rewrite Hts, Hraw. simpl. rewrite Hparsed. simpl. rewrite Hvals. simpl.
    rewrite Hlast. simpl. unfold range.
    replace (Z.to_nat (n + 1) - 1)%nat with (Z.to_nat n) by lia.
    rewrite future_dates_Ok by lia. simpl. fold future pattern.
    by rewrite Hqs.
  - rewrite <- (length_fmap date), Hds. unfold future.
    by rewrite length_fmap, length_seq.
  - done.
Qed.

(** When the days lead past the last [datetime], the addition raises
    [OverflowError] and the handler returns the empty list. *)
Lemma predict_flowering_overflow data last n species :
  last_observed data = Ok last →
  1 ≤ n → Date.MAXORDINAL < last + n →
  predict_flowering data n species = Ok [].
Proof.
  intros Hlast Hn Hmax. unfold predict_flowering, try_except.
  destruct (predict_flowering_body data n species) as [ps|] eqn:Hbody; [|done].
  exfalso. unfold predict_flowering_body in Hbody.
  unfold last_observed in Hlast.
  destruct (time_series data) as [ts|]; [|done]. simpl in Hlast.
  exc_inv Hlast. exc_inv Hbody.
  repeat match goal with
         | H1 : ?x = Ok ?a, H2 : ?x = Ok ?b |- _ =>
             assert (b = a) by congruence; subst b; clear H2
         end.
  match goal with Hf : mapM (λ i, Date.add_days _ _) _ = Ok _ |- _ =>
    apply mapM_Ok in Hf; rename Hf into Hfuture end.
  assert (Hlook : range 1 (Z.to_nat (n + 1)) !! (Z.to_nat n - 1)%nat = Some (Z.to_nat n)).
  { unfold range. apply lookup_seq. lia. }
  destruct (Forall2_lookup_l _ _ _ _ _ Hfuture Hlook) as (d & _ & Hd).
  unfold Date.add_days in Hd. rewrite Z2Nat.id in Hd by lia.
  assert ((last + n <=? Date.MAXORDINAL) = false) as Hf by (apply Z.leb_gt; lia).
  by rewrite Hf, andb_false_r in Hd.
Qed.

End ForecastSpec.

(* ===================================================================== *)
(** * Reasoning about code that writes to the store *)
(* ===================================================================== *)

Section StoreLogic.
Import DataProcessor.

(** [post m σ Q]: run from the store [σ], the code [m] ends with a
    result and a store that satisfy [Q]. *)
Definition post {A} (m : M A) (σ : Store) (Q : exc A → Store → Prop) : Prop :=
  Q (m σ).1 (m σ).2.

Lemma post_bind {A B} (m : M A) (f : A → M B) σ Q :
  post m σ (λ r σ', match r with
                    | Ok a => post (f a) σ' Q
                    | Raise e => Q (Raise e) σ'
                    end) →
  post (m ≫= f) σ Q.
Proof. unfold post, mbind, M_bind. by destruct (m σ) as [[a|e] σ']. Qed.

Lemma post_ret {A} (a : A) σ (Q : exc A → Store → Prop) :
  Q (Ok a) σ → post (mret a) σ Q.
Proof. done. Qed.

Lemma post_lift {A} (r : exc A) σ (Q : exc A → Store → Prop) :
  Q r σ → post (lift r) σ Q.
Proof. done. Qed.

Lemma post_read_record x σ (Q : exc Data → Store → Prop) :
  (∀ d, records σ !! x = Some d → Q (Ok d) σ) →
  (records σ !! x = None → Q (Raise TypeError) σ) →
  post (read_record x) σ Q.
Proof. unfold post, read_record. simpl. destruct (records σ !! x); eauto. Qed.

Lemma post_read_series a σ (Q : exc TimeSeries → Store → Prop) :
  (∀ t, all_series σ !! a = Some t → Q (Ok t) σ) →
  (all_series σ !! a = None → Q (Raise TypeError) σ) →
  post (read_series a) σ Q.
Proof. unfold post, read_series. simpl. destruct (all_series σ !! a); eauto. Qed.

Lemma post_update_series a g σ (Q : exc () → Store → Prop) :
  Q (Ok ()) {| records := records σ; all_series := alter g a (all_series σ) |} →
  post (update_series a g) σ Q.
Proof. done. Qed.

Lemma post_update_record x g σ (Q : exc () → Store → Prop) :
  Q (Ok ()) {| records := alter g x (records σ); all_series := all_series σ |} →
  post (update_record x g) σ Q.
Proof. done. Qed.

Lemma post_try_except {A} (body : M A) handler σ (Q : exc A → Store → Prop) :
  post body σ (λ r σ', match r with
                       | Ok a => Q (Ok a) σ'
                       | Raise e => post (handler e) σ' Q
                       end) →
  post (try_except_M body handler) σ Q.
Proof. unfold post, try_except_M. by destruct (body σ) as [[a|e] σ']. Qed.

Lemma post_mono {A} (m : M A) σ (Q1 Q2 : exc A → Store → Prop) :
  post m σ Q1 → (∀ r σ', Q1 r σ' → Q2 r σ') → post m σ Q2.
Proof. unfold post. eauto. Qed.

Lemma post_run {A} (m : M A) σ (Q : exc A → Store → Prop) :
  post m σ Q → ∃ r σ', m σ = (r, σ') ∧ Q r σ'.
Proof. unfold post. destruct (m σ) as [r σ']. eauto. Qed.
End StoreLogic.

(* ===================================================================== *)
(** * The cleaning pipeline *)
(* ===================================================================== *)

Section CleanerSpec.
Context `{Libs}.
Import DataProcessor.

(** The [time_series] dict reached from the record at [data]. *)
Definition series_of (σ : Store) (data : nat) : option TimeSeries :=
  d ← records σ !! data;
  a ← time_series d;
  all_series σ !! a.

Definition all_good (ts : TimeSeries) : Prop :=
  ∃ fl, quality_flags ts = Some fl ∧ Forall (λ flag, flag = "good") fl.

(** Cleaning with the default filters returns a record whose series has
    the values and the flags it had before. *)
Definition cleaning_keeps_series (σ : Store) (raw_data : nat) : Prop :=
  ∀ ts, series_of σ raw_data = Some ts →
    ∃ out σ' ts',
      process_time_series raw_data None σ = (Ok out, σ')
      ∧ series_of σ' out = Some ts'
      ∧ values ts' = values ts
      ∧ quality_flags ts' = quality_flags ts.

(** Cleaning leaves the series reached from the caller's record as it
    was. *)
Definition cleaning_keeps_input (σ : Store) (raw_data : nat) : Prop :=
  ∀ r σ', process_time_series raw_data None σ = (r, σ') →
          series_of σ' raw_data = series_of σ raw_data.

Section Stable.
Variables (a : nat) (ts : TimeSeries).
Hypothesis Hgood : all_good ts.

(** The series at [a] has the values and flags of [ts], and the
    records at [xs] hold the address [a]. *)
Definition stable (xs : list nat) (σ : Store) : Prop :=
  (∃ t, all_series σ !! a = Some t
        ∧ values t = values ts ∧ quality_flags t = quality_flags ts)
  ∧ Forall (λ x, ∃ d, records σ !! x = Some d ∧ time_series d = Some a) xs.

(** What a stage of the pipeline run on the record [x] ensures. *)
Definition stage_post (xs : list nat) (x : nat) (r : exc nat) (σ : Store) : Prop :=
  (r = Ok x ∨ ∃ e, r = Raise e) ∧ stable xs σ.

Lemma stable_update_series xs σ g :
  (∀ t, values (g t) = values t ∧ quality_flags (g t) = quality_flags t) →
  stable xs σ →
  stable xs {| records := records σ; all_series := alter g a (all_series σ) |}.
Proof.
  intros Hg [(t & Ht & Hv & Hf) Hxs]. split; [|done].
  exists (g t). simpl. rewrite lookup_alter_eq, Ht. simpl.
  destruct (Hg t) as [-> ->]. done.
Qed.

Lemma stable_update_record xs σ x g :
  (∀ d, time_series (g d) = time_series d) →
  stable xs σ →
  stable xs {| records := alter g x (records σ); all_series := all_series σ |}.
Proof.
  intros Hg [Hser Hxs]. split; [done|].
  eapply Forall_impl; [exact Hxs|]. simpl. intros y (d & Hd & Hda).
  destruct (decide (x = y)) as [->|Hne].
  - exists (g d). rewrite lookup_alter_eq, Hd. simpl. by rewrite Hg.
  - exists d. by rewrite lookup_alter_ne.
Qed.

Lemma stable_lookup xs σ x d t :
  stable xs σ → x ∈ xs →
  records σ !! x = Some d →
  time_series d = Some a
  ∧ (all_series σ !! a = Some t →
     values t = values ts ∧ quality_flags t = quality_flags ts).
Proof.
  intros [(t' & Ht' & Hv & Hf) Hxs] Hx Hd.
  rewrite Forall_forall in Hxs. destruct (Hxs _ Hx) as (d' & Hd' & Ha).
  split; [congruence|]. intros Ht. by simplify_eq.
Qed.

Lemma all_good_mask fl :
  Forall (λ flag, flag = "good") fl →
  np_any (map negb (map (λ flag, String.eqb flag "good") fl)) = false.
Proof. induction 1 as [|flag fl -> _ IH]; [done|]. simpl. exact IH. Qed.

(** Every stage starts in the same way: read the record, find its
    series, read the series. *)
Ltac open_stage Hst Hx :=
  apply post_bind, post_read_record;
  [ intros d Hd; destruct (stable_lookup _ _ _ d ts Hst Hx Hd) as [Hda _];
    rewrite Hda; apply post_bind, post_read_series;
    [ intros t Ht; destruct (stable_lookup _ _ _ d t Hst Hx Hd) as [_ Hvf];
      destruct (Hvf Ht) as [Hv Hf]; clear Hvf
    | intros _; split; [eauto | done] ]
  | intros _; split; [eauto | done] ].

Lemma _apply_cloud_mask_stable xs x σ :
  stable xs σ → x ∈ xs → post (_apply_cloud_mask x) σ (stage_post xs x).
Proof.
  intros Hst Hx. unfold _apply_cloud_mask. open_stage Hst Hx.
  apply post_bind, post_lift. destruct (values t) as [v|]; simpl;
    [|split; [eauto | done]].
  destruct Hgood as (fl & Hfl & Hall). rewrite Hf, Hfl. simpl.
  apply post_bind, post_lift.
  destruct fl as [|flag fl]; [split; [eauto | done]|].
  change (np_invert _)
    with (Ok (map negb (map (λ flag, String.eqb flag "good") (flag :: fl)))).
  cbv beta iota. rewrite (all_good_mask _ Hall). apply post_ret. split; [eauto | done].
Qed.

Lemma _apply_temporal_smoothing_stable xs x σ :
  stable xs σ → x ∈ xs → post (_apply_temporal_smoothing x) σ (stage_post xs x).
Proof.
  intros Hst Hx. unfold _apply_temporal_smoothing. open_stage Hst Hx.
  apply post_bind, post_lift. destruct (values t) as [v|] eqn:Htv; simpl;
    [|split; [eauto | done]].
  match goal with |- post (if ?c then _ else _) _ _ => destruct c end;
    [|apply post_ret; split; [eauto | done]].
  apply post_bind, post_update_series, post_ret.
  split; [eauto|]. by apply stable_update_series.
Qed.

(** Sequencing: a write that keeps the values and the flags, and a
    stage. *)
Lemma post_update_series_stable {B} xs σ g (f : () → M B) Q :
  (∀ t, values (g t) = values t ∧ quality_flags (g t) = quality_flags t) →
  stable xs σ →
  (∀ σ', stable xs σ' → post (f ()) σ' Q) →
  post (update_series a g ≫= f) σ Q.
Proof.
  intros Hg Hst Hf. apply post_bind, post_update_series, Hf.
  by apply stable_update_series.
Qed.

Lemma post_stage_bind {B} xs x σ (m : M nat) (f : nat → M B) Q :
  post m σ (stage_post xs x) →
  (∀ σ', stable xs σ' → post (f x) σ' Q) →
  (∀ e σ', stable xs σ' → Q (Raise e) σ') →
  post (m ≫= f) σ Q.
Proof.
  intros Hm Hf Hraise. apply post_bind. unfold post in *.
  destruct (m σ) as [r σ']. simpl in *. destruct Hm as [[->|[e ->]] Hst]; eauto.
Qed.

Lemma _calculate_vegetation_indices_stable xs x σ :
  stable xs σ → x ∈ xs →
  post (_calculate_vegetation_indices x) σ (stage_post xs x).
Proof.
  intros Hst Hx. unfold _calculate_vegetation_indices. open_stage Hst Hx.
  apply post_bind, post_lift. destruct (values t) as [v|] eqn:Htv; simpl;
    [|split; [eauto | done]].
  destruct (str_contains _ _); [|apply post_ret; split; [eauto | done]].
  apply (post_update_series_stable xs); [done..|]. intros σ1 Hst1.
  apply (post_update_series_stable xs); [done..|]. intros σ2 Hst2.
  apply post_bind, post_lift. destruct (np_min v); [|split; [eauto | done]].
  apply post_bind, post_lift. destruct (np_max v); [|split; [eauto | done]].
  apply (post_update_series_stable xs); [done..|]. intros σ3 Hst3.
  apply post_ret. split; [eauto | done].
Qed.

Lemma _add_quality_metrics_stable xs x σ :
  stable xs σ → x ∈ xs → post (_add_quality_metrics x) σ (stage_post xs x).
Proof.
  intros Hst Hx. unfold _add_quality_metrics. open_stage Hst Hx.
  apply post_bind, post_lift. destruct (values t) as [v|] eqn:Htv; simpl;
    [|split; [eauto | done]].
  apply post_bind, post_update_record, post_ret.
  split; [eauto|]. by apply stable_update_record.
Qed.

Lemma filters_by_name_outlier_removal name :
  filters_by_name name = Some outlier_removal → name = "outlier_removal".
Proof.
  unfold filters_by_name.
  destruct (String.eqb_spec name "cloud_mask"); [done|].
  destruct (String.eqb_spec name "outlier_removal"); [done|].
  destruct (String.eqb_spec name "temporal_smoothing"); [done|].
  by destruct (String.eqb_spec name "spatial_aggregation").
Qed.

(** The filters other than the outlier removal. *)
Lemma apply_filters_stable filters xs x σ :
  "outlier_removal" ∉ filters →
  stable xs σ → x ∈ xs →
  post (apply_filters filters x) σ (stage_post xs x).
Proof.
  intros Hno Hst Hx. revert σ Hst.
  induction filters as [|name filters IH]; intros σ Hst.
  { apply post_ret. split; [eauto | done]. }
  apply not_elem_of_cons in Hno as [Hname Hno].
  cbn [apply_filters].
  eapply post_stage_bind.
  - destruct (filters_by_name name) as [[]|] eqn:Hf.
    + by apply _apply_cloud_mask_stable.
    + by apply filters_by_name_outlier_removal in Hf.
    + by apply _apply_temporal_smoothing_stable.
    + apply post_ret. split; [eauto | done].
    + apply post_ret. split; [eauto | done].
  - intros σ' Hst'. by apply IH.
  - intros e σ' Hst'. split; [eauto | done].
Qed.

Lemma process_time_series_body_stable filters xs x σ :
  "outlier_removal" ∉ filters →
  stable xs σ → x ∈ xs →
  post (apply_filters filters x
        ≫= λ p, _calculate_vegetation_indices p
        ≫= λ p, _add_quality_metrics p ≫= λ p, mret p)
       σ (stage_post xs x).
Proof.
  intros Hno Hst Hx.
  assert (Hraise : ∀ e σ', stable xs σ' → stage_post xs x (Raise e) σ').
  { intros e σ' Hst'. split; [eauto | done]. }
  eapply post_stage_bind; [by apply apply_filters_stable| |done].
  intros σ3 Hst3.
  eapply post_stage_bind; [by apply _calculate_vegetation_indices_stable| |done].
  intros σ4 Hst4.
  eapply post_stage_bind; [by apply _add_quality_metrics_stable| |done].
  intros σ5 Hst5. apply post_ret. split; [eauto | done].
Qed.
End Stable.

Lemma series_of_Some σ x t :
  series_of σ x = Some t ↔
  ∃ d a, records σ !! x = Some d ∧ time_series d = Some a
         ∧ all_series σ !! a = Some t.
Proof.
  unfold series_of. split.
  - intros Hs. destruct (records σ !! x) as [d|]; [|done]. simpl in Hs.
    destruct (time_series d) as [a|] eqn:Ha; [|done]. simpl in Hs. by exists d, a.
  - intros (d & a & Hd & Ha & Ht). rewrite Hd. simpl. rewrite Ha. simpl. done.
Qed.

Lemma process_time_series_total raw_data filters σ :
  ∃ out σ', process_time_series raw_data filters σ = (Ok out, σ').
Proof.
  unfold process_time_series, try_except_M.
  destruct (process_time_series_body raw_data filters σ) as [[out|e] σ']; eauto.
Qed.


(** C6, amended.  [detect_events], [predict_flowering] and
    [process_time_series] never raise.  Each returns what its [try]
    block returns; when the block raises, whatever the exception,
    [detect_events] returns the empty list, [predict_flowering] returns
    the empty list, and [process_time_series] returns the record it was
    given, in the store as the block left it.
    [export_processed_data] raises [ValueError] for a format that is not
    json, csv or dataframe. *)
Theorem handled_entry_points :
  (∀ data algorithm,
     ∃ events,
       FloweringDetector.detect_events data algorithm = Ok events
       ∧ (∀ e, FloweringDetector.detect_events_body data algorithm = Raise e →
               events = [])
       ∧ (∀ r, FloweringDetector.detect_events_body data algorithm = Ok r →
               events = r))
  ∧ (∀ data days_ahead species,
       ∃ predictions,
         FloweringDetector.predict_flowering data days_ahead species
         = Ok predictions
         ∧ (∀ e, FloweringDetector.predict_flowering_body data days_ahead species
                 = Raise e → predictions = [])
         ∧ (∀ r, FloweringDetector.predict_flowering_body data days_ahead species
                 = Ok r → predictions = r))
  ∧ (∀ raw_data filters σ,
       ∃ out σ',
         process_time_series raw_data filters σ = (Ok out, σ')
         ∧ (∀ e σ1, process_time_series_body raw_data filters σ = (Raise e, σ1) →
                    out = raw_data ∧ σ' = σ1)
         ∧ (∀ r σ1, process_time_series_body raw_data filters σ = (Ok r, σ1) →
                    out = r ∧ σ' = σ1))
  ∧ (∀ data format_type σ,
       format_type ∈ ["json"; "csv"; "dataframe"]
       ∨ export_processed_data data format_type σ = (Raise ValueError, σ)).
Proof.
  split.
  { intros data algorithm. unfold FloweringDetector.detect_events, try_except.
    destruct (FloweringDetector.detect_events_body data algorithm) as [r|e];
      eexists; (split; [reflexivity|]); split; congruence. }
  split.
  { intros data days_ahead species.
    unfold FloweringDetector.predict_flowering, try_except.
    destruct (FloweringDetector.predict_flowering_body data days_ahead species)
      as [r|e]; eexists; (split; [reflexivity|]); split; congruence. }
  split.
  { intros raw_data filters σ. unfold process_time_series, try_except_M.
    destruct (process_time_series_body raw_data filters σ) as [[r|e] σ1];
      eexists _, _; (split; [reflexivity|]); split; intros ? ? [= ]; by subst. }
  intros data fmt σ. unfold export_processed_data.
  destruct (String.eqb_spec fmt "json") as [->|_]; [left; set_solver|].
  destruct (String.eqb_spec fmt "csv") as [->|_]; [left; set_solver|].
  destruct (String.eqb_spec fmt "dataframe") as [->|_]; [left; set_solver|].
  by right.
Qed.
End CleanerSpec.

(* ===================================================================== *)
(** * Arithmetic on a series of one value *)
(* ===================================================================== *)

(** The rationals that are floats: the [m * 2^e] with [|m| < 2^53] and
    [-1074 <= e <= 971]. *)
Definition is_float64 (q : Q) : Prop :=
  ∃ m e : Z, Z.abs m < 2 ^ 53 ∧ -1074 ≤ e ≤ 971 ∧ (q == inject_Z m * 2 ^ e)%Q.

(** The sums of up to [n] copies of [c] are floats.  Adding copies of
    such a [c] one to another, in any order, and dividing the sum of [k]
    of them by [k], rounds nothing: on a series of [n] such values the
    sums and the means of numpy and pandas are the exact ones, which are
    those of this model. *)
Definition exact_sums (n : nat) (c : Q) : Prop :=
  ∀ k : nat, (k ≤ n)%nat → is_float64 (inject_Z (Z.of_nat k) * c).

(** A float that is the rational [c]. *)
Definition near (c : Q) (x : float64) : Prop := ∃ q, x = Fin q ∧ (q == c)%Q.

Lemma near_sub c x y : near c x → near c y → near 0 (x - y)%F.
Proof.
  intros (a & -> & Ha) (b & -> & Hb). eexists. split; [reflexivity|].
  rewrite !Qred_correct. lra.
Qed.

Lemma near_foldl_add c l s :
  Forall (near c) l →
  ∃ q, foldl F.add (Fin s) l = Fin q
       ∧ (q == s + inject_Z (Z.of_nat (length l)) * c)%Q.
Proof.
  intros Hl. revert s. induction Hl as [|x l (a & -> & Ha) _ IH]; intros s.
  - exists s. split; [done|]. change (inject_Z (Z.of_nat (length []))) with 0%Q. ring.
  - simpl foldl. destruct (IH (Qred (s + a))) as (q & -> & Hq).
    exists q. split; [done|].
    rewrite length_cons, Nat2Z.inj_succ. unfold Z.succ.
    rewrite inject_Z_plus. change (inject_Z 1) with 1%Q.
    pose proof (Qred_correct (s + a)). nra.
Qed.

Section MeanFacts.
Context `{Libs}.

Lemma near_np_mean c l : l ≠ [] → Forall (near c) l → near c (np_mean l).
Proof.
  intros Hne Hl. unfold np_mean, F.sum.
  destruct (near_foldl_add c l 0 Hl) as (q & -> & Hq).
  unfold F.of_nat, F.of_Z. simpl.
  assert (0 < inject_Z (Z.of_nat (length l)))%Q as Hpos.
  { destruct l; [done|]. rewrite <- (Zlt_Qlt 0). simpl. lia. }
  destruct (Qeq_bool _ 0) eqn:Hz.
  { apply Qeq_bool_iff in Hz. lra. }
  eexists. split; [reflexivity|]. rewrite Qred_correct, Hq.
  field. lra.
Qed.

Lemma filter_not_nan c l :
  Forall (near c) l → filter (λ x, F.is_nan x = false) l = l.
Proof.
  induction 1 as [|x l (q & -> & _) _ IH]; [done|].
  rewrite filter_cons_True by done. by rewrite IH.
Qed.

Lemma near_np_nanmean c l : l ≠ [] → Forall (near c) l → near c (np_nanmean l).
Proof.
  intros Hne Hl. unfold np_nanmean. rewrite (filter_not_nan c) by done.
  by apply near_np_mean.
Qed.

Lemma rolling_window_nonempty {w} a i :
  (1 ≤ w)%nat → (i < length a)%nat → rolling_window w a i ≠ [].
Proof.
  intros Hw Hi. unfold rolling_window.
  assert ((w - 1) / 2 ≤ w - 1)%nat by (apply Nat.Div0.div_le_upper_bound; lia).
  intros Hnil%(f_equal length). rewrite length_take, length_drop in Hnil.
  change (length (@nil float64)) with 0%nat in Hnil. lia.
Qed.

Lemma inf_to_nan_near c a : Forall (near c) a → map inf_to_nan a = a.
Proof. induction 1 as [|x l (q & -> & _) _ IH]; [done|]. simpl. by rewrite IH. Qed.

Lemma near_rolling_mean c w a :
  (1 ≤ w)%nat → Forall (near c) a → Forall (near c) (rolling_mean w a).
Proof.
  intros Hw Ha. apply Forall_lookup. intros i x. unfold rolling_mean.
  rewrite (inf_to_nan_near c) by done. cbv zeta.
  rewrite list_lookup_imap. intros Hx.
  destruct (a !! i) as [y|] eqn:Hy; [|done]. injection Hx as <-.
  apply near_np_nanmean.
  - apply rolling_window_nonempty; [done|]. by eapply lookup_lt_Some.
  - unfold rolling_window. by apply Forall_take, Forall_drop.
Qed.

Lemma near_np_diff c a : Forall (near c) a → Forall (near 0) (np_diff a).
Proof.
  intros Ha. apply Forall_lookup. intros i x. unfold np_diff.
  rewrite lookup_zip_with_Some. intros (u & v & -> & Hu & Hv).
  rewrite Forall_lookup in Ha. apply (near_sub c); [|by eapply Ha].
  rewrite lookup_tail in Hu. by eapply Ha.
Qed.

(** A value that is zero exceeds no threshold that is not negative. *)
Lemma near_zero_not_above x threshold :
  near 0 x → not_negative threshold → (x >? threshold)%F = false.
Proof.
  intros (q & -> & Hq). unfold not_negative, F.gtb.
  destruct threshold as [t| | |]; simpl; try done.
  rewrite !Qltb_ge. lra.
Qed.
End MeanFacts.

(* ===================================================================== *)
(** * The detector on a series of one value *)
(* ===================================================================== *)

Section FlatSeries.
Context `{Libs}.
Import FloweringDetector.

Lemma near_smooth c values :
  Forall (near c) values → Forall (near c) (_smooth_time_series values).
Proof.
  intros Hv. unfold _smooth_time_series. case_match; [done|].
  apply near_rolling_mean; [simpl; lia | done].
Qed.

Lemma consecutive_groups_none (pairs : list (nat * bool)) :
  Forall (λ p, p.2 = false) pairs → consecutive_groups pairs [] = [].
Proof. induction 1 as [|[i b] pairs Hb _ IH]; [done|]. simpl in *. by subst b. Qed.

Lemma enumerate_Forall_snd {A} (P : A → Prop) (l : list A) :
  Forall P l → Forall (λ p, P p.2) (enumerate l).
Proof.
  intros Hl. apply Forall_forall. intros p Hp.
  rewrite Forall_forall in Hl. apply Hl.
  rewrite <- (enumerate_snd l). by apply list_elem_of_fmap_2.
Qed.

(** No point exceeds: no event. *)
Lemma _group_consecutive_exceedances_none dates values exceedances :
  Forall (λ b, b = false) exceedances →
  _group_consecutive_exceedances dates values exceedances = Ok [].
Proof.
  intros Hm. unfold _group_consecutive_exceedances.
  rewrite consecutive_groups_none; [done|].
  by apply (enumerate_Forall_snd (λ b, b = false)).
Qed.

Lemma _detect_by_threshold_flat c dates values :
  Forall (near c) values → _detect_by_threshold dates values = Ok [].
Proof.
  intros Hv. unfold _detect_by_threshold.
  apply _group_consecutive_exceedances_none.
  apply Forall_lookup. intros i b. rewrite lookup_zip_with_Some.
  intros (v & base & -> & Hi & Hbase).
  apply near_zero_not_above; [|done]. apply (near_sub c).
  - rewrite Forall_lookup in Hv. by eapply Hv.
  - revert Hbase. case_match.
    + intros [-> _]%lookup_replicate. apply near_np_mean; [|done].
      intros ->. done.
    + intros Hbase.
      assert (Forall (near c) (rolling_mean (Nat.min (length values / 3) 10) values))
        as Hroll.
      { apply near_rolling_mean; [|done].
        match goal with Hw : (_ <? 2)%nat = false |- _ => apply Nat.ltb_ge in Hw end.
        lia. }
      rewrite Forall_lookup in Hroll. by eapply Hroll.
Qed.

Lemma _detect_by_change_flat c dates values :
  Forall (near c) values → _detect_by_change dates values = Ok [].
Proof.
  intros Hv. unfold _detect_by_change. case_match; [done|].
  set (diff_smooth := _smooth_time_series (np_diff values)).
  set (threshold := (np_std diff_smooth * Fin 1.5)%F).
  assert (Hsig : Forall (λ b, b = false) (map (λ d, (d >? threshold)%F) diff_smooth)).
  { apply Forall_fmap. eapply Forall_impl.
    - apply (near_smooth 0), (near_np_diff c), Hv.
    - intros d Hd. simpl. apply near_zero_not_above; [done|].
      apply not_negative_scale; [done|]. apply np_std_not_negative. }
  assert (Hstarts : ∀ pairs : list (nat * bool),
    Forall (λ p, p.2 = false) pairs →
    omap (λ p : nat * bool,
            let '(i, is_increase) := p in
            if is_increase
               && ((i =? 0)%nat
                   || negb (default false
                              (map (λ d, (d >? threshold)%F) diff_smooth
                               !! (i - 1)%nat)))
            then Some i else None) pairs = []).
  { induction 1 as [|[i b] pairs Hb _ IH]; [done|]. simpl in *. by subst b. }
  rewrite Hstarts; [done|].
  by apply (enumerate_Forall_snd (λ b, b = false)).
Qed.

Lemma group_by_groups c keys vals :
  Forall (near c) vals →
  map_Forall (λ _ g, g ≠ [] ∧ Forall (near c) g) (group_by keys vals).
Proof.
  intros Hv. unfold group_by.
  assert (Hgen : ∀ (pairs : list (Z * float64)) (m : gmap Z (list float64)),
    Forall (λ p, near c p.2) pairs →
    map_Forall (λ _ g, g ≠ [] ∧ Forall (near c) g) m →
    map_Forall (λ _ g, g ≠ [] ∧ Forall (near c) g)
      (foldl (λ m p, <[p.1 := default [] (m !! p.1) ++ [p.2]]> m) m pairs)).
  { induction pairs as [|[k v] pairs IH]; intros m Hp Hm; [done|].
    apply Forall_cons in Hp as [Hv1 Hp]. simpl. apply IH; [done|].
    apply map_Forall_insert_2; [|done]. split.
    - intros Hnil%(f_equal length). rewrite length_app in Hnil. simpl in Hnil. lia.
    - apply Forall_app. split; [|by constructor].
      destruct (m !! k) as [g|] eqn:Hg; [|constructor].
      by apply (Hm _ _ Hg). }
  apply Hgen; [|apply map_Forall_empty].
  apply Forall_lookup. intros i [k v] Hi.
  apply lookup_zip_with_Some in Hi as (k' & v' & [= -> ->] & _ & Hv').
  rewrite Forall_lookup in Hv. by eapply Hv.
Qed.

Lemma _detect_seasonal_anomaly_flat c dates values events :
  Forall (near c) values →
  _detect_seasonal_anomaly dates values = Ok events → events = [].
Proof.
  intros Hv. unfold _detect_seasonal_anomaly. case_match; [by intros [= <-]|].
  case_match; [done|].
  rewrite _group_consecutive_exceedances_none; [by intros [= <-]|].
  apply Forall_fmap. apply Forall_lookup. intros i a.
  rewrite lookup_zip_with_Some. intros (day & value & -> & _ & Hvalue).
  cbv beta. apply near_zero_not_above; [|done].
  pose proof Hv as Hall.
  rewrite Forall_lookup in Hv. specialize (Hv _ _ Hvalue).
  rewrite lookup_fmap.
  destruct (group_by _ values !! day) as [g|] eqn:Hg;
    cbn -[F.gtb F.div F.sub np_nanmean pd_std];
    [|exists 0%Q; split; [done | lra]].
  destruct (group_by_groups c _ values Hall _ _ Hg) as [Hne Hnear].
  destruct (pd_std g >? Fin 0)%F eqn:Hstd;
    [|exists 0%Q; split; [done | lra]].
  destruct (near_sub c value (np_nanmean g) Hv (near_np_nanmean c g Hne Hnear))
    as (z & -> & Hz).
  unfold F.gtb in Hstd. destruct (pd_std g) as [s| | |]; simpl in Hstd; try done.
  - apply Qltb_lt in Hstd. simpl.
    destruct (Qeq_bool s 0) eqn:Hs0; [apply Qeq_bool_iff in Hs0; lra|].
    eexists. split; [reflexivity|]. rewrite Qred_correct, Hz.
    field. lra.
  - exists 0%Q. split; [done | lra].
Qed.

Lemma fancy_index_Forall {A} (P : A → Prop) (l k : list A) idx :
  Forall P l → fancy_index l idx = Ok k → Forall P k.
Proof.
  intros Hl Hk%mapM_Ok. apply Forall_lookup. intros i x Hx.
  destruct (Forall2_lookup_r _ _ _ _ _ Hk Hx) as (j & _ & Hj%index_Ok).
  rewrite Forall_lookup in Hl. by eapply Hl.
Qed.

End FlatSeries.

(* ===================================================================== *)
(** * The detector: inputs it turns down, and what its events are made of *)
(* ===================================================================== *)

Section DetectorInputs.
Context `{Libs}.
Import FloweringDetector.

(** The flags [detect_events] works with: those of the record, or
    ['good'] for every value. *)
Definition effective_flags (ts : TimeSeries) : list string :=
  default (replicate (length (default [] (values ts))) "good") (quality_flags ts).

(** [good_indices] of [detect_events]. *)
Definition good_indices (flags : list string) : list nat :=
  omap (λ p : nat * string, if String.eqb p.2 "good" then Some p.1 else None)
       (enumerate flags).

(** The algorithm a name stands for. *)
Definition algorithm_of (name : string) : Algorithm :=
  default ChangeDetection (detection_algorithms name).

(** The number of good observations below which an algorithm finds
    nothing. *)
Definition min_points (a : Algorithm) : nat :=
  match a with
  | Threshold => 3
  | ChangeDetection => 5
  | SeasonalAnomaly | MachineLearning => 10
  end.

(** What a run of [detect_events] that got past its guards went
    through. *)
Inductive detection_run (data : SatelliteData) (name : string)
    (events : list Event) : Prop :=
  | DetectionRun (ts : TimeSeries) (raw : list string) (parsed : list Z)
      (vals : list float64) (clean_dates : list Z)
      (clean_values : list float64) (raw_events : list RawEvent) :
      time_series data = Some ts →
      dates ts = Some raw →
      mapM parse_date raw = Ok parsed →
      values ts = Some vals →
      (3 ≤ length (good_indices (effective_flags ts)))%nat →
      mapM (index parsed) (good_indices (effective_flags ts)) = Ok clean_dates →
      fancy_index vals (good_indices (effective_flags ts)) = Ok clean_values →
      run_algorithm (algorithm_of name) clean_dates
                    (_smooth_time_series clean_values) = Ok raw_events →
      mapM (λ event, _enrich_event event data) raw_events = Ok events →
      detection_run data name events.

Lemma detect_events_run data name events :
  detect_events data name = Ok events →
  events = [] ∨ detection_run data name events.
Proof.
  intros Hd. apply detect_events_Ok in Hd as [->|Hd]; [by left|].
  unfold detect_events_body in Hd.
  destruct (negb _); [left; by simplify_eq|]. exc_inv Hd.
  { left. by simplify_eq. }
  right.
  match goal with
  | H1 : getitem (time_series data) = Ok ?ts, H2 : getitem (dates ?ts) = Ok ?raw,
    H4 : getitem (values ?ts) = Ok ?v |- _ =>
      destruct (time_series data) as [ts'|] eqn:Hts; [|done];
      injection H1 as ->;
      destruct (dates ts) as [raw'|] eqn:Hraw; [|done]; injection H2 as ->;
      destruct (values ts) as [v'|] eqn:Hv; [|done]; injection H4 as ->
  end.
  apply Nat.ltb_ge in Hc.
  econstructor; try eassumption; unfold effective_flags, good_indices;
    rewrite Hv; simpl; eassumption.
Qed.

Lemma _validate_data_true data :
  _validate_data data = true ↔
  ∃ ts loc d v, time_series data = Some ts ∧ location data = Some loc
                ∧ dates ts = Some d ∧ values ts = Some v ∧ length d = length v.
Proof.
  unfold _validate_data. split.
  - intros Hv. destruct (time_series data) as [ts|]; [|done].
    destruct (location data) as [loc|]; [|done].
    destruct (dates ts) as [d|] eqn:Hd; [|done].
    destruct (values ts) as [v|] eqn:Hvs; [|done].
    apply Nat.eqb_eq in Hv. by exists ts, loc, d, v.
  - intros (ts & loc & d & v & -> & -> & -> & -> & Hlen). by apply Nat.eqb_eq.
Qed.

(** X1.  A record without [time_series] or without [location], a series
    without [dates] or without [values], or with as many dates as values
    not, is turned down: [detect_events] returns the empty list. *)
Theorem detect_events_invalid data algorithm :
  (time_series data = None
   ∨ location data = None
   ∨ ∃ ts, time_series data = Some ts
           ∧ (dates ts = None ∨ values ts = None
              ∨ ∃ d v, dates ts = Some d ∧ values ts = Some v
                       ∧ length d ≠ length v)) →
  detect_events data algorithm = Ok [].
Proof.
  intros Hbad.
  assert (_validate_data data = false) as Hv.
  { apply not_true_is_false. rewrite _validate_data_true.
    intros (ts & loc & d & v & Hts & Hloc & Hd & Hvs & Hlen).
    destruct Hbad as [?|[?|(ts' & Hts' & [?|[?|(d' & v' & Hd' & Hv' & Hne)]])]];
      simplify_eq. }
  unfold detect_events, detect_events_body. by rewrite Hv.
Qed.

(** X2.  A name that is not one of the four algorithms runs the change
    detection. *)
Theorem detect_events_unknown_algorithm data algorithm :
  detection_algorithms algorithm = None →
  detect_events data algorithm = detect_events data "change_detection".
Proof.
  intros Hnone. unfold detect_events, detect_events_body. by rewrite Hnone.
Qed.

Lemma mapM_Raise_elem {A B} (f : A → exc B) l a e :
  a ∈ l → f a = Raise e → ∀ k, mapM f l ≠ Ok k.
Proof.
  intros Ha Hf k Hk%mapM_Ok. apply list_elem_of_lookup in Ha as [i Hi].
  destruct (Forall2_lookup_l _ _ _ _ _ Hk Hi) as (b & _ & Hb). congruence.
Qed.

(** X3.  One date that [strptime] does not parse is enough for
    [detect_events] and for [predict_flowering] to return the empty list:
    the [ValueError] goes to their handlers. *)
Theorem unparsed_date_gives_nothing data ts raw s algorithm days_ahead species :
  time_series data = Some ts → dates ts = Some raw →
  s ∈ raw → strptime s = None →
  detect_events data algorithm = Ok []
  ∧ predict_flowering data days_ahead species = Ok [].
Proof.
  intros Hts Hraw Hs Hbad.
  assert (Hparse : ∀ k, mapM parse_date raw ≠ Ok k).
  { apply (mapM_Raise_elem _ _ s ValueError); [done|].
    unfold parse_date. by rewrite Hbad. }
  split.
  - unfold detect_events, try_except.
    destruct (detect_events_body data algorithm) as [events|] eqn:Hbody; [|done].
    f_equal. unfold detect_events_body in Hbody.
    destruct (negb _); [by simplify_eq|]. rewrite Hts in Hbody. simpl in Hbody.
    rewrite Hraw in Hbody. simpl in Hbody.
    destruct (mapM parse_date raw) as [k|] eqn:Hk; [by destruct (Hparse k)|done].
  - unfold predict_flowering, try_except.
    destruct (predict_flowering_body data days_ahead species) as [ps|] eqn:Hbody;
      [|done].
    f_equal. unfold predict_flowering_body in Hbody.
    rewrite Hts, Hraw in Hbody. simpl in Hbody.
    destruct (mapM parse_date raw) as [k|] eqn:Hk; [by destruct (Hparse k)|done].
Qed.

Lemma length_rolling_mean w a : length (rolling_mean w a) = length a.
Proof. unfold rolling_mean. cbv zeta. by rewrite length_imap, length_map. Qed.

Lemma length_smooth values : length (_smooth_time_series values) = length values.
Proof.
  unfold _smooth_time_series. case_match; [done|]. apply length_rolling_mean.
Qed.

Lemma length_good_indices ts :
  length (good_indices (effective_flags ts)) = good_observations ts.
Proof. unfold good_indices, good_observations, effective_flags. apply good_indices_length. Qed.

(** X4.  Each algorithm needs a number of good observations to find
    anything: three for the threshold, five for the change detection,
    ten for the seasonal anomaly and the clustering.  With fewer,
    [detect_events] returns the empty list. *)
Theorem detect_events_too_short data algorithm :
  (∀ ts, time_series data = Some ts →
         (good_observations ts < min_points (algorithm_of algorithm))%nat) →
  detect_events data algorithm = Ok [].
Proof.
  intros Hshort.
  destruct (detect_events_total data algorithm) as [events Hd].
  rewrite Hd. f_equal.
  destruct (detect_events_run _ _ _ Hd) as [->|Hrun]; [done|].
  destruct Hrun as [ts raw parsed v cd cv revs Hts Hraw Hparsed Hv Hen Hcd Hcv Hrun Henr].
  specialize (Hshort _ Hts). rewrite <- length_good_indices in Hshort.
  apply mapM_Ok_length in Hcv.
  assert (Hlen : (length (_smooth_time_series cv)
                   < min_points (algorithm_of algorithm))%nat)
    by (rewrite length_smooth; lia).
  assert (revs = []) as ->.
  { destruct (algorithm_of algorithm); cbn [min_points run_algorithm] in *.
    - rewrite length_smooth in Hlen. lia.
    - unfold _detect_by_change in Hrun.
      apply Nat.ltb_lt in Hlen. rewrite Hlen in Hrun. by simplify_eq.
    - unfold _detect_seasonal_anomaly in Hrun.
      apply Nat.ltb_lt in Hlen. rewrite Hlen in Hrun. by simplify_eq.
    - unfold _detect_by_ml in Hrun.
      apply Nat.ltb_lt in Hlen. rewrite Hlen in Hrun. by simplify_eq. }
  by injection Henr.
Qed.

(** X5.  When the clustering raises, [_detect_by_ml] returns what
    [_detect_by_change] returns on the same points. *)
Theorem _detect_by_ml_fallback dates values :
  (10 ≤ length values)%nat → length dates = length values →
  (∀ X, ∃ e, sk_cluster X = Raise e) →
  _detect_by_ml dates values = _detect_by_change dates values.
Proof.
  intros Hlen Hdates Hraise. unfold _detect_by_ml.
  apply Nat.ltb_ge in Hlen as Hlt. rewrite Hlt.
  assert (Hfeat : ∃ features,
            mapM (feature_vector dates values) (range 0 (length values)) = Ok features).
  { assert (Hall : ∀ idx, Forall (λ i, i < length values)%nat idx →
              ∃ fs, mapM (feature_vector dates values) idx = Ok fs).
    { induction 1 as [|i idx Hi _ [fs IH]]; [by exists []|].
      destruct (lookup_lt_is_Some_2 values i Hi) as [v Hv].
      destruct (lookup_lt_is_Some_2 dates i ltac:(lia)) as [d Hd].
      set (window := take (Nat.min (length values) (i + 3) - (i - 2))
                          (drop (i - 2) values)).
      assert (window ≠ []) as Hw.
      { intros Hnil%(f_equal length). unfold window in Hnil.
        rewrite length_take, length_drop in Hnil.
        change (length (@nil float64)) with 0%nat in Hnil. lia. }
      destruct (np_max window) as [hi|] eqn:Hhi; [|by destruct window].
      destruct (np_min window) as [lo|] eqn:Hlo; [|by destruct window].
      eexists. apply mapM_Ok. constructor; [|by apply mapM_Ok].
      unfold feature_vector, index. rewrite Hv, Hd. simpl.
      fold window. rewrite Hhi, Hlo. simpl. reflexivity. }
    apply Hall. apply Forall_forall. intros i Hi%elem_of_seq. lia. }
  destruct Hfeat as [features ->]. simpl.
  destruct (Hraise features) as [e ->]. reflexivity.
Qed.
End DetectorInputs.

(* ===================================================================== *)
(** * The events the detector returns *)
(* ===================================================================== *)

Lemma elem_of_enumerate {A} (l : list A) i x :
  (i, x) ∈ enumerate l ↔ l !! i = Some x.
Proof.
  unfold enumerate. rewrite list_elem_of_lookup. split.
  - intros [j Hj]. rewrite list_lookup_imap in Hj.
    destruct (l !! j) as [y|] eqn:Hy; [|done]. by simplify_eq/=.
  - intros Hi. exists i. by rewrite list_lookup_imap, Hi.
Qed.

Lemma elem_of_concat {A} (x : A) (ls : list (list A)) :
  x ∈ concat ls ↔ ∃ l, l ∈ ls ∧ x ∈ l.
Proof.
  induction ls as [|l ls IH]; simpl.
  - split; [by intros ?%elem_of_nil | by intros (? & ?%elem_of_nil & _)].
  - rewrite elem_of_app, IH. split.
    + intros [?|(l' & ? & ?)]; [exists l | exists l']; split; try done;
        [by left | by right].
    + intros (l' & [->|?]%elem_of_cons & ?); [by left | right; by exists l'].
Qed.

Section DetectorEvents.
Context `{Libs}.
Import FloweringDetector.

Lemma elem_of_good_indices flags i :
  i ∈ good_indices flags ↔ flags !! i = Some "good".
Proof.
  unfold good_indices. rewrite list_elem_of_omap. split.
  - intros ([j flag] & Hin%elem_of_enumerate & Hsel). simpl in Hsel.
    destruct (String.eqb_spec flag "good"); by simplify_eq.
  - intros Hi. exists (i, "good"). by rewrite elem_of_enumerate.
Qed.

Lemma _enrich_event_raw event data e :
  _enrich_event event data = Ok e →
  raw e = event ∧ location data = Some (event_location e)
  ∧ data_source e = product_info data
  ∧ event_type e = _classify_event_type event
  ∧ desc_start (description e) = start_date event
  ∧ desc_end (description e) = end_date event
  ∧ desc_confidence (description e) = confidence_level e
  ∧ base_desc (description e) = type_descriptions (event_type e)
  ∧ latitude (event_location e) = Some (desc_latitude (description e))
  ∧ longitude (event_location e) = Some (desc_longitude (description e))
  ∧ confidence_level e
    = (if (confidence event >? Fin 0.8)%F then high
       else if (confidence event >? Fin 0.6)%F then medium else low).
Proof.
  unfold _enrich_event, _generate_event_description. intros He.
  destruct (location data) as [loc|]; [|done].
  destruct loc as [lat lon]. destruct lat as [lat|]; [|done].
  destruct lon as [lon|]; [|done]. simpl in He.
  injection He as <-. by repeat split.
Qed.

(** X6.  Every date of an event is the date of an observation of good
    quality of the input: the detector makes up no date, and an event
    neither starts, peaks nor ends on a cloudy or repaired observation. *)
Theorem detect_events_dates_observed data algorithm events (e : Event)
    ts raw parsed :
  detect_events data algorithm = Ok events → e ∈ events →
  time_series data = Some ts → dates ts = Some raw →
  mapM parse_date raw = Ok parsed →
  Forall (λ d, ∃ i, parsed !! i = Some d ∧ effective_flags ts !! i = Some "good")
         [start_date e; peak_date e; end_date e].
Proof.
  intros Hd He Hts Hraw Hparsed.
  destruct (detect_events_run _ _ _ Hd) as [->|Hrun]; [by apply elem_of_nil in He|].
  destruct Hrun as [ts' raw' parsed' v cd cv revs Hts' Hraw' Hparsed' Hv Hen Hcd Hcv
                      Hrun Henr].
  simplify_eq. assert (parsed' = parsed) as -> by congruence.
  assert (Hpick : ∀ j d, cd !! j = Some d →
            ∃ i, parsed !! i = Some d ∧ effective_flags ts !! i = Some "good").
  { intros j d Hj. apply mapM_Ok in Hcd.
    destruct (Forall2_lookup_r _ _ _ _ _ Hcd Hj) as (i & Hi & Hd'%index_Ok).
    exists i. split; [done|]. apply elem_of_good_indices.
    apply list_elem_of_lookup. eauto. }
  apply run_algorithm_built in Hrun. apply mapM_Ok in Henr.
  apply list_elem_of_lookup in He as [k Hk].
  destruct (Forall2_lookup_r _ _ _ _ _ Henr Hk) as (r & Hr & Hre).
  apply _enrich_event_raw in Hre as [<- _].
  rewrite Forall_lookup in Hrun. destruct (Hrun _ _ Hr) as [Hidx _ _ _].
  destruct Hidx as (s & p & t & _ & Hs & Hp & Ht).
  repeat constructor; eauto.
Qed.

(** X7.  What the enrichment adds to an event agrees with the event and
    with the record: the location is the record's, the description
    carries the event's own dates and level, the level is [high] above
    0.8, [medium] above 0.6 and [low] otherwise, and the type follows
    the duration (brief or pulse under 10 days, typical under 25,
    extended from 25 on). *)
Theorem detect_events_enrichment data algorithm events (e : Event) :
  detect_events data algorithm = Ok events → e ∈ events →
  location data = Some (event_location e)
  ∧ data_source e = product_info data
  ∧ desc_start (description e) = start_date e
  ∧ desc_end (description e) = end_date e
  ∧ desc_confidence (description e) = confidence_level e
  ∧ base_desc (description e) = type_descriptions (event_type e)
  ∧ (∃ q, confidence e = Fin q
          ∧ (confidence_level e = high ↔ (0.8 < q)%Q)
          ∧ (confidence_level e = medium ↔ (0.6 < q <= 0.8)%Q)
          ∧ (confidence_level e = low ↔ (q <= 0.6)%Q))
  ∧ (event_type e = typical_flowering ↔ 10 ≤ duration_days e < 25)
  ∧ (event_type e = extended_flowering ↔ 25 ≤ duration_days e)
  ∧ (event_type e = brief_flowering
     ↔ duration_days e < 10 ∧ (intensity e >? Fin 0.1)%F = true)
  ∧ (event_type e = vegetation_pulse
     ↔ duration_days e < 10 ∧ (intensity e >? Fin 0.1)%F = false).
Proof.
  intros Hd He.
  destruct (detect_events_run _ _ _ Hd) as [->|Hrun]; [by apply elem_of_nil in He|].
  destruct Hrun as [ts rawd parsed v cd cv revs Hts Hraw Hparsed Hv Hen Hcd Hcv
                      Hrun Henr].
  apply run_algorithm_built in Hrun.
  apply mapM_Ok in Henr. apply list_elem_of_lookup in He as [k Hk].
  destruct (Forall2_lookup_r _ _ _ _ _ Henr Hk) as (r & Hr & Hre).
  rewrite Forall_lookup in Hrun.
  destruct (Hrun _ _ Hr) as [_ _ _ (q & Hq & Hq0 & Hq1)].
  apply _enrich_event_raw in Hre
    as (<- & Hloc & Hsrc & Htype & Hds & Hde & Hdc & Hbd & _ & _ & Hlevel).
  repeat (split; [done|]).
  split.
  - exists q. split; [done|]. rewrite Hlevel, Hq. unfold F.gtb. simpl.
    destruct (F.Qltb 0.8 q) eqn:H8; [apply Qltb_lt in H8|apply Qltb_ge in H8].
    + repeat split; intros; try done; lra.
    + destruct (F.Qltb 0.6 q) eqn:H6; [apply Qltb_lt in H6|apply Qltb_ge in H6];
        repeat split; intros; try done; lra.
  - rewrite Htype. unfold _classify_event_type.
    destruct (Z.ltb_spec (duration_days (raw e)) 10).
    + destruct (intensity (raw e) >? Fin 0.1)%F;
        repeat split; intros; try done; try lia; naive_solver.
    + destruct (Z.ltb_spec (duration_days (raw e)) 25);
        repeat split; intros; try done; try lia; naive_solver lia.
Qed.

(* --------------------------------------------------------------------- *)
(** ** The events of the grouping algorithms do not overlap *)

Lemma consecutive_groups_elem pairs current_group x :
  x ∈ concat (consecutive_groups pairs current_group) →
  x ∈ current_group ++ pairs.*1.
Proof.
  revert current_group.
  induction pairs as [|[i exceeds] pairs IH]; intros cur; simpl.
  - rewrite app_nil_r. destruct cur; simpl; [done|]. by rewrite app_nil_r.
  - destruct exceeds.
    + intros Hx%IH. by rewrite <- app_assoc in Hx.
    + destruct cur as [|c cur].
      * intros Hx%IH. simpl in *. by right.
      * change (concat ((c :: cur) :: consecutive_groups pairs []))
          with ((c :: cur) ++ concat (consecutive_groups pairs [])).
        change (((i, false) :: pairs).*1) with (i :: pairs.*1).
        rewrite !elem_of_app. intros [?|Hx%IH]; [by left|].
        right. by right.
Qed.

Lemma consecutive_groups_concat_sorted pairs current_group :
  StronglySorted lt (current_group ++ pairs.*1) →
  StronglySorted lt (concat (consecutive_groups pairs current_group)).
Proof.
  revert current_group.
  induction pairs as [|[i exceeds] pairs IH]; intros cur Hs; simpl.
  - rewrite app_nil_r in Hs. destruct cur; simpl; [constructor|].
    by rewrite app_nil_r.
  - simpl in Hs. destruct exceeds.
    + apply IH. by rewrite <- app_assoc.
    + assert (StronglySorted lt pairs.*1) as Hrest.
      { apply StronglySorted_app_1_r in Hs.
        by apply StronglySorted_cons in Hs as [_ ?]. }
      destruct cur as [|c cur]; [by apply IH|].
      change (concat ((c :: cur) :: consecutive_groups pairs []))
        with ((c :: cur) ++ concat (consecutive_groups pairs [])).
      apply StronglySorted_app_2.
      * intros x y Hx Hy%consecutive_groups_elem. simpl in Hy.
        eapply StronglySorted_app_1_elem_of; [exact Hs|done|]. by right.
      * by apply StronglySorted_app_1_l in Hs.
      * by apply IH.
Qed.

Lemma event_of_group_ends dates values group e :
  event_of_group dates values group = Ok (Some e) →
  ∃ s t, s ∈ group ∧ t ∈ group
         ∧ dates !! s = Some (start_date e) ∧ dates !! t = Some (end_date e).
Proof.
  unfold event_of_group. intros He.
  destruct (2 <=? length group)%nat; [|done].
  exc_inv He; [|done]. exc_inv He. subst e. simpl.
  repeat match goal with Hi : index _ _ = Ok _ |- _ => apply index_Ok in Hi end.
  match goal with
  | Hs : group !! 0%nat = Some ?s, Ht : group !! (length group - 1)%nat = Some ?t |- _ =>
      exists s, t; repeat split; try done; apply list_elem_of_lookup; eauto
  end.
Qed.

(** One event before another: the first has ended when the second
    starts. *)
Definition precedes (e1 e2 : RawEvent) : Prop := end_date e1 < start_date e2.

Lemma _group_consecutive_exceedances_disjoint dates values exceedances events :
  StronglySorted Z.lt dates →
  _group_consecutive_exceedances dates values exceedances = Ok events →
  StronglySorted precedes events.
Proof.
  intros Hdates. unfold _group_consecutive_exceedances. intros He. exc_inv He.
  subst events. apply mapM_Ok in Ha.
  pose proof (consecutive_groups_concat_sorted (enumerate exceedances) []) as Hs.
  simpl in Hs. rewrite enumerate_fst in Hs. specialize (Hs (StronglySorted_seq _ _)).
  induction Ha as [|g o gs os Hg Hgs IH]; [constructor|].
  change (concat (g :: gs)) with (g ++ concat gs) in Hs.
  apply StronglySorted_app in Hs as (Hlt & _ & Hrest).
  specialize (IH Hrest). destruct o as [e|]; simpl; [|done].
  constructor; [done|].
  apply Forall_forall. intros e' He'.
  apply list_elem_of_omap in He' as (o' & Ho' & Hid). simpl in Hid. subst o'.
  apply list_elem_of_lookup in Ho' as [k Hk].
  destruct (Forall2_lookup_r _ _ _ _ _ Hgs Hk) as (g' & Hg' & Hev').
  apply event_of_group_ends in Hg as (_ & t & _ & Ht & _ & Hend).
  apply event_of_group_ends in Hev' as (s' & _ & Hs' & _ & Hstart' & _).
  unfold precedes.
  eapply (StronglySorted_lookup_Zlt dates t s'); [done..|].
  apply Hlt; [done|]. apply elem_of_concat. exists g'. split; [|done].
  apply list_elem_of_lookup. eauto.
Qed.

(** X8.  Under the threshold and the seasonal-anomaly algorithms, the
    events come in the order of time and do not overlap: each one has
    ended before the next one starts (the dates of the input
    increasing). *)
Theorem grouped_events_disjoint data algorithm events :
  dates_strictly_increasing data →
  algorithm_of algorithm = Threshold ∨ algorithm_of algorithm = SeasonalAnomaly →
  detect_events data algorithm = Ok events →
  StronglySorted (λ e1 e2 : Event, end_date e1 < start_date e2) events.
Proof.
  intros Hinc Halg Hd.
  destruct (detect_events_run _ _ _ Hd) as [->|Hrun]; [constructor|].
  destruct Hrun as [ts rawd parsed v cd cv revs Hts Hraw Hparsed Hv Hen Hcd Hcv
                      Hrun Henr].
  assert (StronglySorted Z.lt cd) as Hsorted.
  { eapply StronglySorted_pick; [by eapply Hinc| |exact Hcd].
    apply (omap_enumerate_sorted (λ flag, String.eqb flag "good")). }
  assert (StronglySorted precedes revs) as Hraw_sorted.
  { destruct (algorithm_of algorithm); cbn [run_algorithm] in Hrun.
    - by eapply _group_consecutive_exceedances_disjoint.
    - by destruct Halg.
    - unfold _detect_seasonal_anomaly in Hrun.
      destruct (length _ <? 10)%nat; [simplify_eq; constructor|].
      destruct (negb _); [done|].
      by eapply _group_consecutive_exceedances_disjoint.
    - by destruct Halg. }
  apply mapM_Ok in Henr. clear -Henr Hraw_sorted.
  induction Henr as [|r e rs es Hr Hrs IH]; [constructor|].
  apply StronglySorted_cons in Hraw_sorted as [Hhead Htail].
  constructor; [by apply IH|].
  apply _enrich_event_raw in Hr as [<- _].
  clear IH. induction Hrs as [|r' e' rs es Hr' _ IH']; [constructor|].
  apply Forall_cons in Hhead as [Hh Hhead].
  apply StronglySorted_cons in Htail as [_ Htail].
  apply _enrich_event_raw in Hr' as [<- _].
  constructor; [exact Hh | by apply IH'].
Qed.
End DetectorEvents.

(* ===================================================================== *)
(** * The forecast and the seasonal pattern *)
(* ===================================================================== *)

Lemma tm_yday_range ordinal : 1 ≤ Date.tm_yday ordinal ≤ 366.
Proof.
  unfold Date.tm_yday. cbv zeta.
  destruct (_ || _); [lia|].
  pose proof (Z.mod_pos_bound (((ordinal - 1) mod 146097) mod 36524 mod 1461) 365).
  lia.
Qed.

Section ForecastInputs.
Context `{Libs}.
Import FloweringDetector.

(** The values of the rows whose key is [k], in row order. *)
Definition rows_of (k : Z) (keys : list Z) (vals : list float64) : list float64 :=
  (filter (λ p : Z * float64, p.1 = k) (zip keys vals)).*2.

Lemma group_by_from m keys vals k :
  foldl (λ (m : gmap Z (list float64)) (p : Z * float64),
           <[p.1 := default [] (m !! p.1) ++ [p.2]]> m) m (zip keys vals) !! k
  = if decide (rows_of k keys vals = []) then m !! k
    else Some (default [] (m !! k) ++ rows_of k keys vals).
Proof.
  unfold rows_of. generalize (zip keys vals). intros l. revert m.
  induction l as [|[key v] l IH]; intros m; [done|].
  cbn [foldl]. rewrite IH. cbn [fst snd].
  destruct (decide (key = k)) as [->|Hne].
  - rewrite filter_cons_True by done. rewrite lookup_insert_eq.
    rewrite fmap_cons. cbn [snd from_option id].
    rewrite (decide_False (P := v :: _ = [])) by done.
    destruct (decide _) as [->|_]; [done|]. by rewrite <- app_assoc.
  - rewrite filter_cons_False by done. by rewrite lookup_insert_ne.
Qed.

Lemma group_by_lookup keys vals k :
  group_by keys vals !! k
  = if decide (rows_of k keys vals = []) then None else Some (rows_of k keys vals).
Proof. unfold group_by. rewrite group_by_from. by rewrite lookup_empty. Qed.

Lemma rows_of_key k keys vals :
  rows_of k keys vals ≠ [] → k ∈ keys.
Proof.
  unfold rows_of. intros Hrows.
  destruct (filter _ _) as [|[key v] l] eqn:Hf; [done|].
  assert ((key, v) ∈ filter (λ p : Z * float64, p.1 = k) (zip keys vals)) as Hin
    by (rewrite Hf; by left).
  apply list_elem_of_filter in Hin as [Hk Hin]. simpl in Hk. subst key.
  by apply elem_of_zip_l in Hin.
Qed.

(** X9.  The seasonal pattern has an entry for a day of the year exactly
    when a date of the input falls on that day; the entry is the mean
    of the values observed on that day, over all years, and its key is
    a day from 1 to 366. *)
Theorem _extract_seasonal_pattern_spec dates values day :
  let observed := rows_of day (map Date.tm_yday dates) values in
  _extract_seasonal_pattern dates values !! day
  = (if decide (observed = []) then None else Some (np_mean observed))
  ∧ (is_Some (_extract_seasonal_pattern dates values !! day) →
     1 ≤ day ≤ 366 ∧ ∃ d, d ∈ dates ∧ Date.tm_yday d = day).
Proof.
  intros observed.
  assert (_extract_seasonal_pattern dates values !! day
          = if decide (observed = []) then None else Some (np_mean observed)) as Heq.
  { unfold _extract_seasonal_pattern. rewrite lookup_fmap, group_by_lookup.
    fold observed. by destruct (decide _). }
  split; [done|]. rewrite Heq. destruct (decide _) as [|Hne]; [by intros [??]|].
  intros _. apply rows_of_key in Hne.
  apply list_elem_of_In, in_map_iff in Hne as (d & <- & Hd%list_elem_of_In).
  split; [apply tm_yday_range | eauto].
Qed.

(** X10.  [predict_flowering] forecasts nothing when no day ahead is
    asked for, and nothing from a record without a series, without
    dates or values, or with no date at all. *)
Theorem predict_flowering_nothing data days_ahead species :
  days_ahead ≤ 0 ∨ time_series data = None
  ∨ (∃ ts, time_series data = Some ts
           ∧ (dates ts = None ∨ dates ts = Some [] ∨ values ts = None)) →
  predict_flowering data days_ahead species = Ok [].
Proof.
  intros Hcase.
  destruct (predict_flowering_total data days_ahead species) as [ps Hps].
  rewrite Hps. f_equal.
  apply predict_flowering_Ok in Hps as [->|Hps]; [done|].
  unfold predict_flowering_body in Hps.
  destruct (time_series data) as [ts|] eqn:Hts; [|by simplify_eq].
  exc_inv Hps.
  destruct Hcase as [Hdays|[?|(ts' & ? & Hcase)]]; [|done|].
  - match goal with
    | Hf : mapM _ (range 1 _) = Ok ?f |- _ =>
        replace (range 1 (Z.to_nat (days_ahead + 1))) with (@nil nat) in Hf;
        [injection Hf as <-|]
    end.
    + match goal with
      | Hm : mapM _ (enumerate []) = Ok _ |- _ => by injection Hm
      end.
    + unfold range. by replace (Z.to_nat (days_ahead + 1) - 1)%nat with 0%nat by lia.
  - simplify_eq. destruct Hcase as [Hd|[Hd|Hv]].
    + rewrite Hd in *. done.
    + rewrite Hd in *.
      repeat match goal with
             | Hg : getitem (Some _) = Ok _ |- _ => injection Hg as <-
             | Hm : mapM _ [] = Ok _ |- _ => injection Hm as <-
             | Hm : py_max_date [] = Ok _ |- _ => discriminate Hm
             end.
    + rewrite Hv in *. done.
Qed.

(** X11.  The forecast reads neither the quality flags nor the species:
    it is the same whatever the flags of the record are set to, and for
    whatever species it is asked.  (The detector drops the observations
    that are not ['good']; the forecaster uses them.) *)
Theorem predict_flowering_ignores_flags data flags days_ahead species species' :
  predict_flowering (with_quality_flags flags data) days_ahead species
  = predict_flowering data days_ahead species'.
Proof.
  unfold predict_flowering, predict_flowering_body, with_quality_flags.
  cbn [time_series]. by destruct (time_series data).
Qed.

(** X12.  Every forecast carries the confidence 0.7, and its NDVI is
    the seasonal mean of its day of the year (the mean of all values
    when no observation fell on that day) plus the noise drawn for it,
    whose scale is a tenth of the standard deviation of the values. *)
Theorem predict_flowering_values data ts raw parsed vals days_ahead species
    predictions k p :
  time_series data = Some ts → dates ts = Some raw → values ts = Some vals →
  mapM parse_date raw = Ok parsed →
  predict_flowering data days_ahead species = Ok predictions →
  predictions !! k = Some p →
  prediction_confidence p = Fin 0.7
  ∧ predicted_ndvi p
    = (default (np_mean vals)
               (_extract_seasonal_pattern parsed vals !! Date.tm_yday (date p))
       + np_random_normal k (np_std vals * Fin 0.1))%F.
Proof.
  intros Hts Hraw Hvals Hparsed Hp Hk.
  apply predict_flowering_Ok in Hp as [->|Hp]; [done|].
  unfold predict_flowering_body in Hp. rewrite Hts, Hraw in Hp. simpl in Hp.
  rewrite Hparsed in Hp. simpl in Hp. rewrite Hvals in Hp. simpl in Hp.
  exc_inv Hp. apply mapM_Ok in Hp.
  match goal with Hf : mapM _ (range 1 _) = Ok ?f |- _ => rename f into a0 end.
  destruct (Forall2_lookup_r _ _ _ _ _ Hp Hk) as ([k' d] & Hkd & Hone).
  unfold enumerate in Hkd. rewrite list_lookup_imap in Hkd.
  destruct (a0 !! k) as [d'|]; [|done]. simpl in Hkd.
  assert (k' = k ∧ d = d') as [-> ->] by (split; congruence).
  unfold predict_one in Hone. rewrite random_normal_std_Ok in Hone.
  simpl in Hone. injection Hone as <-. done.
Qed.
End ForecastInputs.

(* ===================================================================== *)
(** * Smoothing fills the gaps *)
(* ===================================================================== *)

(** A finite float between two rationals. *)
Definition between (lo hi : Q) (x : float64) : Prop :=
  ∃ q, x = Fin q ∧ (lo <= q <= hi)%Q.

Lemma sum_finite a q0 :
  Forall (λ x, F.is_finite x = true) a → ∃ s, foldl F.add (Fin q0) a = Fin s.
Proof.
  intros Ha. revert q0. induction Ha as [|x a Hx _ IH]; intros q0; [by eexists|].
  destruct x as [q| | |]; try done. cbn [foldl F.add]. apply IH.
Qed.

Section Smoothing.
Context `{Libs}.

Lemma np_mean_finite a :
  a ≠ [] → Forall (λ x, F.is_finite x = true) a → F.is_nan (np_mean a) = false.
Proof.
  intros Hne Ha. unfold np_mean, F.sum.
  destruct (sum_finite a 0 Ha) as (s & ->).
  unfold F.of_nat, F.of_Z. cbn [F.div].
  destruct (Qeq_bool _ 0) eqn:Hz; [|done].
  apply Qeq_bool_iff in Hz. exfalso.
  destruct a; [done|]. unfold Qeq in Hz. simpl in Hz. lia.
Qed.

(** The entries of a window that count: those that are finite. *)
Lemma counted_finite l :
  Forall (λ x, F.is_finite x = true)
         (filter (λ x, F.is_nan x = false) (map inf_to_nan l)).
Proof.
  induction l as [|x l IH]; [constructor|].
  cbn [map]. destruct x as [q| | |]; cbn [inf_to_nan].
  - rewrite filter_cons_True by done. by constructor.
  - by rewrite filter_cons_False by done.
  - by rewrite filter_cons_False by done.
  - by rewrite filter_cons_False by done.
Qed.

Lemma counted_nil l :
  filter (λ x, F.is_nan x = false) (map inf_to_nan l) = []
  ↔ Forall (λ x, F.is_finite x = false) l.
Proof.
  induction l as [|x l IH]; [done|].
  cbn [map]. rewrite Forall_cons. destruct x as [q| | |]; cbn [inf_to_nan].
  - rewrite filter_cons_True by done. split; [done | by intros [? _]].
  - rewrite filter_cons_False by done. rewrite IH.
    split; [by intros ? | by intros [_ ?]].
  - rewrite filter_cons_False by done. rewrite IH.
    split; [by intros ? | by intros [_ ?]].
  - rewrite filter_cons_False by done. rewrite IH.
    split; [by intros ? | by intros [_ ?]].
Qed.

Lemma rolling_window_map (f : float64 → float64) w a i :
  rolling_window w (map f a) i = map f (rolling_window w a i).
Proof.
  unfold rolling_window. rewrite length_map.
  change (map f) with (fmap (M := list) f). by rewrite fmap_take, fmap_drop.
Qed.

End Smoothing.

(* ===================================================================== *)
(** * The interpolation of the invalid values *)
(* ===================================================================== *)

Lemma elem_of_omap_enumerate {A} (p : A → bool) (l : list A) i :
  i ∈ omap (λ q : nat * A, if p q.2 then Some q.1 else None) (enumerate l)
  ↔ ∃ x, l !! i = Some x ∧ p x = true.
Proof.
  rewrite list_elem_of_omap. split.
  - intros ([j x] & Hin%elem_of_enumerate & Hsel). simpl in Hsel.
    destruct (p x) eqn:Hp; [|done]. injection Hsel as ->. eauto.
  - intros (x & Hx & Hp). exists (i, x). rewrite elem_of_enumerate.
    simpl. by rewrite Hp.
Qed.

Lemma setitem_Ok {A} (a : list A) i x r :
  DataProcessor.setitem a i x = Ok r ↔ (i < length a)%nat ∧ r = <[i := x]> a.
Proof.
  unfold DataProcessor.setitem. destruct (Nat.ltb_spec i (length a)); split.
  - by intros [= <-].
  - by intros [_ ->].
  - done.
  - intros [? _]. lia.
Qed.

Section Interpolation.
Context `{Libs}.
Import DataProcessor.

Lemma elem_of_np_where mask i : i ∈ np_where mask ↔ mask !! i = Some true.
Proof.
  unfold np_where. rewrite (elem_of_omap_enumerate id). split.
  - intros (x & Hx & Hid). simpl in Hid. by subst x.
  - eauto.
Qed.

Lemma np_where_sorted mask : StronglySorted lt (np_where mask).
Proof. apply (omap_enumerate_sorted id). Qed.

Lemma elem_of_np_where_negb mask i :
  i ∈ np_where (map negb mask) ↔ mask !! i = Some false.
Proof.
  rewrite elem_of_np_where.
  change (map negb mask) with (negb <$> mask). rewrite list_lookup_fmap.
  destruct (mask !! i) as [[]|]; simpl; split; congruence.
Qed.

Lemma find_neighbors_elem valid_indices i left0 l r :
  find_neighbors valid_indices i left0 = (l, r) →
  (l = left0 ∨ ∃ x, l = Some x ∧ x ∈ valid_indices)
  ∧ (r = None ∨ ∃ x, r = Some x ∧ x ∈ valid_indices).
Proof.
  revert left0. induction valid_indices as [|v vs IH]; intros left0; simpl.
  - intros [= <- <-]. eauto.
  - destruct (v <? i)%nat.
    + intros [[->|(x & -> & ?)] [->|(y & -> & ?)]]%IH; split;
        eauto 6 using list_elem_of_here, list_elem_of_further.
    + destruct (i <? v)%nat.
      * intros [= <- <-]. eauto 6 using list_elem_of_here.
      * intros [[->|(x & -> & ?)] [->|(y & -> & ?)]]%IH; split;
          eauto 6 using list_elem_of_further.
Qed.

(** With strictly increasing valid indices, the neighbours found for [i]
    are the last valid index before [i] and the first one after it. *)
Lemma find_neighbors_nearest valid_indices i left0 l r :
  StronglySorted lt valid_indices →
  l ∈ valid_indices → r ∈ valid_indices → (l < i < r)%nat →
  (∀ v, v ∈ valid_indices → (v ≤ l ∨ r ≤ v)%nat) →
  find_neighbors valid_indices i left0 = (Some l, Some r).
Proof.
  intros Hs Hl Hr Hi Hgap. revert left0.
  induction Hs as [|v vs Hs IH Hv]; intros left0; [by apply elem_of_nil in Hl|].
  rewrite Forall_forall in Hv. simpl.
  apply elem_of_cons in Hl as [->|Hl].
  - assert ((v <? i)%nat = true) as -> by (apply Nat.ltb_lt; lia).
    apply elem_of_cons in Hr as [->|Hr]; [lia|].
    destruct vs as [|w vs]; [by apply elem_of_nil in Hr|]. simpl.
    assert (w = r) as ->.
    { destruct (Hgap w) as [?|?]; [by right; left| |].
      - specialize (Hv w (list_elem_of_here _ _)). lia.
      - apply elem_of_cons in Hr as [->|Hr]; [done|].
        apply StronglySorted_cons in Hs as [Hw _].
        rewrite Forall_forall in Hw. specialize (Hw _ Hr). lia. }
    assert ((r <? i)%nat = false) as -> by (apply Nat.ltb_ge; lia).
    by assert ((i <? r)%nat = true) as -> by (apply Nat.ltb_lt; lia).
  - specialize (Hv _ Hl).
    assert ((v <? i)%nat = true) as -> by (apply Nat.ltb_lt; lia).
    apply elem_of_cons in Hr as [->|Hr]; [lia|].
    apply IH; [done..|]. intros w Hw. apply Hgap. by right.
Qed.

(** What [_interpolate_missing_values] writes at the invalid index
    [i]: it depends on the values at the valid indices only. *)
Definition fill_value (values : list float64) (mask : list bool) (i : nat)
    : exc float64 :=
  let valid_indices := np_where mask in
  if (length valid_indices <? 2)%nat then
    good ← bool_index values mask; Ok (np_nanmean good)
  else
    match find_neighbors valid_indices i None with
    | (Some left_neighbor, Some right_neighbor) =>
        let weight := (F.of_Z (Z.of_nat i - Z.of_nat left_neighbor)
                       / F.of_Z (Z.of_nat right_neighbor - Z.of_nat left_neighbor))%F in
        l ← index values left_neighbor;
        r ← index values right_neighbor;
        Ok (l * (Fin 1 - weight) + r * weight)%F
    | (Some left_neighbor, None) => index values left_neighbor
    | (None, Some right_neighbor) => index values right_neighbor
    | (None, None) => good ← bool_index values mask; Ok (np_mean good)
    end.

Lemma fill_value_Ok values mask i :
  length mask = length values → ∃ x, fill_value values mask i = Ok x.
Proof.
  intros Hlen. unfold fill_value. cbv zeta.
  assert (∃ good, bool_index values mask = Ok good) as [good Hgood].
  { unfold bool_index. rewrite Hlen, Nat.eqb_refl. eauto. }
  assert (∀ v, v ∈ np_where mask → ∃ x, index values v = Ok x) as Hidx.
  { intros v Hv%elem_of_np_where. apply lookup_lt_Some in Hv.
    rewrite Hlen in Hv. apply lookup_lt_is_Some in Hv as [x Hx].
    exists x. by apply index_Ok. }
  destruct (_ <? 2)%nat; [rewrite Hgood; simpl; eauto|].
  destruct (find_neighbors _ _ _) as [l r] eqn:Hn.
  apply find_neighbors_elem in Hn as [[->|(x & -> & Hx)] [->|(y & -> & Hy)]].
  - rewrite Hgood. simpl. eauto.
  - by apply Hidx.
  - by apply Hidx.
  - destruct (Hidx _ Hx) as [vx ->], (Hidx _ Hy) as [vy ->]. simpl. eauto.
Qed.

Lemma interpolation_step values mask result i :
  let valid_indices := np_where mask in
  (if (length valid_indices <? 2)%nat
   then good ← bool_index values mask;
        setitem result i (np_nanmean good)
   else interpolate_at values mask valid_indices result i)
  = (x ← fill_value values mask i; setitem result i x).
Proof.
  intros valid_indices. unfold fill_value, interpolate_at. fold valid_indices.
  destruct (_ <? 2)%nat; [by destruct (bool_index values mask)|].
  destruct (find_neighbors _ _ _) as [[l|] [r|]]; simpl.
  - destruct (index values l); [|done]. simpl. by destruct (index values r).
  - done.
  - done.
  - by destruct (bool_index values mask).
Qed.

(** A loop of assignments [result[i] = g(i)] over indices within the
    array. *)
Lemma for_each_setitem (g : nat → exc float64) idxs (result : list float64) :
  (∀ i, i ∈ idxs → (i < length result)%nat ∧ ∃ x, g i = Ok x) →
  ∃ result',
    for_each (λ r i, x ← g i; setitem r i x) idxs result = Ok result'
    ∧ length result' = length result
    ∧ (∀ j, j ∉ idxs → result' !! j = result !! j)
    ∧ (∀ j, j ∈ idxs → ∃ x, g j = Ok x ∧ result' !! j = Some x).
Proof.
  revert result. induction idxs as [|i idxs IH]; intros result Hok.
  - exists result. split; [done|]. split; [done|]. split; [done|].
    by intros j ?%elem_of_nil.
  - destruct (Hok i) as [Hi [x Hx]]; [by left|].
    cbn [for_each]. rewrite Hx. cbn [mbind exc_bind].
    assert (setitem result i x = Ok (<[i := x]> result)) as ->
      by (by apply setitem_Ok).
    cbn [mbind exc_bind].
    destruct (IH (<[i := x]> result)) as (r' & Hr' & Hlen & Hout & Hin).
    { intros j Hj. rewrite length_insert. apply Hok. by right. }
    exists r'. rewrite length_insert in Hlen. split; [done|]. split; [done|].
    split.
    + intros j Hj. apply not_elem_of_cons in Hj as [Hne Hj].
      rewrite (Hout j Hj). by rewrite list_lookup_insert_ne.
    + intros j Hj. destruct (decide (j ∈ idxs)) as [Hjin|Hjout]; [eauto|].
      apply elem_of_cons in Hj as [->|?]; [|done].
      exists x. split; [done|]. rewrite (Hout i Hjout).
      by rewrite list_lookup_insert_eq by done.
Qed.

Lemma interpolation_loop values mask idxs result :
  length mask = length values →
  (if (length (np_where mask) <? 2)%nat
   then good ← bool_index values mask;
        for_each (λ result i, setitem result i (np_nanmean good)) idxs result
   else for_each (interpolate_at values mask (np_where mask)) idxs result)
  = for_each (λ r i, x ← fill_value values mask i; setitem r i x) idxs result.
Proof.
  intros Hlen.
  assert (∃ good, bool_index values mask = Ok good) as [good Hgood].
  { unfold bool_index. rewrite Hlen, Nat.eqb_refl. eauto. }
  revert result. induction idxs as [|i idxs IH]; intros result.
  - rewrite Hgood. by destruct (_ <? 2)%nat.
  - pose proof (interpolation_step values mask result i) as Hstep.
    cbv zeta in Hstep. cbn [for_each]. rewrite <- Hstep.
    rewrite Hgood in *. cbn [mbind exc_bind] in *.
    destruct (length (np_where mask) <? 2)%nat.
    + destruct (setitem result i (np_nanmean good)) as [r|]; [|done].
      cbn [mbind exc_bind]. apply IH.
    + destruct (interpolate_at _ _ _ _ _) as [r|]; [|done].
      cbn [mbind exc_bind]. apply IH.
Qed.

(** Interpolation over a mask as long as the values: what it returns. *)
Lemma interpolation_fills values mask :
  length mask = length values →
  ∃ result,
    _interpolate_missing_values values mask = Ok result
    ∧ length result = length values
    ∧ (∀ i, mask !! i = Some true → result !! i = values !! i)
    ∧ (∀ i, mask !! i = Some false →
         ∃ x, fill_value values mask i = Ok x ∧ result !! i = Some x).
Proof.
  intros Hlen. unfold _interpolate_missing_values. cbv zeta.
  rewrite interpolation_loop by done.
  destruct (for_each_setitem (fill_value values mask)
              (np_where (map negb mask)) values)
    as (result & Hres & Hl & Hout & Hin).
  { intros i Hi%elem_of_np_where_negb. split; [|by apply fill_value_Ok].
    rewrite <- Hlen. by eapply lookup_lt_Some. }
  exists result. split; [done|]. split; [done|]. split.
  - intros i Hi. apply Hout. rewrite elem_of_np_where_negb. congruence.
  - intros i Hi. apply Hin. by apply elem_of_np_where_negb.
Qed.

(** X14.  Interpolation over a mask as long as the values succeeds, keeps
    the number of values, and leaves the value at every valid position
    as it is; what it writes at an invalid position depends on the
    values at the valid positions only. *)
Theorem _interpolate_missing_values_spec values mask :
  length mask = length values →
  ∃ result,
    _interpolate_missing_values values mask = Ok result
    ∧ length result = length values
    ∧ (∀ i, mask !! i = Some true → result !! i = values !! i)
    ∧ (∀ i, mask !! i = Some false →
         ∃ x, fill_value values mask i = Ok x ∧ result !! i = Some x).
Proof. apply interpolation_fills. Qed.

(** X15.  Between two valid positions [l < i < r] with no valid position
    in between, the value written at [i] is the linear interpolation of
    the values at [l] and [r], with the weight [(i - l) / (r - l)]. *)
Theorem _interpolate_missing_values_linear values mask result l r i vl vr :
  length mask = length values →
  _interpolate_missing_values values mask = Ok result →
  (l < i < r)%nat →
  mask !! l = Some true → mask !! r = Some true →
  (∀ j, (l < j < r)%nat → mask !! j = Some false) →
  values !! l = Some vl → values !! r = Some vr →
  result !! i
  = Some (vl * (Fin 1 - F.of_Z (Z.of_nat i - Z.of_nat l)
                        / F.of_Z (Z.of_nat r - Z.of_nat l))
          + vr * (F.of_Z (Z.of_nat i - Z.of_nat l)
                  / F.of_Z (Z.of_nat r - Z.of_nat l)))%F.
Proof.
  intros Hlen Hres Hi Hl Hr Hgap Hvl Hvr.
  destruct (interpolation_fills values mask Hlen)
    as (result' & Hres' & _ & _ & Hin).
  assert (result' = result) as -> by congruence.
  destruct (Hin i (Hgap i Hi)) as (x & Hx & ->). f_equal.
  unfold fill_value in Hx. cbv zeta in Hx.
  assert ((length (np_where mask) <? 2)%nat = false) as Hmany.
  { apply Nat.ltb_ge.
    apply elem_of_np_where, list_elem_of_lookup in Hl as [kl Hkl].
    apply elem_of_np_where, list_elem_of_lookup in Hr as [kr Hkr].
    destruct (decide (kl = kr)) as [->|Hne]; [rewrite Hkl in Hkr; simplify_eq; lia|].
    apply lookup_lt_Some in Hkl, Hkr. lia. }
  rewrite Hmany in Hx.
  rewrite (find_neighbors_nearest _ i None l r) in Hx.
  - apply index_Ok in Hvl, Hvr. rewrite Hvl, Hvr in Hx. cbn [mbind exc_bind] in Hx.
    by injection Hx as <-.
  - apply np_where_sorted.
  - by apply elem_of_np_where.
  - by apply elem_of_np_where.
  - done.
  - intros v Hv%elem_of_np_where.
    destruct (decide (l < v < r)%nat) as [Hbetween|]; [|lia].
    rewrite (Hgap v Hbetween) in Hv. done.
Qed.
End Interpolation.

(* ===================================================================== *)
(** * The cloud mask and the outlier removal, on the store *)
(* ===================================================================== *)

Section Stages.
Context `{Libs}.
Import DataProcessor.

(** The record at [data] holds the series [ts], stored at [a]. *)
Definition holds_series (σ : Store) (data a : nat) (ts : TimeSeries) : Prop :=
  ∃ d, records σ !! data = Some d ∧ time_series d = Some a
       ∧ all_series σ !! a = Some ts.

(** Nothing but the series at [a] differs between two stores. *)
Definition only_series_written (a : nat) (σ σ' : Store) : Prop :=
  records σ' = records σ
  ∧ ∀ b, b ≠ a → all_series σ' !! b = all_series σ !! b.

Lemma good_mask_lookup (flags : list string) i :
  map (λ flag, String.eqb flag "good") flags !! i
  = (λ flag, String.eqb flag "good") <$> flags !! i.
Proof. apply list_lookup_fmap. Qed.

Lemma new_flags_lookup (flags : list string) i :
  map (λ good : bool, if negb good then "interpolated" else "good")
      (map (λ flag, String.eqb flag "good") flags) !! i
  = (λ flag, if String.eqb flag "good" then "good" else "interpolated")
    <$> flags !! i.
Proof.
  change (map ?f (map ?g flags)) with (f <$> (g <$> flags)).
  rewrite !list_lookup_fmap. destruct (flags !! i) as [flag|]; [|done].
  simpl. by destruct (String.eqb flag "good").
Qed.

Lemma np_any_false (m : list bool) i :
  np_any m = false → m !! i ≠ Some true.
Proof.
  unfold np_any. revert i. induction m as [|b m IH]; intros i; [done|].
  simpl. intros [Hb Hm]%orb_false_elim. destruct i; simpl.
  - unfold id in Hb. congruence.
  - by apply IH.
Qed.

(** X16.  The cloud mask, on a series with one flag for each value and
    at least one observation, touches nothing but that series; it keeps
    the number of values and of flags, leaves every value flagged
    ['good'] as it is and the flag with it, and turns every other flag
    into ['interpolated'].  On a series with an empty list of flags it
    raises [TypeError] and writes nothing. *)
Theorem _apply_cloud_mask_spec σ data a ts vals flags :
  holds_series σ data a ts →
  values ts = Some vals → quality_flags ts = Some flags →
  length flags = length vals →
  (flags = [] → _apply_cloud_mask data σ = (Raise TypeError, σ))
  ∧ (flags ≠ [] →
     ∃ σ' ts' vals' flags',
       _apply_cloud_mask data σ = (Ok data, σ')
       ∧ only_series_written a σ σ'
       ∧ all_series σ' !! a = Some ts'
       ∧ dates ts' = dates ts
       ∧ values ts' = Some vals' ∧ quality_flags ts' = Some flags'
       ∧ length vals' = length vals ∧ length flags' = length flags
       ∧ (∀ i, flags !! i = Some "good" →
               vals' !! i = vals !! i ∧ flags' !! i = Some "good")
       ∧ (∀ i flag, flags !! i = Some flag → flag ≠ "good" →
                    flags' !! i = Some "interpolated")).
Proof.
  intros (d & Hd & Hda & Hts) Hvals Hflags Hlen.
  split.
  { intros ->. unfold _apply_cloud_mask, mbind, M_bind, read_record, read_series.
    rewrite Hd, Hda. cbn [time_series]. rewrite Hts, Hvals, Hflags. done. }
  intros Hsome.
  set (Q := λ (r : exc nat) (σ' : Store), r = Ok data ∧ ∃ ts' vals' flags',
    only_series_written a σ σ'
    ∧ all_series σ' !! a = Some ts'
    ∧ dates ts' = dates ts
    ∧ values ts' = Some vals' ∧ quality_flags ts' = Some flags'
    ∧ length vals' = length vals ∧ length flags' = length flags
    ∧ (∀ i, flags !! i = Some "good" →
            vals' !! i = vals !! i ∧ flags' !! i = Some "good")
    ∧ (∀ i flag, flags !! i = Some flag → flag ≠ "good" →
                 flags' !! i = Some "interpolated")).
  assert (post (_apply_cloud_mask data) σ Q) as Hpost.
  { unfold _apply_cloud_mask.
    apply post_bind, post_read_record; [|congruence].
    intros d' Hd'. assert (d' = d) as -> by congruence. rewrite Hda.
    apply post_bind, post_read_series; [|congruence].
    intros t Ht. assert (t = ts) as -> by congruence.
    rewrite Hvals, Hflags. apply post_bind, post_lift. cbn [getitem from_option id].
    set (mask := map (λ flag, String.eqb flag "good") flags).
    assert (length mask = length vals) as Hmask
      by (unfold mask; by rewrite length_map).
    assert (np_invert mask = Ok (map negb mask)) as ->
      by (unfold mask; by destruct flags).
    apply post_bind, post_lift.
    destruct (np_any (map negb mask)) eqn:Hany.
    - destruct (interpolation_fills vals mask Hmask)
        as (vals' & Hint & Hlen' & Hkeep & _).
      rewrite Hint. apply post_bind, post_lift.
      apply post_bind, post_update_series.
      apply post_bind, post_update_series. apply post_ret.
      split; [done|].
      eexists _, vals', _. split; [|split; [|split; [|split; [|split]]]].
      + split; [done|]. intros b Hb. cbn [all_series]. by rewrite !lookup_alter_ne.
      + cbn [all_series]. rewrite lookup_alter_eq, lookup_alter_eq, Hts. simpl. reflexivity.
      + done.
      + done.
      + done.
      + split; [done|]. split; [unfold mask; by rewrite !length_map|]. split.
        * intros i Hi. split.
          -- apply Hkeep. unfold mask. by rewrite good_mask_lookup, Hi.
          -- unfold mask. by rewrite new_flags_lookup, Hi.
        * intros i flag Hi Hne. unfold mask.
          rewrite new_flags_lookup, Hi. simpl.
          destruct (String.eqb_spec flag "good"); done.
    - apply post_ret. split; [done|].
      exists ts, vals, flags. split; [done|].
      do 6 (split; [done|]). split; [by intros i Hi|].
      intros i flag Hi Hne. exfalso.
      apply (np_any_false _ i) in Hany. apply Hany.
      change (map negb mask) with (negb <$> mask). unfold mask.
      change (map ?g flags) with (g <$> flags).
      rewrite !list_lookup_fmap, Hi. simpl.
      destruct (String.eqb_spec flag "good"); done. }
  apply post_run in Hpost as (r & σ' & Hrun & -> & ts' & vals' & flags' & ?).
  by exists σ', ts', vals', flags'.
Qed.
Lemma only_series_written_refl a σ : only_series_written a σ σ.
Proof. by split. Qed.

Lemma only_series_written_trans a σ1 σ2 σ3 :
  only_series_written a σ1 σ2 → only_series_written a σ2 σ3 →
  only_series_written a σ1 σ3.
Proof.
  intros [Hr1 Hs1] [Hr2 Hs2]. split; [congruence|].
  intros b Hb. by rewrite Hs2, Hs1.
Qed.

Lemma only_series_written_alter a g σ :
  only_series_written a σ
    {| records := records σ; all_series := alter g a (all_series σ) |}.
Proof. split; [done|]. intros b Hb. cbn [all_series]. by rewrite lookup_alter_ne. Qed.

Lemma mark_outliers_post a shared outliers flags σ t :
  all_series σ !! a = Some t →
  (∀ i, i ∈ outliers → (i < length flags)%nat) →
  post (mark_outliers a shared flags outliers) σ (λ r σ',
    ∃ flags' t', r = Ok flags'
      ∧ only_series_written a σ σ'
      ∧ all_series σ' !! a = Some t'
      ∧ values t' = values t ∧ dates t' = dates t
      ∧ length flags' = length flags
      ∧ (∀ i, i ∈ outliers → flags' !! i = Some "outlier_corrected")
      ∧ (∀ i, i ∉ outliers → flags' !! i = flags !! i)).
Proof.
  revert flags σ t. induction outliers as [|i rest IH]; intros flags σ t Ht Hlt.
  - apply post_ret. exists flags, t. split; [done|].
    split; [apply only_series_written_refl|]. do 4 (split; [done|]).
    split; [by intros i ?%elem_of_nil | done].
  - cbn [mark_outliers]. apply post_bind, post_lift.
    assert (setitem flags i "outlier_corrected"
            = Ok (<[i := "outlier_corrected"]> flags)) as ->.
    { apply setitem_Ok. split; [|done]. apply Hlt. by left. }
    set (flags1 := <[i := "outlier_corrected"]> flags).
    assert (∃ σ1 t1,
      post (if shared then update_series a (set_quality_flags flags1) else mret ())
           σ (λ r σ', r = Ok () ∧ σ' = σ1)
      ∧ only_series_written a σ σ1 ∧ all_series σ1 !! a = Some t1
      ∧ values t1 = values t ∧ dates t1 = dates t) as (σ1 & t1 & Hstep & Hw & Ht1 & Hv1 & Hd1).
    { destruct shared.
      - eexists _, (set_quality_flags flags1 t). split; [by apply post_update_series|].
        split; [apply only_series_written_alter|]. split; [|done].
        cbn [all_series]. by rewrite lookup_alter_eq, Ht.
      - exists σ, t. split; [by apply post_ret|].
        split; [apply only_series_written_refl | done]. }
    apply post_bind. eapply post_mono; [exact Hstep|].
    intros r σ' [-> ->].
    eapply post_mono; [apply (IH flags1 σ1 t1 Ht1)|].
    { intros j Hj. unfold flags1. rewrite length_insert. apply Hlt. by right. }
    intros r σ' (flags' & t' & -> & Hw' & Ht' & Hv' & Hd' & Hlen & Hin & Hout).
    exists flags', t'. split; [done|].
    split; [by eapply only_series_written_trans|].
    split; [done|]. split; [congruence|]. split; [congruence|].
    split; [unfold flags1 in Hlen; by rewrite length_insert in Hlen|]. split.
    + intros j Hj. destruct (decide (j ∈ rest)) as [?|Hjout]; [by apply Hin|].
      apply elem_of_cons in Hj as [->|?]; [|done].
      rewrite (Hout i Hjout). unfold flags1.
      apply list_lookup_insert_eq. apply Hlt. by left.
    + intros j [Hne Hj]%not_elem_of_cons. rewrite (Hout j Hj). unfold flags1.
      by rewrite list_lookup_insert_ne.
Qed.

Lemma outlier_mask_length vals bounds :
  length (outlier_mask vals bounds) = length vals.
Proof. unfold outlier_mask. by rewrite length_map. Qed.

Lemma length_effective_flags ts vals :
  values ts = Some vals →
  (∀ flags, quality_flags ts = Some flags → length flags = length vals) →
  length (effective_flags ts) = length vals.
Proof.
  intros Hvals Hflags. unfold effective_flags. rewrite Hvals.
  destruct (quality_flags ts) as [flags|]; simpl; [by apply Hflags|].
  by rewrite length_replicate.
Qed.

End Stages.

(* ===================================================================== *)
(** * What the cleaning pipeline leaves alone *)
(* ===================================================================== *)

(** Two versions of a series with the same dates, the same units and
    as many values. *)
Definition same_shape (t' t : TimeSeries) : Prop :=
  dates t' = dates t ∧ units t' = units t
  ∧ length <$> values t' = length <$> values t.

Lemma same_shape_refl t : same_shape t t.
Proof. done. Qed.

Lemma same_shape_trans t1 t2 t3 :
  same_shape t1 t2 → same_shape t2 t3 → same_shape t1 t3.
Proof. intros (? & ? & ?) (? & ? & ?). repeat split; congruence. Qed.

Section Frame.
Context `{Libs}.
Import DataProcessor.

Lemma for_each_length {A} (f : list float64 → A → exc (list float64)) l r r' :
  (∀ r a r1, f r a = Ok r1 → length r1 = length r) →
  for_each f l r = Ok r' → length r' = length r.
Proof.
  intros Hf. revert r. induction l as [|a l IH]; intros r; simpl.
  - by intros [= ->].
  - destruct (f r a) as [r1|] eqn:Hr1; [|done]. simpl.
    intros Hr'%IH. rewrite Hr'. by eapply Hf.
Qed.

Lemma setitem_length {A} (a : list A) i x r :
  setitem a i x = Ok r → length r = length a.
Proof. intros [_ ->]%setitem_Ok. apply length_insert. Qed.

Lemma interpolate_at_length values mask valid result i r :
  interpolate_at values mask valid result i = Ok r → length r = length result.
Proof.
  unfold interpolate_at.
  destruct (find_neighbors _ _ _) as [[l|] [rn|]]; intros Hr; exc_inv Hr;
    by eapply setitem_length.
Qed.

(** Whenever the interpolation returns, it returns as many values as it
    was given. *)
Lemma _interpolate_missing_values_length values mask r :
  _interpolate_missing_values values mask = Ok r → length r = length values.
Proof.
  unfold _interpolate_missing_values. cbv zeta.
  destruct (_ <? 2)%nat.
  - intros Hr. exc_inv Hr. eapply for_each_length; [|exact Hr].
    intros ???. apply setitem_length.
  - apply for_each_length. intros ???. apply interpolate_at_length.
Qed.

Section Invariant.
Variables (σ0 : Store) (p : nat) (key : option nat).

(** What holds all along the pipeline run on the copy [p] of a record
    whose [time_series] key is [key]: the other records are those of
    [σ0], the copy still has the key, and of the series only the one
    under the key is written, and it keeps its shape. *)
Definition framed (σ : Store) : Prop :=
  (∀ x, x ≠ p → records σ !! x = records σ0 !! x)
  ∧ (∃ d, records σ !! p = Some d ∧ time_series d = key)
  ∧ (∀ b, key ≠ Some b → all_series σ !! b = all_series σ0 !! b)
  ∧ (∀ a, key = Some a →
       option_Forall2 same_shape (all_series σ !! a) (all_series σ0 !! a)).

Definition stage_frame (r : exc nat) (σ : Store) : Prop :=
  (r = Ok p ∨ ∃ e, r = Raise e) ∧ framed σ.

Lemma framed_update_series a g σ :
  key = Some a →
  (∀ t, all_series σ !! a = Some t → same_shape (g t) t) →
  framed σ →
  framed {| records := records σ; all_series := alter g a (all_series σ) |}.
Proof.
  intros Hkey Hg (Hrec & Hp & Hother & Hser).
  split; [done|]. split; [done|]. split.
  - intros b Hb. cbn [all_series]. rewrite lookup_alter_ne by congruence.
    by apply Hother.
  - intros a' Ha'. assert (a' = a) as -> by congruence.
    specialize (Hser a Hkey). cbn [all_series]. rewrite lookup_alter_eq.
    destruct Hser as [t t0 Ht|]; simpl; constructor.
    eapply same_shape_trans; [|exact Ht]. by apply Hg.
Qed.

Lemma framed_update_record g σ :
  (∀ d, time_series (g d) = time_series d) →
  framed σ →
  framed {| records := alter g p (records σ); all_series := all_series σ |}.
Proof.
  intros Hg (Hrec & (d & Hd & Hkey) & Hother & Hser).
  split; [|split; [|done]].
  - intros x Hx. cbn [records]. rewrite lookup_alter_ne by done. by apply Hrec.
  - exists (g d). cbn [records]. rewrite lookup_alter_eq, Hd. simpl.
    by rewrite Hg.
Qed.

(** Every stage starts in the same way: it reads the copy, finds the
    key, and reads the series. *)
Lemma post_open_stage (body : nat → TimeSeries → M nat) σ :
  framed σ →
  (∀ a t, key = Some a → all_series σ !! a = Some t →
          post (body a t) σ stage_frame) →
  post (d ← read_record p;
        match time_series d with
        | None => mret p
        | Some ts_addr => ts ← read_series ts_addr; body ts_addr ts
        end) σ stage_frame.
Proof.
  intros Hfr Hbody. pose proof Hfr as (_ & (d & Hd & Hkey) & _ & _).
  apply post_bind, post_read_record; [|congruence].
  intros d' Hd'. assert (d' = d) as -> by congruence. rewrite Hkey.
  destruct key as [a|]; [|apply post_ret; split; [eauto | done]].
  apply post_bind, post_read_series.
  - intros t Ht. by apply Hbody.
  - intros _. split; [eauto | done].
Qed.

Lemma post_write a g σ (f : () → M nat) :
  key = Some a →
  (∀ t, all_series σ !! a = Some t → same_shape (g t) t) →
  framed σ →
  (∀ σ', framed σ' → all_series σ' = alter g a (all_series σ) →
         post (f ()) σ' stage_frame) →
  post (update_series a g ≫= f) σ stage_frame.
Proof.
  intros Hkey Hg Hfr Hf. apply post_bind, post_update_series, Hf; [|done].
  by apply framed_update_series.
Qed.

Lemma post_lift_frame {A} (r : exc A) (f : A → M nat) σ :
  framed σ →
  (∀ a, r = Ok a → post (f a) σ stage_frame) →
  post (lift r ≫= f) σ stage_frame.
Proof.
  intros Hfr Hf. apply post_bind, post_lift. destruct r as [a|e]; [by apply Hf|].
  split; [eauto | done].
Qed.

Lemma post_done σ : framed σ → post (mret p) σ stage_frame.
Proof. intros Hfr. apply post_ret. split; [eauto | done]. Qed.

Lemma set_values_shape v t :
  length <$> values t = Some (length v) → same_shape (set_values v t) t.
Proof. intros Hv. split; [done|]. split; [done|]. by rewrite Hv. Qed.

Lemma _apply_cloud_mask_frame σ :
  framed σ → post (_apply_cloud_mask p) σ stage_frame.
Proof.
  intros Hfr. unfold _apply_cloud_mask. apply post_open_stage; [done|].
  intros a t Hkey Ht. apply post_lift_frame; [done|].
  intros v Hv. destruct (values t) as [v'|] eqn:Hvt; [|done].
  injection Hv as ->.
  apply post_lift_frame; [done|]. intros not_good _.
  destruct (np_any not_good); [|by apply post_done].
  apply post_lift_frame; [done|]. intros v' Hv'. apply _interpolate_missing_values_length in Hv'.
  apply post_write; [done| |done|].
  { intros t' Ht'. assert (t' = t) as -> by congruence.
    apply set_values_shape. by rewrite Hvt, Hv'. }
  intros σ1 Hfr1 _. apply post_write; [done..|].
  intros σ2 Hfr2 _. by apply post_done.
Qed.

Lemma mark_outliers_frame a shared flags outliers σ (f : list string → M nat) :
  key = Some a → framed σ →
  (∀ flags' σ', framed σ' → post (f flags') σ' stage_frame) →
  post (mark_outliers a shared flags outliers ≫= f) σ stage_frame.
Proof.
  intros Hkey. revert flags σ.
  induction outliers as [|i rest IH]; intros flags σ Hfr Hf.
  - apply post_bind, post_ret. by apply Hf.
  - cbn [mark_outliers]. apply post_bind, post_bind, post_lift.
    destruct (setitem flags i "outlier_corrected") as [flags1|e];
      [|split; [eauto | done]].
    apply post_bind.
    assert (∀ σ1, framed σ1 →
      post (mark_outliers a shared flags1 rest) σ1 (λ r σ',
        match r with
        | Ok a0 => post (f a0) σ' stage_frame
        | Raise e => stage_frame (Raise e) σ'
        end)) as Hrest.
    { intros σ1 Hfr1. specialize (IH flags1 σ1 Hfr1 Hf).
      unfold post in IH |- *. unfold mbind, M_bind in IH.
      destruct (mark_outliers a shared flags1 rest σ1) as [[fl|e] σ2]; exact IH. }
    destruct shared.
    + apply post_update_series. apply Hrest. by apply framed_update_series.
    + apply post_ret. by apply Hrest.
Qed.

Lemma _remove_outliers_frame σ :
  framed σ → post (_remove_outliers p) σ stage_frame.
Proof.
  intros Hfr. unfold _remove_outliers. apply post_open_stage; [done|].
  intros a t Hkey Ht. apply post_lift_frame; [done|].
  intros v Hv. destruct (values t) as [v'|] eqn:Hvt; [|done].
  injection Hv as ->.
  apply post_lift_frame; [done|]. intros bounds _.
  destruct (np_any _); [|by apply post_done].
  apply post_lift_frame; [done|]. intros v' Hv'. apply _interpolate_missing_values_length in Hv'.
  apply post_write; [done| |done|].
  { intros t' Ht'. assert (t' = t) as -> by congruence.
    apply set_values_shape. by rewrite Hvt, Hv'. }
  intros σ1 Hfr1 _. apply mark_outliers_frame; [done..|].
  intros flags' σ2 Hfr2. apply post_write; [done..|].
  intros σ3 Hfr3 _. by apply post_done.
Qed.

Lemma _apply_temporal_smoothing_frame σ :
  framed σ → post (_apply_temporal_smoothing p) σ stage_frame.
Proof.
  intros Hfr. unfold _apply_temporal_smoothing. apply post_open_stage; [done|].
  intros a t Hkey Ht. apply post_lift_frame; [done|]. intros v _.
  match goal with |- post (if ?c then _ else _) _ _ => destruct c end;
    [|by apply post_done].
  apply post_write; [done..|]. intros σ1 Hfr1 _. by apply post_done.
Qed.

Lemma _calculate_vegetation_indices_frame σ :
  framed σ → post (_calculate_vegetation_indices p) σ stage_frame.
Proof.
  intros Hfr. unfold _calculate_vegetation_indices. apply post_open_stage; [done|].
  intros a t Hkey Ht. apply post_lift_frame; [done|]. intros v _.
  destruct (str_contains _ _); [|by apply post_done].
  apply post_write; [done..|]. intros σ1 Hfr1 _.
  apply post_write; [done..|]. intros σ2 Hfr2 _.
  apply post_lift_frame; [done|]. intros lo _.
  apply post_lift_frame; [done|]. intros hi _.
  apply post_write; [done..|]. intros σ3 Hfr3 _. by apply post_done.
Qed.

Lemma _add_quality_metrics_frame σ :
  framed σ → post (_add_quality_metrics p) σ stage_frame.
Proof.
  intros Hfr. unfold _add_quality_metrics. apply post_open_stage; [done|].
  intros a t Hkey Ht. apply post_lift_frame; [done|]. intros v _.
  apply post_bind, post_update_record, post_ret.
  split; [eauto|]. by apply framed_update_record.
Qed.

Lemma post_stage_frame (m : M nat) (f : nat → M nat) σ :
  post m σ stage_frame →
  (∀ σ', framed σ' → post (f p) σ' stage_frame) →
  post (m ≫= f) σ stage_frame.
Proof.
  intros Hm Hf. apply post_bind. unfold post in *.
  destruct (m σ) as [r σ']. simpl in *.
  destruct Hm as [[->|[e ->]] Hfr]; [by apply Hf|]. split; [eauto | done].
Qed.

Lemma apply_filters_frame filters σ :
  framed σ → post (apply_filters filters p) σ stage_frame.
Proof.
  revert σ. induction filters as [|name filters IH]; intros σ Hfr.
  - by apply post_done.
  - cbn [apply_filters]. apply post_stage_frame; [|exact IH].
    destruct (filters_by_name name) as [[]|]; cbn [apply_filter].
    + by apply _apply_cloud_mask_frame.
    + by apply _remove_outliers_frame.
    + by apply _apply_temporal_smoothing_frame.
    + by apply post_done.
    + by apply post_done.
Qed.

Lemma pipeline_frame filters σ :
  framed σ →
  post (processed_data ← apply_filters filters p;
        processed_data ← _calculate_vegetation_indices processed_data;
        processed_data ← _add_quality_metrics processed_data;
        mret processed_data) σ stage_frame.
Proof.
  intros Hfr. apply post_stage_frame; [by apply apply_filters_frame|].
  intros σ1 Hfr1.
  apply post_stage_frame; [by apply _calculate_vegetation_indices_frame|].
  intros σ2 Hfr2.
  apply post_stage_frame; [by apply _add_quality_metrics_frame|].
  intros σ3 Hfr3. by apply post_done.
Qed.
End Invariant.

(** X18.  Whatever the record and the filters, [process_time_series]
    returns either a fresh copy or, after an exception, the record it
    was given; it changes no record that was there (the metrics go
    into the copy), adds and removes no series, writes no series but
    the one of the record it was given, and in that one it keeps the
    dates, the units and the number of values. *)
Theorem process_time_series_frame σ raw_data filters r σ' :
  process_time_series raw_data filters σ = (r, σ') →
  (r = Ok raw_data ∨ r = Ok (fresh (dom (records σ))))
  ∧ (∀ x d, records σ !! x = Some d → records σ' !! x = Some d)
  ∧ (∀ b, option_Forall2 same_shape (all_series σ' !! b) (all_series σ !! b))
  ∧ (∀ b, (∀ d, records σ !! raw_data = Some d → time_series d ≠ Some b) →
          all_series σ' !! b = all_series σ !! b).
Proof.
  intros Hrun.
  assert (∀ b, option_Forall2 same_shape (all_series σ !! b) (all_series σ !! b))
    as Hrefl.
  { intros b. destruct (all_series σ !! b); constructor. apply same_shape_refl. }
  set (Q := λ (r : exc nat) (σ' : Store),
    (r = Ok raw_data ∨ r = Ok (fresh (dom (records σ))))
    ∧ (∀ x d, records σ !! x = Some d → records σ' !! x = Some d)
    ∧ (∀ b, option_Forall2 same_shape (all_series σ' !! b) (all_series σ !! b))
    ∧ (∀ b, (∀ d, records σ !! raw_data = Some d → time_series d ≠ Some b) →
            all_series σ' !! b = all_series σ !! b)).
  assert (Q (Ok raw_data) σ) as Hsame.
  { split; [by left|]. split; [done|]. split; [exact Hrefl | done]. }
  assert (post (process_time_series raw_data filters) σ Q) as Hpost.
  { unfold process_time_series. apply post_try_except.
    unfold process_time_series_body, dict_copy.
    apply post_bind, post_bind, post_read_record; [|intros _; exact Hsame].
    intros d Hd. unfold post at 1, new_record. cbn [fst snd].
    set (p := fresh (dom (records σ))).
    set (σ1 := {| records := <[p := d]> (records σ);
                  all_series := all_series σ |}).
    assert (records σ !! p = None) as Hp.
    { apply not_elem_of_dom. apply is_fresh. }
    assert (framed σ p (time_series d) σ1) as Hfr.
    { split; [|split; [|split]].
      - intros x Hx. cbn [records σ1]. by rewrite lookup_insert_ne.
      - exists d. cbn [records σ1]. by rewrite lookup_insert_eq.
      - done.
      - intros a _. apply Hrefl. }
    eapply post_mono;
      [exact (pipeline_frame σ p (time_series d)
                (default default_filters filters) σ1 Hfr)|].
    intros r2 σ2 [Hr2 (Hrec & _ & Hother & Hser)].
    assert (Q (Ok p) σ2 ∧ Q (Ok raw_data) σ2) as [HQp HQraw].
    { split; (split; [eauto|]); (split; [|split]).
      all: try (intros x dx Hx; rewrite Hrec; [done|]; intros ->; congruence).
      all: try (intros b Hb; apply Hother; by apply Hb).
      all: intros b; destruct (decide (time_series d = Some b)) as [Hb|Hb];
        [by apply Hser | rewrite Hother by done; apply Hrefl]. }
    destruct Hr2 as [->|[e ->]]; [exact HQp | exact HQraw]. }
  unfold post in Hpost. rewrite Hrun in Hpost. exact Hpost.
Qed.
End Frame.

(* ===================================================================== *)
(** * Quality metrics, idle filters, and the entry points that read *)
(* ===================================================================== *)

Lemma py_clip_snr x : between 0.1 100 (F.py_min (Fin 100) (F.py_max (Fin 0.1) x)).
Proof.
  unfold F.py_max, F.py_min, F.gtb, between.
  destruct x as [q| | |]; simpl.
  - destruct (F.Qltb 0.1 q) eqn:H0; simpl.
    + destruct (F.Qltb q 100) eqn:H1.
      * apply Qltb_lt in H1, H0. exists q. split; [done|]. split; lra.
      * exists 100%Q. split; [done|]. split; lra.
    + exists 0.1%Q. split; [done|]. split; lra.
  - exists 100%Q. split; [done|]. split; lra.
  - exists 0.1%Q. split; [done|]. split; lra.
  - exists 0.1%Q. split; [done|]. split; lra.
Qed.

Lemma ratio_unit (k n : nat) :
  (k ≤ n)%nat → (0 < n)%nat → in_unit_interval (F.of_nat k / F.of_nat n)%F.
Proof.
  intros Hk Hn. unfold F.of_nat, F.of_Z. cbn [F.div].
  assert (0 < inject_Z (Z.of_nat n))%Q as Hpos.
  { change 0%Q with (inject_Z 0). rewrite <- Zlt_Qlt. lia. }
  assert (0 <= inject_Z (Z.of_nat k))%Q as Hk0.
  { change 0%Q with (inject_Z 0). rewrite <- Zle_Qle. lia. }
  assert (inject_Z (Z.of_nat k) <= inject_Z (Z.of_nat n))%Q as Hkn.
  { rewrite <- Zle_Qle. lia. }
  destruct (Qeq_bool _ 0) eqn:Hz; [apply Qeq_bool_iff in Hz; lra|].
  eexists. split; [done|]. rewrite Qred_correct. split.
  - apply Qle_shift_div_l; [done|]. lra.
  - apply Qle_shift_div_r; [done|]. lra.
Qed.

Section Metrics.
Context `{Libs}.
Import DataProcessor.

Lemma _calculate_temporal_consistency_unit values :
  in_unit_interval (_calculate_temporal_consistency values).
Proof.
  unfold _calculate_temporal_consistency. destruct (_ <? 3)%nat.
  - exists 1%Q. split; [done|]. split; lra.
  - apply py_clip_unit.
Qed.

Lemma _calculate_snr_range values : between 0.1 100 (_calculate_snr values).
Proof.
  unfold _calculate_snr. destruct (_ <? 3)%nat.
  - exists 1%Q. split; [done|]. split; lra.
  - apply py_clip_snr.
Qed.

Lemma count_flags_le p flags : (count_flags p flags ≤ length flags)%nat.
Proof. unfold count_flags. apply length_filter. Qed.

(** X19.  The quality metrics go into the record and nowhere else, and
    they are in range whatever the values are ([nan] and infinities
    included): as many observations as there are values, no more good
    flags than flags, completeness and temporal consistency in
    [0, 1], signal-to-noise ratio in [0.1, 100]. *)
Theorem _add_quality_metrics_spec σ data a ts vals :
  holds_series σ data a ts → values ts = Some vals →
  ∃ σ' d' q,
    _add_quality_metrics data σ = (Ok data, σ')
    ∧ all_series σ' = all_series σ
    ∧ (∀ x, x ≠ data → records σ' !! x = records σ !! x)
    ∧ records σ' !! data = Some d'
    ∧ time_series d' = Some a ∧ quality_metrics d' = Some q
    ∧ total_observations q = length vals
    ∧ (good_quality_count q ≤ length (default [] (quality_flags ts)))%nat
    ∧ in_unit_interval (data_completeness q)
    ∧ in_unit_interval (temporal_consistency q)
    ∧ between 0.1 100 (signal_to_noise_ratio q).
Proof.
  intros (d & Hd & Hda & Hts) Hvals.
  set (Q := λ (r : exc nat) (σ' : Store), r = Ok data ∧ ∃ d' q,
    all_series σ' = all_series σ
    ∧ (∀ x, x ≠ data → records σ' !! x = records σ !! x)
    ∧ records σ' !! data = Some d'
    ∧ time_series d' = Some a ∧ quality_metrics d' = Some q
    ∧ total_observations q = length vals
    ∧ (good_quality_count q ≤ length (default [] (quality_flags ts)))%nat
    ∧ in_unit_interval (data_completeness q)
    ∧ in_unit_interval (temporal_consistency q)
    ∧ between 0.1 100 (signal_to_noise_ratio q)).
  assert (post (_add_quality_metrics data) σ Q) as Hpost.
  { unfold _add_quality_metrics.
    apply post_bind, post_read_record; [|congruence].
    intros d' Hd'. assert (d' = d) as -> by congruence. rewrite Hda.
    apply post_bind, post_read_series; [|congruence].
    intros t Ht. assert (t = ts) as -> by congruence.
    rewrite Hvals. apply post_bind, post_lift. cbn [getitem].
    apply post_bind, post_update_record, post_ret. split; [done|].
    eexists (set_quality_metrics _ d), _. split; [done|]. split.
    { intros x Hx. cbn [records]. by rewrite lookup_alter_ne. }
    split; [cbn [records]; by rewrite lookup_alter_eq, Hd|].
    split; [done|]. split; [reflexivity|]. cbn.
    split; [done|]. split; [apply count_flags_le|]. split; [|split].
    - destruct (default [] (quality_flags ts)) as [|flag flags] eqn:Hfl.
      + exists 1%Q. split; [done|]. split; lra.
      + apply ratio_unit; [apply count_flags_le | simpl; lia].
    - apply _calculate_temporal_consistency_unit.
    - apply _calculate_snr_range. }
  apply post_run in Hpost as (r & σ' & Hrun & -> & d' & q & ?).
  by exists σ', d', q.
Qed.

(* --------------------------------------------------------------------- *)
(** ** Filters that do nothing *)

(** The filters that can change a record: an unknown name is skipped,
    and the spatial aggregation returns what it is given. *)
Definition effective (name : string) : bool :=
  match filters_by_name name with
  | Some spatial_aggregation | None => false
  | Some _ => true
  end.

Lemma apply_filters_effective filters data σ :
  apply_filters filters data σ
  = apply_filters (List.filter effective filters) data σ.
Proof.
  revert data σ. induction filters as [|name filters IH]; intros data σ; [done|].
  cbn [apply_filters List.filter]. unfold effective at 1.
  destruct (filters_by_name name) as [[]|] eqn:Hname;
    cbn [apply_filters apply_filter]; rewrite ?Hname; cbn [apply_filter];
    unfold mbind, M_bind.
  - destruct (_apply_cloud_mask data σ) as [[x|e] σ']; [apply IH | done].
  - destruct (_remove_outliers data σ) as [[x|e] σ']; [apply IH | done].
  - destruct (_apply_temporal_smoothing data σ) as [[x|e] σ']; [apply IH | done].
  - apply IH.
  - apply IH.
Qed.

(** X20.  Naming a filter that does not exist, or the spatial
    aggregation, changes nothing: cleaning with a list of filters is
    cleaning with the cloud mask, the outlier removal and the temporal
    smoothing named in it, in the same order. *)
Theorem process_time_series_effective_filters raw_data filters σ :
  process_time_series raw_data (Some filters) σ
  = process_time_series raw_data (Some (List.filter effective filters)) σ.
Proof.
  unfold process_time_series, try_except_M, process_time_series_body.
  cbn [from_option id]. unfold mbind at 1 5, M_bind at 1 5.
  destruct (dict_copy raw_data σ) as [[p|e] σ1]; [|done].
  unfold mbind at 1 4, M_bind at 1 4.
  by rewrite apply_filters_effective.
Qed.

(* --------------------------------------------------------------------- *)
(** ** The entry points that only read *)

Lemma post_lift_read {A B} (r : exc A) (f : A → M B) σ :
  (∀ a, post (f a) σ (λ _ σ', σ' = σ)) →
  post (lift r ≫= f) σ (λ _ σ', σ' = σ).
Proof. intros Hf. apply post_bind, post_lift. destruct r; [apply Hf | done]. Qed.

Lemma calculate_phenology_metrics_reads data σ :
  post (calculate_phenology_metrics data) σ (λ _ σ', σ' = σ).
Proof.
  unfold calculate_phenology_metrics.
  apply post_bind, post_read_record; [|done]. intros d _.
  destruct (time_series d); [|by apply post_ret].
  apply post_bind, post_read_series; [|done]. intros ts _.
  repeat (apply post_lift_read; intros ?). by apply post_ret.
Qed.

Lemma post_fmap_read {A B} (g : A → B) (m : M A) σ :
  post m σ (λ _ σ', σ' = σ) → post (g <$> m) σ (λ _ σ', σ' = σ).
Proof.
  unfold post, fmap, M_fmap. by destruct (m σ) as [[a|e] σ'].
Qed.

Lemma _convert_to_csv_reads data σ :
  post (_convert_to_csv data) σ (λ _ σ', σ' = σ).
Proof.
  unfold _convert_to_csv.
  apply post_bind, post_read_record; [|done]. intros d _.
  destruct (time_series d); [|by apply post_ret].
  apply post_bind, post_read_series; [|done]. intros ts _.
  repeat (apply post_lift_read; intros ?). by apply post_ret.
Qed.

Lemma _convert_to_dataframe_reads data σ :
  post (_convert_to_dataframe data) σ (λ _ σ', σ' = σ).
Proof.
  unfold _convert_to_dataframe.
  apply post_bind, post_read_record; [|done]. intros d _.
  destruct (time_series d); [|by apply post_ret].
  apply post_bind, post_read_series; [|done]. intros ts _.
  repeat (apply post_lift_read; intros ?). by apply post_lift.
Qed.

(** X21.  Computing the phenology metrics and exporting, in any format,
    only read: whether they return or raise, they leave every record
    and every series as they found it.  And the ['json'] export hands
    back the record it was given, not a copy. *)
Theorem reading_entry_points_keep_store data format_type σ :
  (calculate_phenology_metrics data σ).2 = σ
  ∧ (export_processed_data data format_type σ).2 = σ
  ∧ export_processed_data data "json" σ = (Ok (ExportedJson data), σ).
Proof.
  split; [apply calculate_phenology_metrics_reads|]. split; [|done].
  unfold export_processed_data.
  destruct (String.eqb format_type "json"); [done|].
  destruct (String.eqb format_type "csv");
    [apply (post_fmap_read ExportedCsv), _convert_to_csv_reads|].
  destruct (String.eqb format_type "dataframe"); [|done].
  apply (post_fmap_read ExportedDataFrame), _convert_to_dataframe_reads.
Qed.
End Metrics.

(* ===================================================================== *)
(** * The phenology metrics *)
(* ===================================================================== *)

(** A float that is neither [nan] nor an infinity. *)
Definition finite (x : float64) : Prop := ∃ q, x = Fin q.

Section Phenology.
Context `{Libs}.
Import DataProcessor.

(** A loop that keeps the first index at which a test succeeds. *)
Lemma for_each_first (test : nat → exc (option nat)) (P : nat → Prop) l found0 :
  (∀ i, i ∈ l → ∃ o, test i = Ok o ∧ ∀ j, o = Some j → P j) →
  (∀ j, found0 = Some j → P j) →
  ∃ r, for_each (λ (found : option nat) i,
                   match found with Some _ => Ok found | None => test i end)
                l found0 = Ok r
       ∧ ∀ j, r = Some j → P j.
Proof.
  revert found0. induction l as [|i l IH]; intros found0 Htest Hfound; [by eauto|].
  cbn [for_each]. destruct found0 as [j0|].
  - cbn [mbind exc_bind]. apply IH; [|done]. intros j Hj. apply Htest. by right.
  - destruct (Htest i) as (o & -> & Ho); [by left|]. cbn [mbind exc_bind].
    apply IH; [|done]. intros j Hj. apply Htest. by right.
Qed.


Lemma argmax_from_spec a pre bv best i :
  finite bv → Forall finite a →
  i = length pre → (best < i)%nat → pre !! best = Some bv →
  (∀ j v, pre !! j = Some v →
          (v <=? bv)%F = true ∧ ((j < best)%nat → (v <? bv)%F = true)) →
  ∃ m, (pre ++ a) !! argmax_from a i best bv = Some m
       ∧ ∀ j v, (pre ++ a) !! j = Some v →
                (v <=? m)%F = true
                ∧ ((j < argmax_from a i best bv)%nat → (v <? m)%F = true).
Proof.
  intros [qb ->] Ha. revert pre qb best i.
  induction Ha as [|x a [qx ->] Ha IH]; intros pre qb best i Hi Hbest Hpre Hmax.
  - cbn [argmax_from]. rewrite app_nil_r. eauto.
  - cbn [argmax_from F.is_nan orb]. unfold F.gtb. cbn [F.ltb].
    replace (pre ++ Fin qx :: a) with ((pre ++ [Fin qx]) ++ a)
      by (by rewrite <- app_assoc).
    assert (S i = length (pre ++ [Fin qx])) as HSi
      by (rewrite length_app; simpl; lia).
    destruct (F.Qltb qb qx) eqn:Hlt.
    + apply Qltb_lt in Hlt. apply IH; [done|lia| |].
      * rewrite lookup_app_r by lia. by replace (i - length pre)%nat with 0%nat by lia.
      * intros j v Hj.
        apply lookup_app_Some in Hj as [Hj|[Hge Hj]].
        -- destruct (Hmax j v Hj) as [Hle _]. apply lookup_lt_Some in Hj as Hjlt.
           destruct v as [qv| | |]; try done. cbn [F.leb] in Hle.
           apply Qle_bool_iff in Hle. split.
           ++ cbn [F.leb]. apply Qle_bool_iff. lra.
           ++ intros _. cbn [F.ltb]. apply Qltb_lt. lra.
        -- apply list_lookup_singleton_Some in Hj as [Hj0 <-]. split.
           ++ cbn [F.leb]. apply Qle_bool_iff. lra.
           ++ lia.
    + apply Qltb_ge in Hlt. apply IH; [done|lia| |].
      * by apply lookup_app_l_Some.
      * intros j v Hj. apply lookup_app_Some in Hj as [Hj|[Hge Hj]].
        -- by apply Hmax.
        -- apply list_lookup_singleton_Some in Hj as [Hj0 <-]. split.
           ++ cbn [F.leb]. apply Qle_bool_iff. lra.
           ++ apply lookup_lt_Some in Hpre. lia.
Qed.

(** On finite values, [np.argmax] is the first index of the maximum. *)
Lemma np_argmax_spec values :
  values ≠ [] → Forall finite values →
  ∃ k m, np_argmax values = Ok k ∧ values !! k = Some m
         ∧ ∀ j v, values !! j = Some v →
                  (v <=? m)%F = true ∧ ((j < k)%nat → (v <? m)%F = true).
Proof.
  destruct values as [|x a]; [done|]. intros _ [Hx Ha]%Forall_cons.
  destruct (argmax_from_spec a [x] x 0 1 Hx Ha) as (m & Hm & Hmax).
  - done.
  - lia.
  - done.
  - intros [|j] v Hj; [|done]. injection Hj as <-. destruct Hx as [q ->].
    split; [|lia]. simpl. apply Qle_bool_iff. lra.
  - exists (argmax_from a 1 0 x), m. by split.
Qed.

Lemma _find_season_start_spec values :
  values ≠ [] →
  ∃ o, _find_season_start values = Ok o
       ∧ ∀ j, o = Some j → (0 < j < length values)%nat.
Proof.
  intros Hne. unfold _find_season_start.
  destruct (_ <? 5)%nat; [exists None; by split|].
  assert (∃ lo hi, np_min values = Ok lo ∧ np_max values = Ok hi)
    as (lo & hi & -> & ->) by (destruct values; [done | simpl; eauto]).
  cbn [mbind exc_bind].
  set (threshold := (lo + Fin 0.2 * (hi - lo))%F).
  destruct (for_each_first
              (λ i, v ← index values i; w ← index values (i + 1);
                    Ok (if (v <? threshold)%F && (w >=? threshold)%F
                        then Some (i + 1)%nat else None))
              (λ j, (0 < j < length values)%nat)
              (range 0 (length values - 2)) None) as (r & Hr & HP); [|done|].
  - intros i Hi. unfold range in Hi. apply elem_of_seq in Hi.
    destruct (lookup_lt_is_Some_2 values i) as [v Hvi]; [lia|].
    destruct (lookup_lt_is_Some_2 values (i + 1)) as [w Hwi]; [lia|].
    apply index_Ok in Hvi, Hwi. rewrite Hvi, Hwi. cbn [mbind exc_bind].
    eexists. split; [done|]. intros j Hj.
    destruct (_ && _); [|done]. injection Hj as <-. lia.
  - rewrite Hr. cbn [mbind exc_bind]. eauto.
Qed.

Lemma _find_season_end_spec values k :
  (k < length values)%nat →
  ∃ o, _find_season_end values k = Ok o
       ∧ ∀ j, o = Some j → (k < j < length values)%nat.
Proof.
  intros Hk. unfold _find_season_end.
  destruct (Nat.leb_spec (length values) (k + 1)); [exists None; by split|].
  destruct (lookup_lt_is_Some_2 values k) as [peak_val Hpeak]; [lia|].
  apply index_Ok in Hpeak. rewrite Hpeak. cbn [mbind exc_bind].
  destruct (for_each_first
              (λ i, v ← index values i;
                    Ok (if (v <=? peak_val * Fin 0.5)%F then Some i else None))
              (λ j, (k < j < length values)%nat)
              (range (k + 1) (length values)) None) as (r & Hr & HP); [|done|].
  - intros i Hi. unfold range in Hi. apply elem_of_seq in Hi.
    destruct (lookup_lt_is_Some_2 values i) as [v Hvi]; [lia|].
    apply index_Ok in Hvi. rewrite Hvi. cbn [mbind exc_bind].
    eexists. split; [done|]. intros j Hj.
    destruct (_ <=? _)%F; [|done]. injection Hj as <-. lia.
  - rewrite Hr. cbn [mbind exc_bind]. eexists. split; [done|].
    intros j [= <-]. destruct r as [j|]; simpl; [by apply HP | lia].
Qed.

(** X22.  For a record with at least one value, all finite, and as many
    dates, all parsed, [calculate_phenology_metrics] returns metrics,
    and: the peak is the first maximum of the values, dated as that
    observation; the end of the season, when there is one, is the date
    of a later observation, and the start that of an observation after
    the first; the season length is the days from start to end when
    both are there. *)
Theorem calculate_phenology_metrics_spec σ data a ts raw parsed vals :
  holds_series σ data a ts →
  dates ts = Some raw → values ts = Some vals →
  mapM parse_date raw = Ok parsed →
  length raw = length vals → vals ≠ [] → Forall finite vals →
  ∃ m k,
    calculate_phenology_metrics data σ = (Ok (Some m), σ)
    ∧ parsed !! k = Some (peak_of_season m)
    ∧ vals !! k = Some (pheno_peak_value m)
    ∧ (∀ j v, vals !! j = Some v →
              (v <=? pheno_peak_value m)%F = true
              ∧ ((j < k)%nat → (v <? pheno_peak_value m)%F = true))
    ∧ (∀ e, end_of_season m = Some e →
            ∃ j, (k < j)%nat ∧ parsed !! j = Some e)
    ∧ (∀ s, start_of_season m = Some s →
            ∃ j, (0 < j)%nat ∧ parsed !! j = Some s)
    ∧ season_length_days m
      = (s ← start_of_season m; e ← end_of_season m; Some (e - s)).
Proof.
  intros (d & Hd & Hda & Hts) Hraw Hvals Hparsed Hlen Hne Hfin.
  assert (length parsed = length vals) as Hlenp.
  { apply mapM_Ok_length in Hparsed. congruence. }
  destruct (np_argmax_spec vals Hne Hfin) as (k & peak & Hk & Hpeak & Hmax).
  assert (k < length vals)%nat as Hklt by (by eapply lookup_lt_Some).
  destruct (_find_season_start_spec vals Hne) as (sos_idx & Hsos & Hsosr).
  destruct (_find_season_end_spec vals k Hklt) as (eos_idx & Heos & Heosr).
  destruct (lookup_lt_is_Some_2 parsed k) as [pos Hpos]; [lia|].
  assert (∃ sos, match sos_idx with
                 | Some i => Some <$> index parsed i
                 | None => Ok None
                 end = Ok sos
                 ∧ ∀ s, sos = Some s → ∃ j, (0 < j)%nat ∧ parsed !! j = Some s)
    as (sos & Hsosd & Hsosp).
  { destruct sos_idx as [i|]; [|exists None; by split].
    destruct (Hsosr i eq_refl) as [? ?].
    destruct (lookup_lt_is_Some_2 parsed i) as [s Hs]; [lia|].
    exists (Some s). apply index_Ok in Hs as Hs'. rewrite Hs'. split; [done|].
    intros s' [= <-]. eauto. }
  assert (∃ eos, match eos_idx with
                 | Some i => Some <$> index parsed i
                 | None => Ok None
                 end = Ok eos
                 ∧ ∀ e, eos = Some e → ∃ j, (k < j)%nat ∧ parsed !! j = Some e)
    as (eos & Heosd & Heosp).
  { destruct eos_idx as [i|]; [|exists None; by split].
    destruct (Heosr i eq_refl) as [? ?].
    destruct (lookup_lt_is_Some_2 parsed i) as [e He]; [lia|].
    exists (Some e). apply index_Ok in He as He'. rewrite He'. split; [done|].
    intros e' [= <-]. eauto. }
  assert (∃ lo hi, np_min vals = Ok lo ∧ np_max vals = Ok hi)
    as (lo & hi & Hlo & Hhi) by (destruct vals; [done | simpl; eauto]).
  apply index_Ok in Hpos as Hpos', Hpeak as Hpeak'.
  eexists _, k. split; [|split; [|split; [|split; [|split; [|split]]]]].
  - unfold calculate_phenology_metrics, mbind, M_bind, read_record, read_series,
      lift, mret, M_ret.
    rewrite Hd, Hda, Hts, Hraw. cbn [getitem]. rewrite Hparsed, Hvals.
    cbn [getitem]. rewrite Hsos, Hsosd, Hk, Hpos', Hpeak', Heos, Heosd, Hhi, Hlo.
    reflexivity.
  - done.
  - done.
  - done.
  - done.
  - done.
  - cbn [season_length_days start_of_season end_of_season].
    by destruct sos, eos.
Qed.
End Phenology.

(* ===================================================================== *)
(** * The detector after a repair of the series *)
(* ===================================================================== *)

Lemma StronglySorted_lt_ext (l1 l2 : list nat) :
  StronglySorted lt l1 → StronglySorted lt l2 →
  (∀ i, i ∈ l1 ↔ i ∈ l2) → l1 = l2.
Proof.
  intros Hs1. revert l2. induction Hs1 as [|x l1 Hs1 IH Hx]; intros l2 Hs2 Hext.
  - destruct l2 as [|y l2]; [done|].
    specialize (Hext y). rewrite elem_of_nil in Hext.
    exfalso. apply Hext. by left.
  - destruct Hs2 as [|y l2 Hs2 Hy].
    { specialize (Hext x). rewrite elem_of_nil in Hext.
      exfalso. apply Hext. by left. }
    rewrite Forall_forall in Hx, Hy.
    assert (x = y) as ->.
    { pose proof (proj1 (Hext x) (list_elem_of_here _ _)) as Hx2.
      pose proof (proj2 (Hext y) (list_elem_of_here _ _)) as Hy1.
      apply elem_of_cons in Hx2 as [?|Hx2]; [done|].
      apply elem_of_cons in Hy1 as [?|Hy1]; [done|].
      specialize (Hx _ Hy1). specialize (Hy _ Hx2). lia. }
    f_equal. apply IH; [done|]. intros i. split.
    + intros Hi. specialize (Hx _ Hi).
      pose proof (proj1 (Hext i) (list_elem_of_further _ _ _ Hi)) as Hi2.
      apply elem_of_cons in Hi2 as [->|?]; [lia | done].
    + intros Hi. specialize (Hy _ Hi).
      pose proof (proj2 (Hext i) (list_elem_of_further _ _ _ Hi)) as Hi1.
      apply elem_of_cons in Hi1 as [->|?]; [lia | done].
Qed.

Lemma mapM_ext_in {A B} (f g : A → exc B) l :
  (∀ x, x ∈ l → f x = g x) → mapM f l = mapM g l.
Proof.
  induction l as [|a l IH]; intros Hfg; [done|].
  cbn [mapM]. rewrite (Hfg a) by (by left).
  rewrite IH; [done|]. intros x Hx. apply Hfg. by right.
Qed.

Section DetectorReads.
Context `{Libs}.
Import FloweringDetector.

Lemma good_indices_ext flags flags' :
  (∀ i, flags' !! i = Some "good" ↔ flags !! i = Some "good") →
  good_indices flags' = good_indices flags.
Proof.
  intros Hext. apply StronglySorted_lt_ext.
  - apply (omap_enumerate_sorted (λ flag, String.eqb flag "good")).
  - apply (omap_enumerate_sorted (λ flag, String.eqb flag "good")).
  - intros i. by rewrite !elem_of_good_indices.
Qed.

(** X23.  The detector reads the observations of good quality and
    nothing else of the series: two records with the same location and
    product, the same dates, the same good positions and the same
    values there give the same events, whatever the other values and
    flags are.  (So what the cloud mask writes at the positions it
    marks ['interpolated'] never reaches the detector.) *)
Theorem detect_events_reads_good_only data data' ts ts' vals vals' algorithm :
  location data' = location data → product_info data' = product_info data →
  time_series data = Some ts → time_series data' = Some ts' →
  dates ts' = dates ts →
  values ts = Some vals → values ts' = Some vals' →
  length vals' = length vals →
  (∀ i, effective_flags ts' !! i = Some "good"
        ↔ effective_flags ts !! i = Some "good") →
  (∀ i, effective_flags ts !! i = Some "good" → vals' !! i = vals !! i) →
  detect_events data' algorithm = detect_events data algorithm.
Proof.
  intros Hloc Hinfo Hts Hts' Hdates Hv Hv' Hlen Hflags Hvals.
  assert (_validate_data data' = _validate_data data) as Hvalid.
  { unfold _validate_data. rewrite Hts, Hts', Hloc, Hdates, Hv, Hv'.
    destruct (location data), (dates ts); try done. by rewrite Hlen. }
  assert (∀ event, _enrich_event event data' = _enrich_event event data) as Henr.
  { intros event. unfold _enrich_event. by rewrite Hloc, Hinfo. }
  assert (default (replicate (length vals') "good") (quality_flags ts')
          = effective_flags ts') as Heff'
    by (unfold effective_flags; by rewrite Hv').
  assert (default (replicate (length vals) "good") (quality_flags ts)
          = effective_flags ts) as Heff
    by (unfold effective_flags; by rewrite Hv).
  pose proof (good_indices_ext _ _ Hflags) as Hgood.
  unfold detect_events. f_equal.
  unfold detect_events_body. rewrite Hvalid.
  destruct (negb _); [done|].
  rewrite Hts, Hts'. cbn [mbind exc_bind getitem]. rewrite Hdates.
  destruct (dates ts) as [raw|]; [|done]. cbn [mbind exc_bind getitem].
  destruct (mapM parse_date raw) as [parsed|]; [|done]. cbn [mbind exc_bind].
  rewrite Hv, Hv'. cbn [mbind exc_bind getitem]. cbv zeta. rewrite Heff, Heff'.
  fold (good_indices (effective_flags ts')).
  fold (good_indices (effective_flags ts)). rewrite Hgood.
  destruct (_ <? 3)%nat; [done|].
  destruct (mapM (index parsed) _) as [clean_dates|]; [|done].
  cbn [mbind exc_bind].
  assert (fancy_index vals' (good_indices (effective_flags ts))
          = fancy_index vals (good_indices (effective_flags ts))) as ->.
  { apply mapM_ext_in. intros i Hi%elem_of_good_indices.
    unfold index. by rewrite Hvals. }
  destruct (fancy_index vals _) as [clean_values|]; [|done].
  cbn [mbind exc_bind].
  destruct (run_algorithm _ _ _) as [events|]; [|done]. cbn [mbind exc_bind].
  by apply mapM_ext_in.
Qed.
End DetectorReads.

(* ===================================================================== *)
(** * The CSV export *)
(* ===================================================================== *)

Section CsvExport.
Context `{Libs}.
Import DataProcessor.

(** The additional channels a series has, in the order of the export. *)
Definition extra_channels (ts : TimeSeries) : list (list float64) :=
  omap id [values_smoothed ts; evi_approximated ts; savi_approximated ts].

Lemma length_not_zero {A} (l : list A) : l ≠ [] → (length l =? 0)%nat = false.
Proof. destruct l; [done|]. by intros _. Qed.

(** X24.  The CSV export of a series with dates and values.  When the
    values, the flags and every additional channel have the length of
    the dates, it gives a frame that starts with the columns [date],
    [value] and [quality_flag], has one more column for each additional
    channel, and whose columns all have the length of the dates.  When
    one of them has another length and there is at least one date, it
    raises [ValueError].  A series without dates, values and flags takes
    the length of its additional channels when they agree on one. *)
Theorem _convert_to_csv_spec σ data a ts raw vals :
  holds_series σ data a ts → dates ts = Some raw → values ts = Some vals →
  let flags := default (replicate (length vals) "good") (quality_flags ts) in
  let fits :=
    length vals = length raw ∧ length flags = length raw
    ∧ Forall (λ c, length c = length raw) (extra_channels ts) in
  (fits →
   ∃ df, _convert_to_csv data σ = (Ok (Some df), σ)
         ∧ length df = (3 + length (extra_channels ts))%nat
         ∧ take 3 df.*1 = ["date"; "value"; "quality_flag"]
         ∧ Forall (λ c, column_length c.2 = length raw) df)
  ∧ (raw ≠ [] → ¬ fits → _convert_to_csv data σ = (Raise ValueError, σ))
  ∧ (raw = [] → vals = [] → flags = [] →
     ∀ n, Forall (λ c, length c = n) (extra_channels ts) →
     ∃ df, _convert_to_csv data σ = (Ok (Some df), σ)
           ∧ length df = (3 + length (extra_channels ts))%nat
           ∧ take 3 df.*1 = ["date"; "value"; "quality_flag"]
           ∧ (extra_channels ts ≠ [] →
              Forall (λ c, column_length c.2 = n) df)).
Proof.
  intros (d & Hd & Hda & Hts) Hraw Hvals flags fits. subst fits.
  unfold _convert_to_csv, mbind, M_bind, read_record, read_series, lift, mret,
    M_ret.
  rewrite Hd, Hda, Hts, Hraw, Hvals. cbn [getitem]. fold flags.
  unfold make_frame, add_optional_columns, extra_channels.
  cbn [forallb column_length snd for_each omap fst].
  split; [|split].
  - intros (Hv & Hf & Hall). rewrite Hv, Hf, !Nat.eqb_refl.
    cbn [andb mbind exc_bind].
    destruct (values_smoothed ts) as [c1|]; cbn [add_column column_length id];
      [apply Forall_cons in Hall as [H1 Hall]; rewrite H1, Nat.eqb_refl|];
      cbn [mbind exc_bind app];
    (destruct (evi_approximated ts) as [c2|]; cbn [add_column column_length id];
      [apply Forall_cons in Hall as [H2 Hall]; rewrite H2, Nat.eqb_refl|];
      cbn [mbind exc_bind app]);
    (destruct (savi_approximated ts) as [c3|]; cbn [add_column column_length id];
      [apply Forall_cons in Hall as [H3 Hall]; rewrite H3, Nat.eqb_refl|];
      cbn [mbind exc_bind app]).
    all: eexists; split; [reflexivity|]; split; [reflexivity|];
      split; [reflexivity|];
      repeat (apply Forall_cons; split; [cbn; congruence|]);
      by apply Forall_nil.
  - intros Hne Hnot. apply length_not_zero in Hne as Hzero.
    destruct (Nat.eqb_spec (length vals) (length raw)) as [Hv|Hv]; [|done].
    destruct (Nat.eqb_spec (length flags) (length raw)) as [Hf|Hf]; [|done].
    cbn [andb mbind exc_bind].
    destruct (values_smoothed ts) as [c1|]; cbn [add_column column_length id];
      [destruct (Nat.eqb_spec (length c1) (length raw)) as [H1|H1];
       [|by rewrite Hzero]|];
      cbn [mbind exc_bind app];
    (destruct (evi_approximated ts) as [c2|]; cbn [add_column column_length id];
      [destruct (Nat.eqb_spec (length c2) (length raw)) as [H2|H2];
       [|by rewrite Hzero]|];
      cbn [mbind exc_bind app]);
    (destruct (savi_approximated ts) as [c3|]; cbn [add_column column_length id];
      [destruct (Nat.eqb_spec (length c3) (length raw)) as [H3|H3];
       [|by rewrite Hzero]|];
      cbn [mbind exc_bind app]).
    all: exfalso; apply Hnot; split; [done|]; split; [done|];
      cbn [omap list_omap id];
      repeat (apply Forall_cons; split; [done|]); by apply Forall_nil.
  - intros -> -> Hflags n Hall. rewrite Hflags.
    cbn [length Nat.eqb andb mbind exc_bind].
    destruct (values_smoothed ts) as [c1|], (evi_approximated ts) as [c2|],
      (savi_approximated ts) as [c3|];
      cbn [omap list_omap id] in Hall;
      repeat (apply Forall_cons in Hall as [? Hall]);
      destruct n as [|n];
      repeat (first
        [ progress cbn [add_column column_length id map fst snd mbind exc_bind
                        app for_each length]
        | rewrite Nat.eqb_refl
        | progress change (S n =? 0)%nat with false
        | match goal with Hc : length ?c = _ |- _ => rewrite Hc end ]).
    all: eexists; split; [reflexivity|]; split; [reflexivity|];
      split; [reflexivity|]; intros Hsome; try (by destruct Hsome);
      repeat (apply Forall_cons; split; [cbn; congruence|]);
      by apply Forall_nil.
Qed.
End CsvExport.

(* ===================================================================== *)
(** * The vegetation indices *)
(* ===================================================================== *)

Lemma np_clip_range x :
  F.np_clip x (Fin (-1)) (Fin 1) = NaN ∨ between (-1) 1 (F.np_clip x (Fin (-1)) (Fin 1)).
Proof.
  unfold F.np_clip, F.gtb. destruct x as [q| | |]; cbn [F.is_nan F.ltb].
  - right. destruct (F.Qltb q (-1)) eqn:Hlo; cbn [F.ltb].
    + exists (-1)%Q. split; [done|]. split; lra.
    + apply Qltb_ge in Hlo. destruct (F.Qltb 1 q) eqn:Hhi.
      * exists 1%Q. split; [done|]. split; lra.
      * apply Qltb_ge in Hhi. exists q. split; [done|]. split; lra.
  - right. exists 1%Q. split; [done|]. split; lra.
  - right. exists (-1)%Q. split; [done|]. split; lra.
  - by left.
Qed.

Section Indices.
Context `{Libs}.
Import DataProcessor.

Lemma foldl_np_minimum a qa :
  Forall finite a →
  ∃ lo, foldl np_minimum (Fin qa) a = Fin lo
        ∧ (lo <= qa)%Q ∧ ∀ q, Fin q ∈ a → (lo <= q)%Q.
Proof.
  intros Ha. revert qa. induction Ha as [|x a [qx ->] _ IH]; intros qa.
  - exists qa. split; [done|]. split; [lra|]. by intros q ?%elem_of_nil.
  - cbn [foldl]. unfold np_minimum at 2. cbn [F.is_nan orb F.ltb].
    destruct (F.Qltb qx qa) eqn:Hlt;
      [apply Qltb_lt in Hlt; destruct (IH qx) as (lo & -> & Hlo & Hall)
      |apply Qltb_ge in Hlt; destruct (IH qa) as (lo & -> & Hlo & Hall)];
      exists lo; (split; [done|]); (split; [lra|]);
      intros q [[= ->]|Hq]%elem_of_cons; try lra; by apply Hall.
Qed.

Lemma foldl_np_maximum a qa :
  Forall finite a →
  ∃ hi, foldl np_maximum (Fin qa) a = Fin hi
        ∧ (qa <= hi)%Q ∧ ∀ q, Fin q ∈ a → (q <= hi)%Q.
Proof.
  intros Ha. revert qa. induction Ha as [|x a [qx ->] _ IH]; intros qa.
  - exists qa. split; [done|]. split; [lra|]. by intros q ?%elem_of_nil.
  - cbn [foldl]. unfold np_maximum at 2. cbn [F.is_nan orb F.ltb].
    destruct (F.Qltb qa qx) eqn:Hlt;
      [apply Qltb_lt in Hlt; destruct (IH qx) as (hi & -> & Hhi & Hall)
      |apply Qltb_ge in Hlt; destruct (IH qa) as (hi & -> & Hhi & Hall)];
      exists hi; (split; [done|]); (split; [lra|]);
      intros q [[= ->]|Hq]%elem_of_cons; try lra; by apply Hall.
Qed.

(** On finite values, [np.min] and [np.max] bound every value. *)
Lemma np_min_max_finite values :
  values ≠ [] → Forall finite values →
  ∃ lo hi, np_min values = Ok (Fin lo) ∧ np_max values = Ok (Fin hi)
           ∧ ∀ q, Fin q ∈ values → (lo <= q <= hi)%Q.
Proof.
  destruct values as [|x a]; [done|]. intros _ [[qx ->] Ha]%Forall_cons.
  destruct (foldl_np_minimum a qx Ha) as (lo & Hlo & Hlox & Hloa).
  destruct (foldl_np_maximum a qx Ha) as (hi & Hhi & Hhix & Hhia).
  exists lo, hi. cbn [np_min np_max]. rewrite Hlo, Hhi.
  split; [done|]. split; [done|].
  intros q [[= ->]|Hq]%elem_of_cons; [lra|]. split; [by apply Hloa | by apply Hhia].
Qed.

Lemma greenness_unit (q lo hi : Q) :
  (lo <= q <= hi)%Q →
  ((Fin q - Fin lo) / (Fin hi - Fin lo))%F = NaN
  ∨ in_unit_interval ((Fin q - Fin lo) / (Fin hi - Fin lo))%F.
Proof.
  intros [Hlo Hhi]. unfold F.sub. cbn [F.neg F.add F.div].
  destruct (Qeq_bool (Qred (hi + Qred (- lo))) 0) eqn:Hz.
  - apply Qeq_bool_iff in Hz. rewrite !Qred_correct in Hz.
    assert (Qred (q + Qred (- lo)) == 0)%Q as Hq
      by (rewrite !Qred_correct; lra).
    left. assert (Qnum (Qred (q + Qred (- lo))) = 0) as ->; [|done].
    unfold Qeq in Hq. simpl in Hq. lia.
  - apply Qeq_bool_neq in Hz. rewrite !Qred_correct in Hz.
    right. eexists. split; [done|].
    rewrite !Qred_correct.
    assert (0 < hi + - lo)%Q as Hpos by lra. split.
    + apply Qle_shift_div_l; [done|]. lra.
    + apply Qle_shift_div_r; [done|]. lra.
Qed.

(** X25.  The vegetation indices are computed only for a series whose
    units mention NDVI.  Then, for at least one value, three channels
    are added to the series and nothing else is written; each has one
    entry for each value; an entry of the approximated EVI is [nan] or
    lies in [-1, 1]; and for finite values an entry of the greenness
    index is [nan] (all values equal) or lies in [0, 1]. *)
Theorem _calculate_vegetation_indices_spec σ data a ts vals :
  holds_series σ data a ts → values ts = Some vals →
  (str_contains "NDVI" (default "" (units ts)) = false →
   _calculate_vegetation_indices data σ = (Ok data, σ))
  ∧ (str_contains "NDVI" (default "" (units ts)) = true → vals ≠ [] →
     ∃ σ' ts' evi savi green,
       _calculate_vegetation_indices data σ = (Ok data, σ')
       ∧ only_series_written a σ σ'
       ∧ all_series σ' !! a = Some ts'
       ∧ dates ts' = dates ts ∧ values ts' = values ts
       ∧ quality_flags ts' = quality_flags ts
       ∧ evi_approximated ts' = Some evi
       ∧ savi_approximated ts' = Some savi
       ∧ greenness_index ts' = Some green
       ∧ length evi = length vals ∧ length savi = length vals
       ∧ length green = length vals
       ∧ Forall (λ x, x = NaN ∨ between (-1) 1 x) evi
       ∧ (Forall finite vals →
          Forall (λ x, x = NaN ∨ in_unit_interval x) green)).
Proof.
  intros (d & Hd & Hda & Hts) Hvals. split.
  - intros Hunits.
    unfold _calculate_vegetation_indices, mbind, M_bind, read_record,
      read_series, lift, mret, M_ret.
    rewrite Hd, Hda, Hts, Hvals. cbn [getitem]. by rewrite Hunits.
  - intros Hunits Hne.
    assert (∃ lo hi, np_min vals = Ok lo ∧ np_max vals = Ok hi)
      as (lo & hi & Hlo & Hhi) by (destruct vals; [done | simpl; eauto]).
    eexists _, _, _, _, _. split; [|split; [|split]].
    + unfold _calculate_vegetation_indices, mbind, M_bind, read_record,
        read_series, lift, mret, M_ret, update_series.
      rewrite Hd, Hda, Hts, Hvals. cbn [getitem]. rewrite Hunits.
      cbn [fst snd]. rewrite Hlo, Hhi. reflexivity.
    + split; [done|]. intros b Hb. cbn [all_series].
      by rewrite !lookup_alter_ne.
    + cbn [all_series]. rewrite !lookup_alter_eq, Hts. reflexivity.
    + cbn. split; [done|]. split; [done|]. split; [done|].
      split; [reflexivity|]. split; [reflexivity|]. split; [reflexivity|].
      unfold _approximate_evi_from_ndvi. rewrite !length_map.
      split; [done|]. split; [done|]. split; [done|]. split.
      * apply Forall_forall. intros x Hx.
        apply list_elem_of_In, in_map_iff in Hx as (n & <- & _).
        apply np_clip_range.
      * intros Hfin.
        destruct (np_min_max_finite vals Hne Hfin) as (qlo & qhi & Hlo' & Hhi' & Hb).
        assert (lo = Fin qlo ∧ hi = Fin qhi) as [-> ->] by (split; congruence).
        apply Forall_forall. intros x Hx.
        apply list_elem_of_In, in_map_iff in Hx as (v & <- & Hv%list_elem_of_In).
        rewrite Forall_forall in Hfin. destruct (Hfin v Hv) as [q ->].
        apply greenness_unit. by apply Hb.
Qed.
End Indices.

(* ===================================================================== *)
(** * The temporal smoothing, on the store *)
(* ===================================================================== *)

Section TemporalSmoothing.
Context `{Libs}.
Import DataProcessor.

(** X26.  The temporal smoothing does nothing to a series of fewer than
    six values.  From six values on it adds a smoothed channel, of a
    window of [min(5, n // 2)] values, which is 3 to 5, and writes
    nothing else: the values, the flags and the dates stay, and the
    channel has one entry for each value. *)
Theorem _apply_temporal_smoothing_spec σ data a ts vals :
  holds_series σ data a ts → values ts = Some vals →
  ((length vals < 6)%nat → _apply_temporal_smoothing data σ = (Ok data, σ))
  ∧ ((6 ≤ length vals)%nat →
     ∃ σ' ts' smoothed w,
       _apply_temporal_smoothing data σ = (Ok data, σ')
       ∧ only_series_written a σ σ'
       ∧ all_series σ' !! a = Some ts'
       ∧ dates ts' = dates ts ∧ values ts' = values ts
       ∧ quality_flags ts' = quality_flags ts
       ∧ values_smoothed ts' = Some smoothed
       ∧ smoothing_applied ts' = Some w
       ∧ w = Nat.min 5 (length vals / 2) ∧ (3 ≤ w ≤ 5)%nat
       ∧ length smoothed = length vals).
Proof.
  intros (d & Hd & Hda & Hts) Hvals.
  assert (∀ σ', _apply_temporal_smoothing data σ = σ' ↔
    (if (3 <=? Nat.min 5 (length vals / 2))%nat
     then (Ok data,
           {| records := records σ;
              all_series :=
                alter (set_smoothed
                         (rolling_mean (Nat.min 5 (length vals / 2)) vals)
                         (Nat.min 5 (length vals / 2))) a (all_series σ) |})
     else (Ok data, σ)) = σ') as Hrun.
  { intros σ'.
    unfold _apply_temporal_smoothing, mbind, M_bind, read_record, read_series,
      lift, mret, M_ret, update_series.
    rewrite Hd, Hda, Hts, Hvals. cbn [getitem].
    by destruct (3 <=? _)%nat. }
  split.
  - intros Hlen. apply Hrun.
    destruct (Nat.leb_spec 3 (Nat.min 5 (length vals / 2))) as [Hw|]; [|done].
    exfalso.
    pose proof (Nat.Div0.div_lt_upper_bound (length vals) 2 3). lia.
  - intros Hlen.
    assert (3 ≤ Nat.min 5 (length vals / 2))%nat as Hw.
    { pose proof (Nat.div_le_lower_bound (length vals) 2 3). lia. }
    set (w := Nat.min 5 (length vals / 2)) in *.
    exists {| records := records σ;
              all_series := alter (set_smoothed (rolling_mean w vals) w) a
                                  (all_series σ) |},
      (set_smoothed (rolling_mean w vals) w ts), (rolling_mean w vals), w.
    split; [|split; [|split]].
    + apply Hrun. apply Nat.leb_le in Hw. by rewrite Hw.
    + apply only_series_written_alter.
    + cbn [all_series]. by rewrite lookup_alter_eq, Hts.
    + do 6 (split; [done|]). split; [lia|].
      apply length_rolling_mean.
Qed.
End TemporalSmoothing.

(* ===================================================================== *)
(** * The seasonal anomalies of a single year *)
(* ===================================================================== *)

Section SeasonalAnomaly.
Context `{Libs}.
Import FloweringDetector.

Lemma rows_of_NoDup k keys vals :
  NoDup keys → (length (rows_of k keys vals) ≤ 1)%nat.
Proof.
  unfold rows_of. rewrite length_fmap. intros Hkeys. revert vals.
  induction Hkeys as [|k0 keys Hk0 Hkeys IH]; intros vals; [simpl; lia|].
  destruct vals as [|v vals]; [simpl; lia|]. cbn [zip zip_with].
  destruct (decide (k0 = k)) as [->|Hne].
  - rewrite filter_cons_True by done.
    assert (filter (λ p : Z * float64, p.1 = k) (zip keys vals) = []) as ->;
      [|simpl; lia].
    destruct (filter _ (zip keys vals)) as [|[k' v'] rest] eqn:Hf; [done|].
    assert ((k', v') ∈ filter (λ p : Z * float64, p.1 = k) (zip keys vals)) as Hin
      by (rewrite Hf; by left).
    apply list_elem_of_filter in Hin as [Hk' Hin]. simpl in Hk'. subst k'.
    by apply elem_of_zip_l in Hin.
  - rewrite filter_cons_False by done. apply IH.
Qed.

Lemma pd_std_single g : (length g ≤ 1)%nat → pd_std g = NaN.
Proof.
  intros Hg. unfold pd_std. cbv zeta.
  pose proof (length_filter (λ x, F.is_nan x = false) g) as Hf.
  destruct (Nat.leb_spec (length (filter (λ x, F.is_nan x = false) g)) 1);
    [done | lia].
Qed.

Lemma consecutive_groups_all_false pairs :
  Forall (λ p : nat * bool, p.2 = false) pairs →
  consecutive_groups pairs [] = [].
Proof.
  induction 1 as [|[i exceeds] pairs Hp _ IH]; [done|].
  simpl in Hp. subst exceeds. exact IH.
Qed.

Lemma no_exceedance dates values exceedances :
  Forall (λ b, b = false) exceedances →
  _group_consecutive_exceedances dates values exceedances = Ok [].
Proof.
  intros Hall. unfold _group_consecutive_exceedances.
  rewrite consecutive_groups_all_false; [done|].
  apply Forall_forall. intros [i b] Hin%elem_of_enumerate. simpl.
  rewrite Forall_forall in Hall. apply Hall. apply list_elem_of_lookup. eauto.
Qed.

(** When no two dates fall on the same day of the year, no value is an
    anomaly: the standard deviation of a single value is [nan]. *)
Lemma _detect_seasonal_anomaly_distinct_days dates values :
  NoDup (map Date.tm_yday dates) →
  _detect_seasonal_anomaly dates values = Ok []
  ∨ _detect_seasonal_anomaly dates values = Raise ValueError.
Proof.
  intros Hdays. unfold _detect_seasonal_anomaly.
  destruct (_ <? 10)%nat; [by left|].
  destruct (negb _); [by right|]. left. cbv zeta.
  apply no_exceedance.
  apply Forall_forall. intros b Hb.
  apply list_elem_of_In, in_map_iff in Hb as (anomaly & <- & Ha%list_elem_of_In).
  apply list_elem_of_lookup in Ha as [i Hi].
  apply lookup_zip_with_Some in Hi as (day & value & -> & Hday & Hvalue).
  rewrite lookup_fmap, group_by_lookup.
  destruct (decide _) as [|Hne]; [done|]. simpl.
  by rewrite (pd_std_single _ (rows_of_NoDup day _ values Hdays)).
Qed.

Lemma StronglySorted_lookup_strict (l : list nat) i j a b :
  StronglySorted lt l → l !! i = Some a → l !! j = Some b →
  (i < j)%nat → (a < b)%nat.
Proof.
  intros Hl. revert i j. induction Hl as [|x l Hl IH Hx]; intros i j Hi Hj Hij.
  - done.
  - destruct i as [|i], j as [|j]; simplify_eq/=; try lia.
    + rewrite Forall_lookup in Hx. by apply (Hx _ _ Hj).
    + eapply IH; eauto with lia.
Qed.

Lemma NoDup_pick {A} (f : A → Z) (l k : list A) (idx : list nat) :
  NoDup (map f l) → StronglySorted lt idx →
  mapM (index l) idx = Ok k → NoDup (map f k).
Proof.
  intros Hl Hidx Hk. apply mapM_Ok in Hk.
  change (map f k) with (f <$> k). change (map f l) with (f <$> l) in Hl.
  rewrite NoDup_alt in Hl. apply NoDup_alt. intros a b y Ha Hb.
  rewrite list_lookup_fmap in Ha, Hb.
  destruct (k !! a) as [xa|] eqn:Hka; [|done].
  destruct (k !! b) as [xb|] eqn:Hkb; [|done].
  simpl in Ha, Hb.
  destruct (Forall2_lookup_r _ _ _ _ _ Hk Hka) as (ia & Hia & Hla%index_Ok).
  destruct (Forall2_lookup_r _ _ _ _ _ Hk Hkb) as (ib & Hib & Hlb%index_Ok).
  assert (ia = ib) as ->.
  { apply (Hl ia ib y); rewrite list_lookup_fmap.
    - rewrite Hla. simpl. congruence.
    - rewrite Hlb. simpl. congruence. }
  destruct (Nat.lt_trichotomy a b) as [Hlt|[->|Hlt]]; [|done|].
  - pose proof (StronglySorted_lookup_strict idx a b ib ib Hidx Hia Hib Hlt). lia.
  - pose proof (StronglySorted_lookup_strict idx b a ib ib Hidx Hib Hia Hlt). lia.
Qed.

(** X27.  The seasonal-anomaly algorithm finds nothing in a series whose
    dates fall on different days of the year -- any series within one
    year: it measures a value against the other values of the same day
    of the year, and the standard deviation of a single value is
    [nan]. *)
Theorem seasonal_anomaly_needs_repeated_days data :
  (∀ ts raw parsed,
     time_series data = Some ts → dates ts = Some raw →
     mapM parse_date raw = Ok parsed → NoDup (map Date.tm_yday parsed)) →
  detect_events data "seasonal_anomaly" = Ok [].
Proof.
  intros Hdays.
  destruct (detect_events_total data "seasonal_anomaly") as [events Hd].
  rewrite Hd. f_equal.
  destruct (detect_events_run _ _ _ Hd) as [->|Hrun]; [done|].
  destruct Hrun as [ts rawd parsed v cd cv revs Hts Hraw Hparsed Hv Hen Hcd Hcv
                      Hrun Henr].
  assert (NoDup (map Date.tm_yday cd)) as Hcd_days.
  { eapply NoDup_pick; [by eapply Hdays| |exact Hcd].
    apply (omap_enumerate_sorted (λ flag, String.eqb flag "good")). }
  change (algorithm_of "seasonal_anomaly") with SeasonalAnomaly in Hrun.
  cbn [run_algorithm] in Hrun.
  destruct (_detect_seasonal_anomaly_distinct_days cd (_smooth_time_series cv)
              Hcd_days) as [Hnone|Hraise]; [|congruence].
  assert (revs = []) as -> by congruence. by injection Henr as <-.
Qed.
End SeasonalAnomaly.

(* ===================================================================== *)
(** * The interpolation at the ends of the series *)
(* ===================================================================== *)

Section InterpolationEdges.
Context `{Libs}.
Import DataProcessor.

(** Before the first valid index there is no left neighbour, and the
    right one is the first valid index. *)
Lemma find_neighbors_before valid_indices i first :
  StronglySorted lt valid_indices → first ∈ valid_indices →
  (∀ v, v ∈ valid_indices → (first ≤ v)%nat) → (i < first)%nat →
  find_neighbors valid_indices i None = (None, Some first).
Proof.
  intros Hs Hfirst Hmin Hi.
  destruct valid_indices as [|v vs]; [by apply elem_of_nil in Hfirst|].
  assert (v = first) as ->.
  { apply elem_of_cons in Hfirst as [->|Hin]; [done|].
    apply StronglySorted_cons in Hs as [Hv _]. rewrite Forall_forall in Hv.
    specialize (Hv _ Hin). specialize (Hmin v (list_elem_of_here _ _)). lia. }
  cbn [find_neighbors].
  assert ((first <? i)%nat = false) as -> by (apply Nat.ltb_ge; lia).
  by assert ((i <? first)%nat = true) as -> by (apply Nat.ltb_lt; lia).
Qed.

(** After the last valid index there is no right neighbour, and the
    left one is the last valid index. *)
Lemma find_neighbors_after valid_indices i left0 :
  Forall (λ v, (v < i)%nat) valid_indices →
  find_neighbors valid_indices i left0
  = (from_option Some left0 (last valid_indices), None).
Proof.
  intros Hall. revert left0.
  induction Hall as [|v vs Hv _ IH]; intros left0; [reflexivity|].
  cbn [find_neighbors]. apply Nat.ltb_lt in Hv. rewrite Hv, IH.
  destruct vs as [|w vs]; [done|]. rewrite last_cons_cons.
  destruct (proj2 (last_is_Some (w :: vs))) as [x ->]; done.
Qed.

Lemma last_sorted (l : list nat) x :
  StronglySorted lt l → x ∈ l → (∀ v, v ∈ l → (v ≤ x)%nat) → last l = Some x.
Proof.
  intros Hs Hx Hmax. induction Hs as [|y l Hs IH Hy]; [by apply elem_of_nil in Hx|].
  destruct l as [|z l].
  - apply elem_of_cons in Hx as [->|Hx]; [done | by apply elem_of_nil in Hx].
  - rewrite last_cons_cons. apply IH.
    + apply elem_of_cons in Hx as [->|Hx]; [|done].
      rewrite Forall_forall in Hy. specialize (Hy z (list_elem_of_here _ _)).
      assert (z ≤ y)%nat by (apply Hmax; right; left). lia.
    + intros v Hv. apply Hmax. by right.
Qed.

(** X28.  At the ends of the series the interpolation repeats the
    nearest valid value: with at least two valid positions, an invalid
    position before the first valid one takes the value of the first,
    and an invalid position after the last valid one takes the value of
    the last. *)
Theorem _interpolate_missing_values_edges values mask result first last :
  length mask = length values →
  _interpolate_missing_values values mask = Ok result →
  (first < last)%nat →
  mask !! first = Some true → mask !! last = Some true →
  (∀ j, mask !! j = Some true → (first ≤ j ≤ last)%nat) →
  (∀ i, (i < first)%nat → result !! i = values !! first)
  ∧ (∀ i, (last < i < length values)%nat → result !! i = values !! last).
Proof.
  intros Hlen Hres Hlt Hfirst Hlast Hrange.
  destruct (interpolation_fills values mask Hlen)
    as (result' & Hres' & _ & _ & Hin).
  assert (result' = result) as -> by congruence.
  assert ((length (np_where mask) <? 2)%nat = false) as Hmany.
  { apply Nat.ltb_ge.
    apply elem_of_np_where, list_elem_of_lookup in Hfirst as [kf Hkf].
    apply elem_of_np_where, list_elem_of_lookup in Hlast as [kl Hkl].
    destruct (decide (kf = kl)) as [->|Hne]; [rewrite Hkf in Hkl; simplify_eq; lia|].
    apply lookup_lt_Some in Hkf, Hkl. lia. }
  assert (∀ i, (i < length values)%nat → mask !! i ≠ Some true →
               mask !! i = Some false) as Hfalse.
  { intros i Hi Hnot. rewrite <- Hlen in Hi.
    apply lookup_lt_is_Some in Hi as [[] Hb]; congruence. }
  assert (last < length values)%nat as Hlastlt.
  { rewrite <- Hlen. by eapply lookup_lt_Some. }
  split.
  - intros i Hi.
    assert (mask !! i = Some false) as Hmi.
    { apply Hfalse; [lia|]. intros Ht. specialize (Hrange _ Ht). lia. }
    destruct (Hin i Hmi) as (x & Hx & ->).
    unfold fill_value in Hx. cbv zeta in Hx. rewrite Hmany in Hx.
    rewrite (find_neighbors_before _ i first) in Hx.
    + unfold index in Hx. destruct (values !! first); congruence.
    + apply np_where_sorted.
    + by apply elem_of_np_where.
    + intros v Hv%elem_of_np_where. apply (Hrange v Hv).
    + done.
  - intros i Hi.
    assert (mask !! i = Some false) as Hmi.
    { apply Hfalse; [lia|]. intros Ht. specialize (Hrange _ Ht). lia. }
    destruct (Hin i Hmi) as (x & Hx & ->).
    unfold fill_value in Hx. cbv zeta in Hx. rewrite Hmany in Hx.
    rewrite find_neighbors_after in Hx.
    + rewrite (last_sorted _ last) in Hx.
      * cbn [from_option] in Hx. unfold index in Hx.
        destruct (values !! last); congruence.
      * apply np_where_sorted.
      * by apply elem_of_np_where.
      * intros v Hv%elem_of_np_where. apply (Hrange v Hv).
    + apply Forall_forall. intros v Hv%elem_of_np_where.
      specialize (Hrange v Hv). lia.
Qed.
End InterpolationEdges.

(* ===================================================================== *)
(** * The cloud mask run twice *)
(* ===================================================================== *)

Section CloudMaskTwice.
Context `{Libs}.
Import DataProcessor.

Lemma bool_index_agree (values values' : list float64) mask :
  length values' = length values →
  (∀ i, mask !! i = Some true → values' !! i = values !! i) →
  bool_index values' mask = bool_index values mask.
Proof.
  intros Hlen Hagree. unfold bool_index. rewrite Hlen.
  destruct (_ =? _)%nat; [|done]. f_equal.
  revert values values' Hlen Hagree.
  induction mask as [|b mask IH]; intros values values' Hlen Hagree.
  - by destruct values, values'.
  - destruct values as [|v values], values' as [|v' values']; try done.
    cbn [zip zip_with omap list_omap snd fst].
    rewrite (IH values values').
    + destruct b; [|done]. specialize (Hagree 0%nat eq_refl). by simplify_eq/=.
    + simpl in Hlen. lia.
    + intros i Hi. apply (Hagree (S i) Hi).
Qed.

(** What is written at an invalid position is the same for two arrays
    that agree at the valid positions. *)
Lemma fill_value_agree (values values' : list float64) mask i :
  length values' = length values →
  (∀ j, mask !! j = Some true → values' !! j = values !! j) →
  fill_value values' mask i = fill_value values mask i.
Proof.
  intros Hlen Hagree. unfold fill_value. cbv zeta.
  rewrite (bool_index_agree values values' mask Hlen Hagree).
  destruct (_ <? 2)%nat; [done|].
  destruct (find_neighbors _ _ _) as [l r] eqn:Hn.
  assert (∀ v, v ∈ np_where mask → index values' v = index values v) as Hidx.
  { intros v Hv%elem_of_np_where. unfold index. by rewrite Hagree. }
  apply find_neighbors_elem in Hn as [[->|(x & -> & Hx)] [->|(y & -> & Hy)]].
  - done.
  - by apply Hidx.
  - by apply Hidx.
  - by rewrite (Hidx _ Hx), (Hidx _ Hy).
Qed.

(** Interpolating what the interpolation returned changes nothing. *)
Lemma interpolation_twice values mask result :
  length mask = length values →
  _interpolate_missing_values values mask = Ok result →
  _interpolate_missing_values result mask = Ok result.
Proof.
  intros Hlen Hres.
  destruct (interpolation_fills values mask Hlen)
    as (result1 & Hres1 & Hlen1 & Hkeep1 & Hfill1).
  assert (result1 = result) as -> by congruence.
  destruct (interpolation_fills result mask) as (result2 & -> & Hlen2 & Hkeep2 & Hfill2);
    [congruence|].
  f_equal. apply list_eq. intros i.
  destruct (mask !! i) as [[]|] eqn:Hm.
  - by apply Hkeep2.
  - destruct (Hfill2 i Hm) as (x2 & Hx2 & ->).
    destruct (Hfill1 i Hm) as (x1 & Hx1 & ->).
    rewrite (fill_value_agree values result mask i Hlen1 Hkeep1) in Hx2.
    congruence.
  - apply lookup_ge_None in Hm.
    rewrite !(proj2 (lookup_ge_None _ _)); [done|lia|lia].
Qed.

Lemma new_flags_mask (mask : list bool) :
  map (λ flag, String.eqb flag "good")
      (map (λ good : bool, if negb good then "interpolated" else "good") mask)
  = mask.
Proof.
  induction mask as [|b mask IH]; [done|]. cbn [map]. rewrite IH.
  by destruct b.
Qed.

Lemma set_same (ts : TimeSeries) vals flags :
  values ts = Some vals → quality_flags ts = Some flags →
  set_quality_flags flags (set_values vals ts) = ts.
Proof. destruct ts. simpl. by intros -> ->. Qed.

(** X29.  The cloud mask is idempotent: run on a series it has already
    masked, it returns the record and leaves the series exactly as it
    was -- the values it interpolated the first time are interpolated
    again, from the same valid values, to the same result. *)
Theorem _apply_cloud_mask_twice σ data a ts vals flags σ1 ts1 σ2 r :
  holds_series σ data a ts →
  values ts = Some vals → quality_flags ts = Some flags →
  length flags = length vals →
  _apply_cloud_mask data σ = (Ok data, σ1) →
  all_series σ1 !! a = Some ts1 →
  _apply_cloud_mask data σ1 = (r, σ2) →
  r = Ok data ∧ records σ2 = records σ1
  ∧ ∀ b, all_series σ2 !! b = all_series σ1 !! b.
Proof.
  intros (d & Hd & Hda & Hts) Hvals Hflags Hlen Hrun1 Hts1 Hrun2.
  set (mask := map (λ flag, String.eqb flag "good") flags).
  assert (length mask = length vals) as Hmask
    by (unfold mask; by rewrite length_map).
  (* the first run returned: there is a flag *)
  assert (np_invert mask = Ok (map negb mask)) as Hinv.
  { unfold mask. destruct flags; [|done]. exfalso. revert Hrun1.
    unfold _apply_cloud_mask, mbind, M_bind, read_record, read_series, lift.
    by rewrite Hd, Hda, Hts, Hvals, Hflags. }
  (* the first run *)
  assert (records σ1 = records σ
          ∧ ∃ vals1 flags1,
              values ts1 = Some vals1 ∧ quality_flags ts1 = Some flags1
              ∧ map (λ flag, String.eqb flag "good") flags1 = mask
              ∧ length vals1 = length vals
              ∧ _interpolate_missing_values vals1 mask = Ok vals1
              ∧ (np_any (map negb mask) = true →
                 flags1
                 = map (λ good : bool, if negb good then "interpolated" else "good")
                       mask))
    as (Hrec1 & vals1 & flags1 & Hv1 & Hf1 & Hmask1 & Hlen1 & Hint1 & Hflags1).
  { revert Hrun1.
    unfold _apply_cloud_mask, mbind, M_bind, read_record, read_series, lift,
      mret, M_ret, update_series.
    rewrite Hd, Hda, Hts, Hvals, Hflags. cbn [getitem from_option id].
    fold mask. rewrite Hinv. cbv beta iota.
    destruct (np_any (map negb mask)) eqn:Hany.
    - destruct (interpolation_fills vals mask Hmask)
        as (vals1 & Hint & Hl1 & _ & _).
      rewrite Hint. intros [= <-]. cbn [all_series] in Hts1.
      rewrite !lookup_alter_eq, Hts in Hts1. injection Hts1 as <-.
      split; [done|]. eexists vals1, _. split; [done|]. split; [done|].
      split; [apply new_flags_mask|]. split; [done|].
      split; [by eapply interpolation_twice | done].
    - intros [= <-]. assert (ts1 = ts) as -> by congruence.
      split; [done|]. exists vals, flags. split; [done|]. split; [done|].
      split; [done|]. split; [done|]. split; [|done].
      destruct (interpolation_fills vals mask Hmask)
        as (vals1 & Hint & Hl1 & Hkeep & _).
      rewrite Hint. f_equal. apply list_eq. intros i.
      destruct (mask !! i) as [[]|] eqn:Hm.
      + by apply Hkeep.
      + exfalso. apply (np_any_false _ i) in Hany. apply Hany.
        change (map negb mask) with (negb <$> mask).
        by rewrite list_lookup_fmap, Hm.
      + apply lookup_ge_None in Hm.
        rewrite !(proj2 (lookup_ge_None _ _)); [done|lia|lia]. }
  (* the second run *)
  revert Hrun2.
  unfold _apply_cloud_mask, mbind, M_bind, read_record, read_series, lift,
    mret, M_ret, update_series.
  rewrite Hrec1, Hd, Hda, Hts1, Hv1, Hf1. cbn [getitem from_option id].
  rewrite Hmask1, Hinv. cbv beta iota.
  destruct (np_any (map negb mask)) eqn:Hany.
  - rewrite Hint1. intros [= <- <-]. split; [done|]. split; [done|].
    intros b. cbn [all_series]. destruct (decide (b = a)) as [->|Hb].
    + rewrite !lookup_alter_eq, Hts1. cbn [fmap option_fmap option_map].
      f_equal. rewrite <- (Hflags1 eq_refl). by apply set_same.
    + by rewrite !lookup_alter_ne.
  - by intros [= <- <-].
Qed.
End CloudMaskTwice.

(* ===================================================================== *)
(** * The code run on the sample inputs *)
(* ===================================================================== *)

Import FloweringDetector.
#[local] Existing Instance Impl.libs.

(** C1, on the bump: the default algorithm finds one event, of 20 days. *)
Lemma detect_events_event_invariant_witness :
  ∃ e : Event,
    detect_events Samples.bump "change_detection" = Ok [e]
    ∧ (start_date e ≤ peak_date e ≤ end_date e)
    ∧ (5 ≤ duration_days e ≤ 45)
    ∧ min_duration_days config = 5 ∧ max_duration_days config = 45.
Proof.
  eexists. split; [vm_compute; reflexivity|].
  eapply (detect_events_event_invariant (H := Impl.libs) Samples.bump
            "change_detection").
  - intros ts raw parsed [= <-] [= <-]. vm_compute. intros [= <-].
    repeat constructor.
  - vm_compute. reflexivity.
  - apply list_elem_of_singleton. reflexivity.
Defined.

(** C2, on the bump with two good observations only. *)
Lemma detect_events_insufficient_quality_witness :
  detect_events Samples.cloudy_bump "threshold" = Ok [].
Proof.
  apply (detect_events_insufficient_quality (H := Impl.libs)).
  intros ts [= <-]. vm_compute. lia.
Defined.

(** C10, on the bump, which has no flags: the event found is the one
    found with eight flags ['good'], and the one the change detection
    finds in the eight dates and the eight smoothed values. *)
Lemma detect_events_default_flags_witness :
  ∃ (e : Event) (parsed : list Z),
    mapM parse_date Samples.bump_dates = Ok parsed
    ∧ length parsed = 8%nat
    ∧ detect_events Samples.bump "change_detection" = Ok [e]
    ∧ detect_events (with_quality_flags (replicate 8 "good") Samples.bump)
                    "change_detection" = Ok [e]
    ∧ (events ← _detect_by_change parsed
                  (_smooth_time_series Samples.bump_values);
       mapM (λ event, _enrich_event event Samples.bump) events) = Ok [e].
Proof.
  destruct (detect_events_default_flags (H := Impl.libs) Samples.bump
              (series Samples.bump_dates Samples.bump_values None)
              Samples.bump_values "change_detection"
              eq_refl eq_refl eq_refl eq_refl) as (_ & Hsame & Hall).
  assert (∃ e, detect_events Samples.bump "change_detection" = Ok [e])
    as [e Hrun] by (eexists; vm_compute; reflexivity).
  assert (∃ parsed, mapM parse_date Samples.bump_dates = Ok parsed
                    ∧ length parsed = 8%nat)
    as (parsed & Hparsed & Hlen)
    by (eexists; split; [vm_compute; reflexivity | reflexivity]).
  exists e, parsed. split; [exact Hparsed|]. split; [exact Hlen|].
  split; [exact Hrun|]. split; [rewrite <- Hrun; symmetry; exact Hsame|].
  transitivity (detect_events_body Samples.bump "change_detection").
  - symmetry. exact (Hall Samples.bump_dates parsed eq_refl Hparsed).
  - destruct (detect_events_Ok _ _ _ Hrun) as [Hnil|Hbody];
      [discriminate Hnil | exact Hbody].
Defined.




(** Whether the clustering algorithm finds an event in the flat series
    when the clustering answers [labels]. *)
Definition flat_clustering_finds_event (labels : list nat) : bool :=
  match detect_events (H := Impl.libs_clustering labels) Samples.flat
                      "machine_learning" with
  | Ok (_ :: _) => true
  | _ => false
  end.



(** C6 as stated fails: [export_processed_data] raises for the format
    xml, and [calculate_phenology_metrics] raises on a record without
    observations ([np.argmax] of an empty array). *)
Lemma unhandled_entry_points_raise :
  (DataProcessor.export_processed_data 0 "xml"
     (StoreSamples.store_of StoreSamples.steady)).1 = Raise ValueError
  ∧ (DataProcessor.calculate_phenology_metrics 0
       (StoreSamples.store_of StoreSamples.empty)).1 = Raise ValueError.
Proof. split; vm_compute; reflexivity. Qed.

(** C7.  The probability of flowering that [predict_flowering] returns
    can be negative.  Over water the typical value of the day is negative
    (-0.3); a prediction of -0.29, one standard deviation above it, is
    more than 1.15 times that, and its probability is
    [min(1, (-0.29 + 0.3) / -0.3)], that is -1/30: the quotient by a
    negative typical value is negative, and [min] caps it from above
    only. *)
Theorem predict_flowering_negative_probability :
  ∃ p : Prediction,
    predict_flowering (H := Impl.libs_one_sigma) ForecastSamples.water 1 "general"
    = Ok [p]
    ∧ predicted_ndvi p = Fin (-29 # 100)
    ∧ flowering_probability p = Fin (-1 # 30)
    ∧ (flowering_probability p <? Fin 0)%F = true
    ∧ ¬ in_unit_interval (flowering_probability p).
Proof.
  eexists. split; [vm_compute; reflexivity|]. repeat split.
  intros (q & [= <-] & Hq & _). vm_compute in Hq. by apply Hq.
Qed.

(** C8 as stated fails: one day after 9999-12-31, or three million days
    after 2024-01-01, there is no [datetime]; the addition raises and
    the forecast is empty. *)
Lemma predict_flowering_past_last_day :
  predict_flowering ForecastSamples.last_day 1 "general" = Ok []
  ∧ predict_flowering ForecastSamples.new_year 3000000 "general" = Ok [].
Proof.
  split; [vm_compute; reflexivity|].
  apply (predict_flowering_overflow (H := Impl.libs) _ 738886);
    [vm_compute; reflexivity | lia | unfold Date.MAXORDINAL; lia].
Qed.

(** C8, amended, on the ten days after the bump (2024-04-05). *)
Lemma predict_flowering_dates_witness :
  ∃ predictions,
    predict_flowering Samples.bump 10 "general" = Ok predictions
    ∧ length predictions = Z.to_nat 10
    ∧ date <$> predictions = (λ i, 738981 + Z.of_nat i) <$> seq 1 (Z.to_nat 10).
Proof.
  apply (predict_flowering_dates (H := Impl.libs) Samples.bump
           (series Samples.bump_dates Samples.bump_values None)
           Samples.bump_values 738981 10 "general").
  - reflexivity.
  - reflexivity.
  - vm_compute. reflexivity.
  - lia.
  - unfold Date.MAXORDINAL. lia.
Defined.

(** C9.  The pipeline copies the top-level dict only: the nested
    [time_series] dict is the caller's.  On a series with a cloudy
    observation, the record returned is a new one, and the series of the
    caller's record has a new value and a new flag. *)
Theorem process_time_series_writes_input :
  let σ := StoreSamples.store_of StoreSamples.cloudy in
  ∃ out σ',
    DataProcessor.process_time_series 0 None σ = (Ok out, σ')
    ∧ out ≠ 0%nat
    ∧ values <$> series_of σ 0 = Some (Some [Fin 1; Fin 9; Fin 3; Fin 4; Fin 5])
    ∧ values <$> series_of σ' 0 = Some (Some [Fin 1; Fin 2; Fin 3; Fin 4; Fin 5])
    ∧ quality_flags <$> series_of σ' 0
      = Some (Some ["good"; "interpolated"; "good"; "good"; "good"])
    ∧ ¬ cleaning_keeps_input σ 0.
Proof.
  intros σ. eexists _, _. split; [vm_compute; reflexivity|].
  split; [done|]. split; [reflexivity|]. split; [vm_compute; reflexivity|].
  split; [vm_compute; reflexivity|].
  intros Hkeep. specialize (Hkeep _ _ (surjective_pairing _)).
  vm_compute in Hkeep. discriminate Hkeep.
Qed.

(* ===================================================================== *)
(** * More inputs, and the code run on them *)
(* ===================================================================== *)

Module FieldSamples.

(** The library interface of [Impl.libs], with a clustering that always
    fails (scikit-learn raising on its input). *)
Definition libs_without_clustering : Libs := {|
  strptime := Impl.strptime_iso;
  strptime_range := Impl.strptime_iso_range;
  pd_to_datetime := mapM Impl.strptime_iso;
  np_sqrt := Impl.sqrt_6;
  np_sqrt_nonneg := Impl.sqrt_6_nonneg;
  np_percentile_empty := Raise IndexError;
  np_random_normal := λ _ _, Fin 0;
  sk_cluster := λ _, Raise ValueError;
|}.

(** A record without a series. *)
Definition no_series : SatelliteData :=
  {| time_series := None; location := Some Samples.somewhere;
     product_info := None |}.

(** The bump, with a date that is no date. *)
Definition misdated : SatelliteData :=
  Samples.record
    ["2024-03-01"; "2024-03-06"; "yesterday"; "2024-03-16";
     "2024-03-21"; "2024-03-26"; "2024-03-31"; "2024-04-05"]
    Samples.bump_values None.

(** Twenty-four observations three days apart, with two bumps. *)
Definition two_bumps_dates : list string :=
  ["2024-03-01"; "2024-03-04"; "2024-03-07"; "2024-03-10"; "2024-03-13";
   "2024-03-16"; "2024-03-19"; "2024-03-22"; "2024-03-25"; "2024-03-28";
   "2024-03-31"; "2024-04-03"; "2024-04-06"; "2024-04-09"; "2024-04-12";
   "2024-04-15"; "2024-04-18"; "2024-04-21"; "2024-04-24"; "2024-04-27";
   "2024-04-30"; "2024-05-03"; "2024-05-06"; "2024-05-09"].
Definition two_bumps_values : list float64 :=
  (replicate 4 (Fin 0.1) ++ replicate 4 (Fin 0.9) ++ replicate 8 (Fin 0.1)
   ++ replicate 4 (Fin 0.9) ++ replicate 4 (Fin 0.1))%list.
Definition two_bumps : SatelliteData :=
  Samples.record two_bumps_dates two_bumps_values None.

(** The bump with its second observation under a cloud, and the same
    after a repair of that observation. *)
Definition clouded_bump : SatelliteData :=
  Samples.record Samples.bump_dates
    [Fin 0.2; Fin 7; Fin 0.2; Fin 0.2; Fin 0.8; Fin 0.9; Fin 0.8; Fin 0.2]
    (Some ["good"; "cloudy"; "good"; "good"; "good"; "good"; "good"; "good"]).
Definition repaired_bump : SatelliteData :=
  Samples.record Samples.bump_dates Samples.bump_values
    (Some ["good"; "interpolated"; "good"; "good"; "good"; "good"; "good"; "good"]).

(** Five observations in NDVI units, and eight of them. *)
Definition ndvi : TimeSeries :=
  {| dates := Some StoreSamples.five_dates;
     values := Some [Fin 0.30; Fin 0.35; Fin 0.40; Fin 0.55; Fin 0.45];
     quality_flags := StoreSamples.all_flags_good; units := Some "NDVI";
     values_smoothed := None; smoothing_applied := None;
     evi_approximated := None; savi_approximated := None;
     greenness_index := None |}.
Definition eight : TimeSeries :=
  series Samples.bump_dates Samples.bump_values None.

(** A series that has lost its values. *)
Definition no_values : TimeSeries :=
  {| dates := Some StoreSamples.five_dates; values := None;
     quality_flags := None; units := None;
     values_smoothed := None; smoothing_applied := None;
     evi_approximated := None; savi_approximated := None;
     greenness_index := None |}.

(** A series without observations, with an empty list of flags. *)
Definition no_observations : TimeSeries := series [] [] (Some []).

(** Five good observations with a smoothed channel of two entries, and
    that channel on a series without observations. *)
Definition short_channel : TimeSeries :=
  {| dates := Some StoreSamples.five_dates;
     values := Some [Fin 0.30; Fin 0.35; Fin 0.40; Fin 0.55; Fin 0.45];
     quality_flags := StoreSamples.all_flags_good; units := None;
     values_smoothed := Some [Fin 0.3; Fin 0.4]; smoothing_applied := Some 3%nat;
     evi_approximated := None; savi_approximated := None;
     greenness_index := None |}.
Definition channel_only : TimeSeries :=
  {| dates := Some []; values := Some []; quality_flags := None; units := None;
     values_smoothed := Some [Fin 0.3; Fin 0.4]; smoothing_applied := Some 3%nat;
     evi_approximated := None; savi_approximated := None;
     greenness_index := None |}.

(** Five values of which two are missing and one is infinite. *)
Definition gappy : list float64 := [Fin 0.2; NaN; PInf; NaN; Fin 0.4].

(** Days five apart, from the first of January 2024, as ordinals. *)
Definition every_fifth_day (n : nat) : list Z :=
  (λ i, 738886 + 5 * Z.of_nat i) <$> seq 0 n.
End FieldSamples.

(** C6, amended, on the bump with a date that is no date, on which the
    blocks of [detect_events] and of [predict_flowering] raise
    [ValueError], and on a series that has lost its values, on which the
    block of [process_time_series] raises [KeyError]. *)
Lemma handled_entry_points_witness :
  detect_events_body FieldSamples.misdated "threshold" = Raise ValueError
  ∧ detect_events FieldSamples.misdated "threshold" = Ok []
  ∧ predict_flowering_body FieldSamples.misdated 30 "general" = Raise ValueError
  ∧ predict_flowering FieldSamples.misdated 30 "general" = Ok []
  ∧ (DataProcessor.process_time_series_body 0 None
       (StoreSamples.store_of FieldSamples.no_values)).1 = Raise KeyError
  ∧ (DataProcessor.process_time_series 0 None
       (StoreSamples.store_of FieldSamples.no_values)).1 = Ok 0%nat.
Proof.
  destruct (handled_entry_points (H := Impl.libs)) as (Hdetect & Hpredict & Hclean & _).
  assert (detect_events_body FieldSamples.misdated "threshold" = Raise ValueError)
    as Hd by (vm_compute; reflexivity).
  assert (predict_flowering_body FieldSamples.misdated 30 "general"
          = Raise ValueError) as Hp by (vm_compute; reflexivity).
  split; [exact Hd|]. split.
  { destruct (Hdetect FieldSamples.misdated "threshold") as (events & -> & Hraise & _).
    f_equal. exact (Hraise _ Hd). }
  split; [exact Hp|]. split.
  { destruct (Hpredict FieldSamples.misdated 30 "general")
      as (predictions & -> & Hraise & _).
    f_equal. exact (Hraise _ Hp). }
  destruct (DataProcessor.process_time_series_body 0 None
              (StoreSamples.store_of FieldSamples.no_values)) as [r σ1] eqn:Hbody.
  assert (r = Raise KeyError) as ->.
  { apply (f_equal fst) in Hbody. vm_compute in Hbody. by symmetry. }
  split; [reflexivity|].
  destruct (Hclean 0%nat None (StoreSamples.store_of FieldSamples.no_values))
    as (out & σ' & -> & Hraise & _).
  destruct (Hraise _ _ Hbody) as [-> _]. reflexivity.
Defined.

(** X1, on a record without a series. *)
Lemma detect_events_invalid_witness :
  detect_events FieldSamples.no_series "threshold" = Ok [].
Proof.
  apply (detect_events_invalid (H := Impl.libs) FieldSamples.no_series "threshold").
  left. reflexivity.
Defined.

(** X2, on the bump and a name that is no algorithm. *)
Lemma detect_events_unknown_algorithm_witness :
  detect_events Samples.bump "kmeans"
  = detect_events Samples.bump "change_detection".
Proof.
  apply (detect_events_unknown_algorithm (H := Impl.libs) Samples.bump "kmeans").
  reflexivity.
Defined.

(** X3, on the bump with a date that is no date. *)
Lemma unparsed_date_gives_nothing_witness :
  detect_events FieldSamples.misdated "change_detection" = Ok []
  ∧ predict_flowering FieldSamples.misdated 30 "general" = Ok [].
Proof.
  apply (unparsed_date_gives_nothing (H := Impl.libs) FieldSamples.misdated
           (series ["2024-03-01"; "2024-03-06"; "yesterday"; "2024-03-16";
                    "2024-03-21"; "2024-03-26"; "2024-03-31"; "2024-04-05"]
                   Samples.bump_values None)
           ["2024-03-01"; "2024-03-06"; "yesterday"; "2024-03-16";
            "2024-03-21"; "2024-03-26"; "2024-03-31"; "2024-04-05"]
           "yesterday" "change_detection" 30 "general").
  - reflexivity.
  - reflexivity.
  - apply list_elem_of_further, list_elem_of_further, list_elem_of_here.
  - reflexivity.
Defined.

(** X4, on the eight observations of the bump, too few for the seasonal
    anomalies. *)
Lemma detect_events_too_short_witness :
  detect_events Samples.bump "seasonal_anomaly" = Ok [].
Proof.
  apply (detect_events_too_short (H := Impl.libs) Samples.bump "seasonal_anomaly").
  intros ts [= <-]. vm_compute. lia.
Defined.

(** X5, on ten observations, with a clustering that fails. *)
Lemma _detect_by_ml_fallback_witness :
  _detect_by_ml (H := FieldSamples.libs_without_clustering)
    (FieldSamples.every_fifth_day 10) (replicate 10 (Fin 0.5))
  = _detect_by_change (H := FieldSamples.libs_without_clustering)
      (FieldSamples.every_fifth_day 10) (replicate 10 (Fin 0.5)).
Proof.
  apply (_detect_by_ml_fallback (H := FieldSamples.libs_without_clustering)
           (FieldSamples.every_fifth_day 10) (replicate 10 (Fin 0.5))).
  - vm_compute. lia.
  - reflexivity.
  - intros X. exists ValueError. reflexivity.
Defined.

(** X6, on the bump: the event found starts, peaks and ends on
    observations of the record. *)
Lemma detect_events_dates_observed_witness :
  ∃ (e : Event) parsed,
    detect_events Samples.bump "change_detection" = Ok [e]
    ∧ mapM parse_date Samples.bump_dates = Ok parsed
    ∧ Forall (λ d, ∃ i, parsed !! i = Some d
                        ∧ effective_flags (series Samples.bump_dates
                                             Samples.bump_values None) !! i
                          = Some "good")
             [start_date e; peak_date e; end_date e].
Proof.
  eexists _, _. split; [vm_compute; reflexivity|].
  split; [vm_compute; reflexivity|].
  eapply (detect_events_dates_observed (H := Impl.libs) Samples.bump
            "change_detection" _ _
            (series Samples.bump_dates Samples.bump_values None)
            Samples.bump_dates).
  - vm_compute. reflexivity.
  - apply list_elem_of_here.
  - reflexivity.
  - reflexivity.
  - vm_compute. reflexivity.
Defined.

(** X7, on the bump. *)
Lemma detect_events_enrichment_witness :
  ∃ e : Event,
    detect_events Samples.bump "change_detection" = Ok [e]
    ∧ location Samples.bump = Some (event_location e)
    ∧ desc_start (description e) = start_date e
    ∧ desc_confidence (description e) = confidence_level e
    ∧ (event_type e = typical_flowering ↔ 10 ≤ duration_days e < 25).
Proof.
  eexists. split; [vm_compute; reflexivity|].
  match goal with
  | |- context [event_location ?e] =>
      pose proof (detect_events_enrichment (H := Impl.libs) Samples.bump
                    "change_detection" [e] e) as Hw
  end.
  destruct Hw as (Hloc & _ & Hstart & _ & Hlevel & _ & _ & Htype & _).
  - vm_compute. reflexivity.
  - apply list_elem_of_here.
  - split; [exact Hloc|]. split; [exact Hstart|]. split; [exact Hlevel|].
    exact Htype.
Defined.

(** X8, on the two bumps: the threshold algorithm finds two events, the
    first over before the second starts. *)
Lemma grouped_events_disjoint_witness :
  ∃ e1 e2 : Event,
    detect_events FieldSamples.two_bumps "threshold" = Ok [e1; e2]
    ∧ StronglySorted (λ e1 e2 : Event, end_date e1 < start_date e2) [e1; e2].
Proof.
  eexists _, _. split; [vm_compute; reflexivity|].
  apply (grouped_events_disjoint (H := Impl.libs) FieldSamples.two_bumps "threshold").
  - intros ts raw parsed [= <-] [= <-]. vm_compute. intros [= <-].
    repeat constructor.
  - left. reflexivity.
  - vm_compute. reflexivity.
Defined.

(** X10, on the bump and no day ahead. *)
Lemma predict_flowering_nothing_witness :
  predict_flowering Samples.bump 0 "general" = Ok [].
Proof.
  apply (predict_flowering_nothing (H := Impl.libs) Samples.bump 0 "general").
  left. lia.
Defined.

(** X12, on one observation on new year's day: the first of three
    forecasts. *)
Lemma predict_flowering_values_witness :
  ∃ p ps parsed,
    predict_flowering ForecastSamples.new_year 3 "general" = Ok (p :: ps)
    ∧ mapM parse_date ["2024-01-01"] = Ok parsed
    ∧ prediction_confidence p = Fin 0.7
    ∧ predicted_ndvi p
      = (default (np_mean [Fin 0.5])
                 (_extract_seasonal_pattern parsed [Fin 0.5]
                    !! Date.tm_yday (date p))
         + np_random_normal 0 (np_std [Fin 0.5] * Fin 0.1))%F.
Proof.
  eexists _, _, _. split; [vm_compute; reflexivity|].
  split; [vm_compute; reflexivity|].
  eapply (predict_flowering_values (H := Impl.libs) ForecastSamples.new_year
            (series ["2024-01-01"] [Fin 0.5] None) ["2024-01-01"] _ [Fin 0.5]
            3 "general" _ 0%nat).
  - reflexivity.
  - reflexivity.
  - reflexivity.
  - vm_compute. reflexivity.
  - vm_compute. reflexivity.
  - reflexivity.
Defined.


(** X14, on five values, the second one invalid. *)
Lemma _interpolate_missing_values_spec_witness :
  ∃ result,
    DataProcessor._interpolate_missing_values
      [Fin 1; Fin 9; Fin 3; Fin 4; Fin 5] [true; false; true; true; true]
    = Ok result
    ∧ length result = 5%nat
    ∧ result !! 0%nat = Some (Fin 1) ∧ result !! 2%nat = Some (Fin 3).
Proof.
  destruct (_interpolate_missing_values_spec
              [Fin 1; Fin 9; Fin 3; Fin 4; Fin 5]
              [true; false; true; true; true])
    as (result & Hrun & Hlen & Hkeep & _).
  - reflexivity.
  - exists result. split; [exact Hrun|]. split; [exact Hlen|].
    split; [exact (Hkeep 0%nat eq_refl) | exact (Hkeep 2%nat eq_refl)].
Defined.

(** X15, on the same: the second value becomes the middle of the first
    and the third. *)
Lemma _interpolate_missing_values_linear_witness :
  ∃ result,
    DataProcessor._interpolate_missing_values
      [Fin 1; Fin 9; Fin 3; Fin 4; Fin 5] [true; false; true; true; true]
    = Ok result
    ∧ result !! 1%nat
      = Some (Fin 1 * (Fin 1 - F.of_Z (1 - 0) / F.of_Z (2 - 0))
              + Fin 3 * (F.of_Z (1 - 0) / F.of_Z (2 - 0)))%F.
Proof.
  eexists. split; [vm_compute; reflexivity|].
  apply (_interpolate_missing_values_linear
           [Fin 1; Fin 9; Fin 3; Fin 4; Fin 5] [true; false; true; true; true]
           _ 0%nat 2%nat 1%nat (Fin 1) (Fin 3)).
  - reflexivity.
  - vm_compute. reflexivity.
  - lia.
  - reflexivity.
  - reflexivity.
  - intros j Hj. assert (j = 1%nat) as -> by lia. reflexivity.
  - reflexivity.
  - reflexivity.
Defined.

(** X16, on five observations, the second one under a cloud, and on a
    series without observations. *)
Lemma _apply_cloud_mask_spec_witness :
  (∃ σ' ts' vals' flags',
     DataProcessor._apply_cloud_mask 0 (StoreSamples.store_of StoreSamples.cloudy)
     = (Ok 0%nat, σ')
     ∧ DataProcessor.all_series σ' !! 7%nat = Some ts'
     ∧ values ts' = Some vals' ∧ quality_flags ts' = Some flags'
     ∧ vals' !! 0%nat = Some (Fin 1)
     ∧ flags' !! 0%nat = Some "good" ∧ flags' !! 1%nat = Some "interpolated")
  ∧ DataProcessor._apply_cloud_mask 0
      (StoreSamples.store_of FieldSamples.no_observations)
    = (Raise TypeError, StoreSamples.store_of FieldSamples.no_observations).
Proof.
  split.
  - destruct (_apply_cloud_mask_spec
                (StoreSamples.store_of StoreSamples.cloudy) 0 7 StoreSamples.cloudy
                [Fin 1; Fin 9; Fin 3; Fin 4; Fin 5]
                ["good"; "cloudy"; "good"; "good"; "good"])
      as [_ Hsome].
    + eexists. split; [reflexivity|]. split; reflexivity.
    + reflexivity.
    + reflexivity.
    + reflexivity.
    + destruct Hsome
        as (σ' & ts' & vals' & flags' & Hrun & _ & Hts' & _ & Hv & Hf & _ & _
            & Hgood & Hbad); [discriminate|].
      exists σ', ts', vals', flags'. split; [exact Hrun|]. split; [exact Hts'|].
      split; [exact Hv|]. split; [exact Hf|].
      destruct (Hgood 0%nat eq_refl) as [Hv0 Hf0].
      split; [exact Hv0|]. split; [exact Hf0|].
      apply (Hbad 1%nat "cloudy" eq_refl). discriminate.
  - destruct (_apply_cloud_mask_spec
                (StoreSamples.store_of FieldSamples.no_observations) 0 7
                FieldSamples.no_observations [] [])
      as [Hnone _].
    + eexists. split; [reflexivity|]. split; reflexivity.
    + reflexivity.
    + reflexivity.
    + reflexivity.
    + exact (Hnone eq_refl).
Defined.


(** X18, on the series with a spike, which the cleaning rewrites: the
    record of the caller stays, and the series keeps its dates. *)
Lemma process_time_series_frame_witness :
  ∃ r σ',
    DataProcessor.process_time_series 0 None
      (StoreSamples.store_of StoreSamples.spike) = (r, σ')
    ∧ (r = Ok 0%nat ∨ r = Ok 1%nat)
    ∧ DataProcessor.records σ' !! 0%nat
      = DataProcessor.records (StoreSamples.store_of StoreSamples.spike) !! 0%nat
    ∧ option_Forall2 same_shape (DataProcessor.all_series σ' !! 7%nat)
                     (Some StoreSamples.spike).
Proof.
  eexists _, _. split; [vm_compute; reflexivity|].
  match goal with
  | |- (?r = _ ∨ _) ∧ DataProcessor.records ?σ' !! _ = _ ∧ _ =>
      destruct (process_time_series_frame (H := Impl.libs)
                  (StoreSamples.store_of StoreSamples.spike) 0 None r σ')
        as (Hr & Hrec & Hshape & _)
  end.
  - vm_compute. reflexivity.
  - split; [exact Hr|]. split.
    + apply (Hrec 0%nat). reflexivity.
    + exact (Hshape 7%nat).
Defined.

(** X19, on five good observations. *)
Lemma _add_quality_metrics_spec_witness :
  ∃ σ' d' q,
    DataProcessor._add_quality_metrics 0 (StoreSamples.store_of StoreSamples.steady)
    = (Ok 0%nat, σ')
    ∧ DataProcessor.records σ' !! 0%nat = Some d'
    ∧ DataProcessor.quality_metrics d' = Some q
    ∧ DataProcessor.total_observations q = 5%nat
    ∧ in_unit_interval (DataProcessor.temporal_consistency q)
    ∧ between 0.1 100 (DataProcessor.signal_to_noise_ratio q).
Proof.
  destruct (_add_quality_metrics_spec (H := Impl.libs)
              (StoreSamples.store_of StoreSamples.steady) 0 7 StoreSamples.steady
              [Fin 0.30; Fin 0.35; Fin 0.40; Fin 0.55; Fin 0.45])
    as (σ' & d' & q & Hrun & _ & _ & Hd' & _ & Hq & Htotal & _ & _ & Hcons & Hsnr).
  - eexists. split; [reflexivity|]. split; reflexivity.
  - reflexivity.
  - exists σ', d', q. split; [exact Hrun|]. split; [exact Hd'|].
    split; [exact Hq|]. split; [exact Htotal|]. split; [exact Hcons | exact Hsnr].
Defined.

(** X22, on five good observations. *)
Lemma calculate_phenology_metrics_spec_witness :
  ∃ parsed m k,
    mapM DataProcessor.parse_date StoreSamples.five_dates = Ok parsed
    ∧ DataProcessor.calculate_phenology_metrics 0
        (StoreSamples.store_of StoreSamples.steady)
      = (Ok (Some m), StoreSamples.store_of StoreSamples.steady)
    ∧ parsed !! k = Some (DataProcessor.peak_of_season m)
    ∧ [Fin 0.30; Fin 0.35; Fin 0.40; Fin 0.55; Fin 0.45] !! k
      = Some (DataProcessor.pheno_peak_value m).
Proof.
  assert (∃ parsed, mapM DataProcessor.parse_date StoreSamples.five_dates
                    = Ok parsed) as [parsed Hparsed]
    by (eexists; vm_compute; reflexivity).
  destruct (calculate_phenology_metrics_spec (H := Impl.libs)
              (StoreSamples.store_of StoreSamples.steady) 0 7
              StoreSamples.steady StoreSamples.five_dates parsed
              [Fin 0.30; Fin 0.35; Fin 0.40; Fin 0.55; Fin 0.45])
    as (m & k & Hrun & Hdate & Hpeak & _).
  - eexists. split; [reflexivity|]. split; reflexivity.
  - reflexivity.
  - reflexivity.
  - exact Hparsed.
  - reflexivity.
  - discriminate.
  - repeat (apply Forall_cons_2; [eexists; reflexivity|]). apply Forall_nil_2.
  - exists parsed, m, k. split; [exact Hparsed|]. split; [exact Hrun|].
    split; [exact Hdate | exact Hpeak].
Defined.

Ltac same_good_flags :=
  let Hx := fresh in
  intros [|[|[|[|[|[|[|[|i]]]]]]]]; vm_compute;
  (split; intros Hx; first [exact Hx | discriminate Hx]).

(** X23, on the bump with its second observation under a cloud, before
    and after a repair of that observation. *)
Lemma detect_events_reads_good_only_witness :
  detect_events FieldSamples.repaired_bump "change_detection"
  = detect_events FieldSamples.clouded_bump "change_detection".
Proof.
  apply (detect_events_reads_good_only (H := Impl.libs)
           FieldSamples.clouded_bump FieldSamples.repaired_bump
           (series Samples.bump_dates
              [Fin 0.2; Fin 7; Fin 0.2; Fin 0.2; Fin 0.8; Fin 0.9; Fin 0.8; Fin 0.2]
              (Some ["good"; "cloudy"; "good"; "good"; "good"; "good"; "good";
                     "good"]))
           (series Samples.bump_dates Samples.bump_values
              (Some ["good"; "interpolated"; "good"; "good"; "good"; "good";
                     "good"; "good"]))
           [Fin 0.2; Fin 7; Fin 0.2; Fin 0.2; Fin 0.8; Fin 0.9; Fin 0.8; Fin 0.2]
           Samples.bump_values "change_detection").
  - reflexivity.
  - reflexivity.
  - reflexivity.
  - reflexivity.
  - reflexivity.
  - reflexivity.
  - reflexivity.
  - reflexivity.
  - same_good_flags.
  - intros [|[|[|[|[|[|[|[|i]]]]]]]]; vm_compute; intros Hx;
      first [reflexivity | discriminate Hx].
Defined.

(** X24, on five good observations; on the same with a smoothed channel
    of two entries; and on that channel without any observation. *)
Lemma _convert_to_csv_spec_witness :
  (∃ df,
     DataProcessor._convert_to_csv 0 (StoreSamples.store_of StoreSamples.steady)
     = (Ok (Some df), StoreSamples.store_of StoreSamples.steady)
     ∧ length df = 3%nat
     ∧ take 3 df.*1 = ["date"; "value"; "quality_flag"]
     ∧ Forall (λ c, DataProcessor.column_length c.2 = 5%nat) df)
  ∧ DataProcessor._convert_to_csv 0
      (StoreSamples.store_of FieldSamples.short_channel)
    = (Raise ValueError, StoreSamples.store_of FieldSamples.short_channel)
  ∧ (∃ df,
       DataProcessor._convert_to_csv 0
         (StoreSamples.store_of FieldSamples.channel_only)
       = (Ok (Some df), StoreSamples.store_of FieldSamples.channel_only)
       ∧ length df = 4%nat
       ∧ Forall (λ c, DataProcessor.column_length c.2 = 2%nat) df).
Proof.
  split; [|split].
  - destruct (_convert_to_csv_spec (StoreSamples.store_of StoreSamples.steady) 0 7
                StoreSamples.steady StoreSamples.five_dates
                [Fin 0.30; Fin 0.35; Fin 0.40; Fin 0.55; Fin 0.45])
      as [Hfits _].
    + eexists. split; [reflexivity|]. split; reflexivity.
    + reflexivity.
    + reflexivity.
    + apply Hfits. split; [reflexivity|]. split; [reflexivity|]. apply Forall_nil_2.
  - destruct (_convert_to_csv_spec
                (StoreSamples.store_of FieldSamples.short_channel) 0 7
                FieldSamples.short_channel StoreSamples.five_dates
                [Fin 0.30; Fin 0.35; Fin 0.40; Fin 0.55; Fin 0.45])
      as (_ & Hraise & _).
    + eexists. split; [reflexivity|]. split; reflexivity.
    + reflexivity.
    + reflexivity.
    + apply Hraise; [discriminate|]. intros (_ & _ & Hall).
      apply Forall_cons in Hall as [Hlen _]. discriminate Hlen.
  - destruct (_convert_to_csv_spec
                (StoreSamples.store_of FieldSamples.channel_only) 0 7
                FieldSamples.channel_only [] [])
      as (_ & _ & Hempty).
    + eexists. split; [reflexivity|]. split; reflexivity.
    + reflexivity.
    + reflexivity.
    + destruct (Hempty eq_refl eq_refl eq_refl 2%nat)
        as (df & Hrun & Hlen & _ & Hcols).
      * apply Forall_cons_2; [reflexivity | apply Forall_nil_2].
      * exists df. split; [exact Hrun|]. split; [exact Hlen|].
        apply Hcols. discriminate.
Defined.

(** X25, on five observations in NDVI units. *)
Lemma _calculate_vegetation_indices_spec_witness :
  ∃ σ' ts' evi green,
    DataProcessor._calculate_vegetation_indices 0
      (StoreSamples.store_of FieldSamples.ndvi) = (Ok 0%nat, σ')
    ∧ DataProcessor.all_series σ' !! 7%nat = Some ts'
    ∧ values ts' = values FieldSamples.ndvi
    ∧ evi_approximated ts' = Some evi ∧ greenness_index ts' = Some green
    ∧ Forall (λ x, x = NaN ∨ between (-1) 1 x) evi
    ∧ Forall (λ x, x = NaN ∨ in_unit_interval x) green.
Proof.
  destruct (_calculate_vegetation_indices_spec
              (StoreSamples.store_of FieldSamples.ndvi) 0 7 FieldSamples.ndvi
              [Fin 0.30; Fin 0.35; Fin 0.40; Fin 0.55; Fin 0.45])
    as [_ Hndvi].
  - eexists. split; [reflexivity|]. split; reflexivity.
  - reflexivity.
  - destruct Hndvi
      as (σ' & ts' & evi & savi & green & Hrun & _ & Hts' & _ & Hv & _ & Hevi
          & _ & Hgreen & _ & _ & _ & Hrange & Hunit).
    + reflexivity.
    + discriminate.
    + exists σ', ts', evi, green. split; [exact Hrun|]. split; [exact Hts'|].
      split; [exact Hv|]. split; [exact Hevi|]. split; [exact Hgreen|].
      split; [exact Hrange|]. apply Hunit.
      repeat (apply Forall_cons_2; [eexists; reflexivity|]). apply Forall_nil_2.
Defined.

(** X26, on the eight observations of the bump. *)
Lemma _apply_temporal_smoothing_spec_witness :
  ∃ σ' ts' smoothed,
    DataProcessor._apply_temporal_smoothing 0
      (StoreSamples.store_of FieldSamples.eight) = (Ok 0%nat, σ')
    ∧ DataProcessor.all_series σ' !! 7%nat = Some ts'
    ∧ values ts' = values FieldSamples.eight
    ∧ values_smoothed ts' = Some smoothed
    ∧ smoothing_applied ts' = Some 4%nat
    ∧ length smoothed = 8%nat.
Proof.
  destruct (_apply_temporal_smoothing_spec
              (StoreSamples.store_of FieldSamples.eight) 0 7 FieldSamples.eight
              Samples.bump_values)
    as [_ Hlong].
  - eexists. split; [reflexivity|]. split; reflexivity.
  - reflexivity.
  - destruct Hlong
      as (σ' & ts' & smoothed & w & Hrun & _ & Hts' & _ & Hv & _ & Hs & Hw & Hmin
          & _ & Hlen).
    + vm_compute. lia.
    + exists σ', ts', smoothed. split; [exact Hrun|]. split; [exact Hts'|].
      split; [exact Hv|]. split; [exact Hs|].
      split; [rewrite Hw, Hmin; reflexivity | exact Hlen].
Defined.

(** X27, on the flat series: ten observations within seven weeks. *)
Lemma seasonal_anomaly_needs_repeated_days_witness :
  detect_events Samples.flat "seasonal_anomaly" = Ok [].
Proof.
  apply (seasonal_anomaly_needs_repeated_days (H := Impl.libs) Samples.flat).
  intros ts raw parsed [= <-] [= <-] Hparsed.
  vm_compute in Hparsed. injection Hparsed as <-.
  refine (bool_decide_unpack _ _). vm_compute. exact I.
Defined.

(** X28, on six values of which the third and the fifth are valid. *)
Lemma _interpolate_missing_values_edges_witness :
  ∃ result,
    DataProcessor._interpolate_missing_values
      [Fin 9; Fin 9; Fin 1; Fin 9; Fin 3; Fin 9]
      [false; false; true; false; true; false] = Ok result
    ∧ result !! 0%nat = Some (Fin 1) ∧ result !! 1%nat = Some (Fin 1)
    ∧ result !! 5%nat = Some (Fin 3).
Proof.
  eexists. split; [vm_compute; reflexivity|].
  match goal with
  | |- ?result !! _ = _ ∧ _ =>
      destruct (_interpolate_missing_values_edges
                  [Fin 9; Fin 9; Fin 1; Fin 9; Fin 3; Fin 9]
                  [false; false; true; false; true; false] result 2 4)
        as [Hbefore Hafter]
  end.
  - reflexivity.
  - vm_compute. reflexivity.
  - lia.
  - reflexivity.
  - reflexivity.
  - intros [|[|[|[|[|[|j]]]]]] Hj; try discriminate Hj; lia.
  - split; [apply (Hbefore 0%nat); lia|]. split; [apply (Hbefore 1%nat); lia|].
    apply (Hafter 5%nat). simpl. lia.
Defined.

(** X29, on five observations, the second one under a cloud. *)
Lemma _apply_cloud_mask_twice_witness :
  ∃ σ1 ts1 σ2,
    DataProcessor._apply_cloud_mask 0 (StoreSamples.store_of StoreSamples.cloudy)
    = (Ok 0%nat, σ1)
    ∧ DataProcessor.all_series σ1 !! 7%nat = Some ts1
    ∧ DataProcessor._apply_cloud_mask 0 σ1 = (Ok 0%nat, σ2)
    ∧ ∀ b, DataProcessor.all_series σ2 !! b = DataProcessor.all_series σ1 !! b.
Proof.
  eexists _, _, _. split; [vm_compute; reflexivity|].
  split; [vm_compute; reflexivity|]. split; [vm_compute; reflexivity|].
  match goal with
  | |- ∀ b, DataProcessor.all_series ?σ2 !! b = DataProcessor.all_series ?σ1 !! b =>
      destruct (_apply_cloud_mask_twice
                  (StoreSamples.store_of StoreSamples.cloudy) 0 7
                  StoreSamples.cloudy [Fin 1; Fin 9; Fin 3; Fin 4; Fin 5]
                  ["good"; "cloudy"; "good"; "good"; "good"]
                  σ1 (series StoreSamples.five_dates
                        [Fin 1; Fin 2; Fin 3; Fin 4; Fin 5]
                        (Some ["good"; "interpolated"; "good"; "good"; "good"]))
                  σ2 (Ok 0%nat))
        as (_ & _ & Hsame)
  end.
  - eexists. split; [reflexivity|]. split; reflexivity.
  - reflexivity.
  - reflexivity.
  - reflexivity.
  - vm_compute. reflexivity.
  - vm_compute. reflexivity.
  - vm_compute. reflexivity.
  - exact Hsame.
Defined.
